(** * TerrariaClone: a shallow embedding of [game.py]

    The simulation core of the game (world generation, tile collisions,
    mining and placing, the day/night clock, enemy and boss bookkeeping) is
    translated function by function, and so is what the drawing code
    computes (the tiles [draw_world] blits, the width of the health bar, the
    sky colour).  Python integers are [Z], Python floats
    are the kernel's binary64 [float], lists are [list] indexed the way
    Python indexes them (negative indices count from the end, anything else
    out of range raises [IndexError]), the inventory dictionary is a
    [gmap string Z], and an uncaught exception is the [Raise] outcome of the
    [result] monad.  [pygame.Rect] is modelled by its four integer fields and
    the derived attributes the game uses.  pygame keeps these fields as C
    ints; the model takes them as unbounded integers and is exact for the
    rectangles that satisfy [Rect.fits], which the statements that depend on
    it assume. *)

From Stdlib Require Import ZArith Lia List Bool.
From Stdlib Require Import PrimFloat.
From Stdlib Require FloatOps SpecFloat FloatAxioms Uint63.
From stdpp Require Import gmap strings list fin_maps.

Set Warnings "-inexact-float".
Open Scope Z_scope.

(* ===================================================================== *)
(** ** Python runtime: exceptions, numbers, lists, the random module      *)
(* ===================================================================== *)

Inductive exn : Type :=
| IndexError
| KeyError
| ValueError
| OverflowError
| UnboundLocalError.

Inductive result (A : Type) : Type :=
| Ok (a : A)
| Raise (e : exn).

Arguments Ok {A} a.
Arguments Raise {A} e.

#[global] Instance result_ret : MRet result := fun _ a => Ok a.

#[global] Instance result_bind : MBind result := fun _ _ k m =>
  match m with
  | Ok a => k a
  | Raise e => Raise e
  end.

Definition is_ok {A : Type} (m : result A) : bool :=
  match m with Ok _ => true | Raise _ => false end.

(** [float(z)] for the small integers the game converts. *)
Definition float_of_int (z : Z) : PrimFloat.float :=
  if 0 <=? z then PrimFloat.of_uint63 (Uint63.of_Z z)
  else PrimFloat.opp (PrimFloat.of_uint63 (Uint63.of_Z (- z))).

(** [int(f)]: truncation toward zero; infinities and NaN raise. *)
Definition int_of_float (f : PrimFloat.float) : result Z :=
  match FloatOps.Prim2SF f with
  | SpecFloat.S754_zero _ => Ok 0
  | SpecFloat.S754_finite s m e =>
      let mag := if 0 <=? e then Z.pos m * 2 ^ e else Z.pos m / 2 ^ (- e) in
      Ok (if s then - mag else mag)
  | SpecFloat.S754_infinity _ => Raise OverflowError
  | SpecFloat.S754_nan => Raise ValueError
  end.

(** [range(a, b)]. *)
Definition range (a b : Z) : list Z := seqZ a (b - a).

(** Position of index [i] in a list of length [len]. *)
Definition py_index (len : nat) (i : Z) : result nat :=
  if (0 <=? i) && (i <? Z.of_nat len) then Ok (Z.to_nat i)
  else if (- Z.of_nat len <=? i) && (i <? 0) then Ok (Z.to_nat (i + Z.of_nat len))
  else Raise IndexError.

(** [l[i]]. *)
Definition getitem {A : Type} (l : list A) (i : Z) : result A :=
  n ← py_index (length l) i;
  match l !! n with
  | Some a => Ok a
  | None => Raise IndexError
  end.

(** [l[i] = a]. *)
Definition setitem {A : Type} (l : list A) (i : Z) (a : A) : result (list A) :=
  n ← py_index (length l) i;
  Ok (<[n := a]> l).

(** The [random] module: a tape of raw draws and the position of the next
    one.  Every call consumes one draw. *)
Record Rng : Type := mkRng { tape : nat -> Z; pos : nat }.

Definition draw (g : Rng) : Z * Rng :=
  (tape g (pos g), mkRng (tape g) (S (pos g))).

(** [random.random()]: a 53-bit integer scaled into [0, 1). *)
Definition random_random (g : Rng) : PrimFloat.float * Rng :=
  let '(k, g') := draw g in
  (PrimFloat.div (float_of_int (k mod 2 ^ 53)) 9007199254740992%float, g').

(** [random.randint(a, b)], both ends included. *)
Definition random_randint (a b : Z) (g : Rng) : Z * Rng :=
  let '(k, g') := draw g in (a + k mod (b - a + 1), g').

(** [random.choice(l)] for a non-empty list [d :: l]. *)
Definition random_choice {A : Type} (d : A) (l : list A) (g : Rng) : A * Rng :=
  let '(k, g') := draw g in
  (nth (Z.to_nat (k mod Z.of_nat (length (d :: l)))) (d :: l) d, g').

(* ===================================================================== *)
(** ** Configuration constants                                            *)
(* ===================================================================== *)

Definition SCREEN_WIDTH : Z := 960.
Definition SCREEN_HEIGHT : Z := 540.
Definition TILE_SIZE : Z := 32.
Definition WORLD_WIDTH : Z := 100.
Definition WORLD_HEIGHT : Z := 60.
Definition GRAVITY : PrimFloat.float := 0.6%float.
Definition PLAYER_SPEED : Z := 4.
Definition PLAYER_JUMP : Z := 12.
Definition ENEMY_SPEED : PrimFloat.float := 1.5%float.
Definition ENEMY_JUMP_CHANCE : PrimFloat.float := 0.01%float.
Definition DAY_LENGTH : Z := 60 * 20.
Definition ENEMY_SPAWN_INTERVAL : Z := 4 * 60.
Definition BOSS_SPAWN_ORE_COUNT : Z := 10.

(* ===================================================================== *)
(** ** pygame.Rect                                                        *)
(* ===================================================================== *)

Module Rect.

Record t : Type := mk { x : Z; y : Z; w : Z; h : Z }.

Definition left (r : t) : Z := x r.
Definition top (r : t) : Z := y r.
Definition right (r : t) : Z := x r + w r.
Definition bottom (r : t) : Z := y r + h r.
Definition centerx (r : t) : Z := x r + w r / 2.
Definition centery (r : t) : Z := y r + h r / 2.

Definition set_x (v : Z) (r : t) : t := mk v (y r) (w r) (h r).
Definition set_y (v : Z) (r : t) : t := mk (x r) v (w r) (h r).
Definition set_left (v : Z) (r : t) : t := set_x v r.
Definition set_top (v : Z) (r : t) : t := set_y v r.
Definition set_right (v : Z) (r : t) : t := set_x (v - w r) r.
Definition set_bottom (v : Z) (r : t) : t := set_y (v - h r) r.
Definition set_centerx (v : Z) (r : t) : t := set_x (v - w r / 2) r.

(** [a.colliderect(b)]: the interiors overlap; a rectangle of zero width or
    height collides with nothing. *)
Definition colliderect (a b : t) : bool :=
  if (w a =? 0) || (h a =? 0) || (w b =? 0) || (h b =? 0) then false
  else (Z.min (x a) (x a + w a) <? Z.max (x b) (x b + w b))
    && (Z.min (y a) (y a + h a) <? Z.max (y b) (y b + h b))
    && (Z.min (x b) (x b + w b) <? Z.max (x a) (x a + w a))
    && (Z.min (y b) (y b + h b) <? Z.max (y a) (y a + h a)).

(** pygame stores [x], [y], [w] and [h] as 32-bit C ints: outside that
    range a derived attribute such as [right] wraps around and an
    assignment raises.  A rectangle fits when its size is not negative and
    every field is below 2^30 in magnitude; then every sum the attributes
    compute, and every position a snap against a tile of the world or the
    clamp into the world assigns, is a C int, and the unbounded model
    agrees with pygame. *)
Definition fits (r : t) : Prop :=
  - 2 ^ 30 <= x r < 2 ^ 30 /\ - 2 ^ 30 <= y r < 2 ^ 30 /\
  0 <= w r < 2 ^ 30 /\ 0 <= h r < 2 ^ 30.

End Rect.

(* ===================================================================== *)
(** ** The tile grid and [generate_world]                                 *)
(* ===================================================================== *)

(** [world[y][x]] is the tile id of column [x], row [y]:
    0 air, 1 dirt, 2 grass, 3 stone, 4 ore, 5 wood. *)
Abbreviation World := (list (list Z)).

(** [world[y][x]]. *)
Definition world_get (world : World) (y x : Z) : result Z :=
  row ← getitem world y;
  getitem row x.

(** [world[y][x] = v]. *)
Definition world_set (world : World) (y x v : Z) : result World :=
  row ← getitem world y;
  row' ← setitem row x v;
  setitem world y row'.

Definition is_solid (tile_id : Z) : bool := negb (tile_id =? 0).

(** The inner loop [for y in range(current_height, height)] of
    [generate_world], for column [x]. *)
Fixpoint fill_column (world : World) (x current_height : Z) (ys : list Z)
    (g : Rng) : result (World * Rng) :=
  match ys with
  | [] => Ok (world, g)
  | y :: ys' =>
      if y =? current_height then
        world' ← world_set world y x 2;
        fill_column world' x current_height ys' g
      else if y <? current_height + 5 then
        world' ← world_set world y x 1;
        fill_column world' x current_height ys' g
      else
        let '(u, g') := random_random g in
        world' ← world_set world y x (if PrimFloat.ltb u 0.05%float then 4 else 3);
        fill_column world' x current_height ys' g'
  end.

(** The outer loop [for x in range(width)]. *)
Fixpoint fill_columns (world : World) (height base current_height : Z)
    (xs : list Z) (g : Rng) : result (World * Rng) :=
  match xs with
  | [] => Ok (world, g)
  | x :: xs' =>
      let '(d, g1) := random_choice (-1) [0; 1] g in
      let current_height := current_height + d in
      let current_height := Z.max (base - 4) (Z.min (base + 4) current_height) in
      '(world', g2) ← fill_column world x current_height (range current_height height) g1;
      fill_columns world' height base current_height xs' g2
  end.

Definition generate_world (width height : Z) (g : Rng) : result (World * Rng) :=
  let world := replicate (Z.to_nat height) (replicate (Z.to_nat width) 0) in
  let base := height / 2 in
  fill_columns world height base base (range 0 width) g.

(** The ground search of [run_game]:
    [for y in range(WORLD_HEIGHT): if world[y][col] != 0: ...; break]. *)
Fixpoint first_solid (world : World) (col : Z) (ys : list Z) : result (option Z) :=
  match ys with
  | [] => Ok None
  | y :: ys' =>
      tile ← world_get world y col;
      if negb (tile =? 0) then Ok (Some y) else first_solid world col ys'
  end.

(* ===================================================================== *)
(** ** Sprites: the attributes shared by Player, Enemy and Boss           *)
(* ===================================================================== *)

Record Sprite : Type := mkSprite {
  rect : Rect.t;
  vel_x : float;
  vel_y : float;
  on_ground : bool;
  health : Z;
  hurt_cooldown : Z
}.

Definition set_rect (r : Rect.t) (s : Sprite) : Sprite :=
  mkSprite r (vel_x s) (vel_y s) (on_ground s) (health s) (hurt_cooldown s).
Definition set_vel_x (v : float) (s : Sprite) : Sprite :=
  mkSprite (rect s) v (vel_y s) (on_ground s) (health s) (hurt_cooldown s).
Definition set_vel_y (v : float) (s : Sprite) : Sprite :=
  mkSprite (rect s) (vel_x s) v (on_ground s) (health s) (hurt_cooldown s).
Definition set_on_ground (b : bool) (s : Sprite) : Sprite :=
  mkSprite (rect s) (vel_x s) (vel_y s) b (health s) (hurt_cooldown s).
Definition set_health (v : Z) (s : Sprite) : Sprite :=
  mkSprite (rect s) (vel_x s) (vel_y s) (on_ground s) v (hurt_cooldown s).
Definition set_hurt_cooldown (v : Z) (s : Sprite) : Sprite :=
  mkSprite (rect s) (vel_x s) (vel_y s) (on_ground s) (health s) v.

(** The four sampled corners, in the order the loop visits them.  The list
    is built once, before any snapping. *)
Definition corners (r : Rect.t) : list (Z * Z) :=
  [ (Rect.left r, Rect.top r);
    (Rect.right r - 1, Rect.top r);
    (Rect.left r, Rect.bottom r - 1);
    (Rect.right r - 1, Rect.bottom r - 1) ].

Definition tile_in_world (tile_x tile_y : Z) : bool :=
  (0 <=? tile_x) && (tile_x <? WORLD_WIDTH) && (0 <=? tile_y) && (tile_y <? WORLD_HEIGHT).

(** What a solid tile under a corner does to the sprite. *)
Definition snap (dx dy : float) (tile_x tile_y : Z) (s : Sprite) : Sprite :=
  let s :=
    if (0 <? dy)%float then
      set_on_ground true
        (set_vel_y 0%float (set_rect (Rect.set_bottom (tile_y * TILE_SIZE) (rect s)) s))
    else if (dy <? 0)%float then
      set_vel_y 0%float (set_rect (Rect.set_top ((tile_y + 1) * TILE_SIZE) (rect s)) s)
    else s in
  if (0 <? dx)%float then
    set_rect (Rect.set_right (tile_x * TILE_SIZE) (rect s)) s
  else if (dx <? 0)%float then
    set_rect (Rect.set_left ((tile_x + 1) * TILE_SIZE) (rect s)) s
  else s.

(** One iteration of [for corner_x, corner_y in corners]. *)
Definition resolve_corner (world : World) (dx dy : float) (s : Sprite)
    (corner : Z * Z) : result Sprite :=
  let '(corner_x, corner_y) := corner in
  let tile_x := corner_x / TILE_SIZE in
  let tile_y := corner_y / TILE_SIZE in
  if tile_in_world tile_x tile_y then
    tile ← world_get world tile_y tile_x;
    if is_solid tile then Ok (snap dx dy tile_x tile_y s) else Ok s
  else Ok s.

Fixpoint resolve_corners (world : World) (dx dy : float) (s : Sprite)
    (cs : list (Z * Z)) : result Sprite :=
  match cs with
  | [] => Ok s
  | c :: cs' =>
      s' ← resolve_corner world dx dy s c;
      resolve_corners world dx dy s' cs'
  end.

(** "Keep within world bounds", the tail of the Enemy and Boss versions. *)
Definition keep_within_world (s : Sprite) : Sprite :=
  let s := if Rect.left (rect s) <? 0 then set_rect (Rect.set_left 0 (rect s)) s else s in
  if WORLD_WIDTH * TILE_SIZE <? Rect.right (rect s)
  then set_rect (Rect.set_right (WORLD_WIDTH * TILE_SIZE) (rect s)) s
  else s.

(** The movement part that the three [update] methods spell out
    identically, over the class's own [_resolve_collisions]: gravity and the
    horizontal move, ... *)
Definition move_horizontal
    (resolve : World -> Sprite -> float -> float -> result Sprite)
    (world : World) (s : Sprite) : result Sprite :=
  let s := set_vel_y (vel_y s + GRAVITY)%float s in
  ix ← int_of_float (vel_x s);
  let s := set_rect (Rect.set_x (Rect.x (rect s) + ix) (rect s)) s in
  resolve world s (vel_x s) 0%float.

(** ... the vertical displacement [rect.y += int(vel_y); on_ground = False]
    that precedes the vertical pass, ... *)
Definition displace_vertical (iy : Z) (s : Sprite) : Sprite :=
  set_on_ground false (set_rect (Rect.set_y (Rect.y (rect s) + iy) (rect s)) s).

Definition move_vertical
    (resolve : World -> Sprite -> float -> float -> result Sprite)
    (world : World) (s : Sprite) : result Sprite :=
  iy ← int_of_float (vel_y s);
  let s := displace_vertical iy s in
  resolve world s 0%float (vel_y s).

(** ... and the hurt cooldown timer. *)
Definition cool_down (s : Sprite) : Sprite :=
  if 0 <? hurt_cooldown s then set_hurt_cooldown (hurt_cooldown s - 1) s else s.

Definition move_and_collide
    (resolve : World -> Sprite -> float -> float -> result Sprite)
    (world : World) (s : Sprite) : result Sprite :=
  s ← move_horizontal resolve world s;
  s ← move_vertical resolve world s;
  Ok (cool_down s).

(* ===================================================================== *)
(** ** Player                                                             *)
(* ===================================================================== *)

Record Keys : Type := mkKeys {
  K_a : bool; K_LEFT : bool; K_d : bool; K_RIGHT : bool;
  K_w : bool; K_UP : bool; K_SPACE : bool;
  K_1 : bool; K_2 : bool; K_3 : bool; K_4 : bool
}.

Module Player.

Record t : Type := mk {
  body : Sprite;
  inventory : gmap string Z;
  selected : string
}.

Definition set_body (s : Sprite) (p : t) : t := mk s (inventory p) (selected p).
Definition set_inventory (i : gmap string Z) (p : t) : t := mk (body p) i (selected p).
Definition set_selected (k : string) (p : t) : t := mk (body p) (inventory p) k.

(** [Player(x, y, images)]; the player image is TILE_SIZE wide and
    int(TILE_SIZE * 1.5) high. *)
Definition init (x y : Z) : t :=
  mk (mkSprite (Rect.set_bottom y (Rect.set_centerx x (Rect.mk 0 0 32 48)))
        0%float 0%float false 100 0)
     (<["dirt" := 0]> (<["stone" := 0]> (<["ore" := 0]> (<["wood" := 0]> ∅))))
     "dirt".

Definition handle_input (keys : Keys) (p : t) : t :=
  let s := body p in
  let s := set_vel_x 0%float s in
  let s := if K_a keys || K_LEFT keys then set_vel_x (float_of_int (- PLAYER_SPEED)) s else s in
  let s := if K_d keys || K_RIGHT keys then set_vel_x (float_of_int PLAYER_SPEED) s else s in
  let s := if (K_w keys || K_UP keys || K_SPACE keys) && on_ground s
           then set_on_ground false (set_vel_y (float_of_int (- PLAYER_JUMP)) s) else s in
  let p := set_body s p in
  let p := if K_1 keys then set_selected "dirt" p else p in
  let p := if K_2 keys then set_selected "stone" p else p in
  let p := if K_3 keys then set_selected "ore" p else p in
  if K_4 keys then set_selected "wood" p else p.

Definition _resolve_collisions (world : World) (s : Sprite) (dx dy : float)
    : result Sprite :=
  resolve_corners world dx dy s (corners (rect s)).

Definition update (world : World) (p : t) : result t :=
  s ← move_and_collide _resolve_collisions world (body p);
  Ok (set_body s p).

(** [self.inventory[key] += n]. *)
Definition inventory_add (key : string) (n : Z) (inv : gmap string Z)
    : result (gmap string Z) :=
  match inv !! key with
  | Some c => Ok (<[key := c + n]> inv)
  | None => Raise KeyError
  end.

Definition mine_block (world : World) (camera mouse_pos : Z * Z) (p : t)
    : result (World * t) :=
  let '(mx, my) := mouse_pos in
  let world_x := (mx + fst camera) / TILE_SIZE in
  let world_y := (my + snd camera) / TILE_SIZE in
  let px := Rect.centerx (rect (body p)) / TILE_SIZE in
  let py := Rect.centery (rect (body p)) / TILE_SIZE in
  if (4 <? Z.abs (world_x - px)) || (4 <? Z.abs (world_y - py)) then Ok (world, p)
  else if tile_in_world world_x world_y then
    tile ← world_get world world_y world_x;
    if negb (tile =? 0) && (world_y <? WORLD_HEIGHT - 1) then
      inv ← (if tile =? 1 then inventory_add "dirt" 1 (inventory p)
             else if tile =? 2 then inventory_add "dirt" 1 (inventory p)
             else if tile =? 3 then inventory_add "stone" 1 (inventory p)
             else if tile =? 4 then inventory_add "ore" 1 (inventory p)
             else if tile =? 5 then inventory_add "wood" 1 (inventory p)
             else Ok (inventory p));
      world' ← world_set world world_y world_x 0;
      Ok (world', set_inventory inv p)
    else Ok (world, p)
  else Ok (world, p).

Definition place_block (world : World) (camera mouse_pos : Z * Z) (p : t)
    : result (World * t) :=
  if default 0 (inventory p !! selected p) <=? 0 then Ok (world, p)
  else
    let '(mx, my) := mouse_pos in
    let world_x := (mx + fst camera) / TILE_SIZE in
    let world_y := (my + snd camera) / TILE_SIZE in
    if tile_in_world world_x world_y then
      tile ← world_get world world_y world_x;
      if tile =? 0 then
        let tile_rect := Rect.mk (world_x * TILE_SIZE) (world_y * TILE_SIZE) TILE_SIZE TILE_SIZE in
        if negb (Rect.colliderect (rect (body p)) tile_rect) then
          world' ← (if String.eqb (selected p) "dirt" then world_set world world_y world_x 1
                    else if String.eqb (selected p) "stone" then world_set world world_y world_x 3
                    else if String.eqb (selected p) "ore" then world_set world world_y world_x 4
                    else if String.eqb (selected p) "wood" then world_set world world_y world_x 5
                    else Ok world);
          inv ← inventory_add (selected p) (-1) (inventory p);
          Ok (world', set_inventory inv p)
        else Ok (world, p)
      else Ok (world, p)
    else Ok (world, p).

End Player.

(* ===================================================================== *)
(** ** Enemy and Boss                                                     *)
(* ===================================================================== *)

Module Enemy.

(** [Enemy(x, y, images)]; same image size as the player. *)
Definition init (x y : Z) (g : Rng) : Sprite * Rng :=
  let '(v, g') := random_choice (- ENEMY_SPEED)%float [ENEMY_SPEED] g in
  (mkSprite (Rect.set_bottom y (Rect.set_centerx x (Rect.mk 0 0 32 48)))
     v 0%float false 30 0, g').

Definition _resolve_collisions (world : World) (s : Sprite) (dx dy : float)
    : result Sprite :=
  s' ← resolve_corners world dx dy s (corners (rect s));
  Ok (keep_within_world s').

(** The velocity policy that opens [update]: face the player, sometimes
    jump. *)
Definition chase (player : Player.t) (s : Sprite) (g : Rng) : Sprite * Rng :=
  let s := if Rect.centerx (rect (Player.body player)) <? Rect.centerx (rect s)
           then set_vel_x (- ENEMY_SPEED)%float s
           else set_vel_x ENEMY_SPEED s in
  if on_ground s then
    let '(u, g') := random_random g in
    if (u <? ENEMY_JUMP_CHANCE)%float
    then (set_on_ground false (set_vel_y (float_of_int (- PLAYER_JUMP) * 0.8)%float s), g')
    else (s, g')
  else (s, g).

Definition update (world : World) (player : Player.t) (s : Sprite) (g : Rng)
    : result (Sprite * Rng) :=
  let '(s, g) := chase player s g in
  s' ← move_and_collide _resolve_collisions world s;
  Ok (s', g).

Definition damage (amount : Z) (s : Sprite) : Sprite :=
  set_health (health s - amount) s.

End Enemy.

Module Boss.

(** [Boss(x, y, images)]; the image is scaled to 4 tiles a side. *)
Definition init (x y : Z) : Sprite :=
  let side := TILE_SIZE * 2 * 2 in
  mkSprite (Rect.set_bottom y (Rect.set_centerx x (Rect.mk 0 0 side side)))
    (ENEMY_SPEED * 1.5)%float 0%float false 250 0.

Definition _resolve_collisions (world : World) (s : Sprite) (dx dy : float)
    : result Sprite :=
  s' ← resolve_corners world dx dy s (corners (rect s));
  Ok (keep_within_world s').

(** The velocity policy that opens [update]: track the player, sometimes
    jump. *)
Definition chase (player : Player.t) (s : Sprite) (g : Rng) : Sprite * Rng :=
  let s := if Rect.centerx (rect (Player.body player)) <? Rect.centerx (rect s)
           then set_vel_x (- abs (vel_x s))%float s
           else set_vel_x (abs (vel_x s)) s in
  if on_ground s then
    let '(u, g') := random_random g in
    if (u <? 0.02)%float
    then (set_on_ground false (set_vel_y (float_of_int (- PLAYER_JUMP)) s), g')
    else (s, g')
  else (s, g).

Definition update (world : World) (player : Player.t) (s : Sprite) (g : Rng)
    : result (Sprite * Rng) :=
  let '(s, g) := chase player s g in
  s' ← move_and_collide _resolve_collisions world s;
  Ok (s', g).

Definition damage (amount : Z) (s : Sprite) : Sprite :=
  set_health (health s - amount) s.

End Boss.

(* ===================================================================== *)
(** ** The main loop of [run_game]                                        *)
(* ===================================================================== *)

(** What one frame reads from pygame: the event queue and the key state. *)
Inductive Event : Type :=
| QUIT
| MOUSEBUTTONDOWN (button : Z) (pos : Z * Z)
| OtherEvent.

Record Input : Type := mkInput { events : list Event; keys : Keys }.

Module Game.

(** The local variables of [run_game] that the simulation reads or writes.
    [camera] and [spawn_y] are unbound ([None]) until first assigned.  The
    drawing calls and the story-text timer are left out. *)
Record t : Type := mk {
  world : World;
  player : Player.t;
  enemies : list Sprite;
  enemy_spawn_timer : Z;
  boss : option Sprite;
  boss_spawned : bool;
  boss_defeated : bool;
  time_of_day : Z;
  day_count : Z;
  camera : option (Z * Z);
  spawn_y : option Z;
  running : bool;
  rng : Rng
}.

End Game.

(** [brightness] as computed from [time_of_day] each frame.  Both operands
    of the true division are small integers, exactly representable, so the
    quotient of their conversions is the correctly rounded quotient Python
    returns. *)
Definition brightness (time_of_day : Z) : float :=
  let t := (float_of_int time_of_day / float_of_int DAY_LENGTH)%float in
  (0.5 + 0.5 * (1 - abs (0.5 - t) * 2))%float.

Definition is_night (time_of_day : Z) : bool :=
  (brightness time_of_day <? 0.5)%float.

(** The state before the first frame. *)
Definition init_game (g : Rng) : result Game.t :=
  '(world, g) ← generate_world WORLD_WIDTH WORLD_HEIGHT g;
  found ← first_solid world 5 (range 0 WORLD_HEIGHT);
  let ground_y := default 0 found in
  Ok (Game.mk world (Player.init (5 * TILE_SIZE) (ground_y * TILE_SIZE))
        [] 0 None false false 0 0 None None true g).

(** One event of [for event in pygame.event.get()]. *)
Definition handle_event (st : Game.t) (ev : Event) : result Game.t :=
  match ev with
  | QUIT =>
      Ok (Game.mk (Game.world st) (Game.player st) (Game.enemies st)
            (Game.enemy_spawn_timer st) (Game.boss st) (Game.boss_spawned st)
            (Game.boss_defeated st) (Game.time_of_day st) (Game.day_count st)
            (Game.camera st) (Game.spawn_y st) false (Game.rng st))
  | MOUSEBUTTONDOWN button pos =>
      if (button =? 1) || (button =? 3) then
        match Game.camera st with
        | None => Raise UnboundLocalError
        | Some cam =>
            '(world, player) ←
              (if button =? 1 then Player.mine_block (Game.world st) cam pos (Game.player st)
               else Player.place_block (Game.world st) cam pos (Game.player st));
            Ok (Game.mk world player (Game.enemies st)
                  (Game.enemy_spawn_timer st) (Game.boss st) (Game.boss_spawned st)
                  (Game.boss_defeated st) (Game.time_of_day st) (Game.day_count st)
                  (Game.camera st) (Game.spawn_y st) (Game.running st) (Game.rng st))
        end
      else Ok st
  | OtherEvent => Ok st
  end.

Fixpoint handle_events (st : Game.t) (evs : list Event) : result Game.t :=
  match evs with
  | [] => Ok st
  | ev :: evs' => st' ← handle_event st ev; handle_events st' evs'
  end.

(** Contact damage of one enemy whose rectangle is [enemy_rect]. *)
Definition enemy_contact (enemy_rect : Rect.t) (player : Player.t) : Player.t :=
  let s := Player.body player in
  if Rect.colliderect enemy_rect (rect s) then
    if hurt_cooldown s =? 0 then
      let s := set_health (health s - 10) s in
      let s := set_hurt_cooldown 60 s in
      let s := if Rect.centerx enemy_rect <? Rect.centerx (rect s)
               then set_vel_x (vel_x s + 2)%float s
               else set_vel_x (vel_x s - 2)%float s in
      Player.set_body s player
    else player
  else player.

(** [for enemy in list(enemies)]: update, contact damage, removal.  Returns
    the enemies still in the group, in order. *)
Fixpoint update_enemies (world : World) (es : list Sprite) (player : Player.t)
    (g : Rng) : result (list Sprite * Player.t * Rng) :=
  match es with
  | [] => Ok ([], player, g)
  | enemy :: es' =>
      '(enemy, g) ← Enemy.update world player enemy g;
      let player := enemy_contact (rect enemy) player in
      let gone := (WORLD_HEIGHT * TILE_SIZE <? Rect.top (rect enemy)) || (health enemy <=? 0) in
      '(rest, player, g) ← update_enemies world es' player g;
      Ok (if gone then rest else enemy :: rest, player, g)
  end.

(** Contact damage of the boss. *)
Definition boss_contact (boss_rect : Rect.t) (player : Player.t) : Player.t :=
  let s := Player.body player in
  if Rect.colliderect boss_rect (rect s) then
    if hurt_cooldown s =? 0 then
      let s := set_health (health s - 20) s in
      let s := set_hurt_cooldown 60 s in
      let s := if Rect.centerx boss_rect <? Rect.centerx (rect s)
               then set_vel_x (vel_x s + 4)%float s
               else set_vel_x (vel_x s - 4)%float s in
      Player.set_body s player
    else player
  else player.

(** "Enemy spawning at night": the new enemy group, spawn timer, [spawn_y]
    and random state. *)
Definition spawn_enemies (st : Game.t) (time_of_day : Z) (player : Player.t)
    (g : Rng) : result (list Sprite * Z * option Z * Rng) :=
  if is_night time_of_day && negb (Game.boss_defeated st) then
    let enemy_spawn_timer := Game.enemy_spawn_timer st + 1 in
    if ENEMY_SPAWN_INTERVAL <=? enemy_spawn_timer then
      let '(spawn_x, g) := random_randint 0 (WORLD_WIDTH - 1) g in
      if 10 <? Z.abs (spawn_x - Rect.centerx (rect (Player.body player)) / TILE_SIZE) then
        found ← first_solid (Game.world st) spawn_x (range 0 WORLD_HEIGHT);
        match (match found with Some y => Some y | None => Game.spawn_y st end) with
        | None => Raise UnboundLocalError
        | Some spawn_y =>
            let '(enemy, g) := Enemy.init (spawn_x * TILE_SIZE) (spawn_y * TILE_SIZE) g in
            Ok (Game.enemies st ++ [enemy], 0, Some spawn_y, g)
        end
      else Ok (Game.enemies st, 0, Game.spawn_y st, g)
    else Ok (Game.enemies st, enemy_spawn_timer, Game.spawn_y st, g)
  else Ok (Game.enemies st, Game.enemy_spawn_timer st, Game.spawn_y st, g).

(** "Spawn boss if conditions met": the new [boss] and [boss_spawned]. *)
Definition spawn_boss (st : Game.t) (player : Player.t)
    : result (option Sprite * bool) :=
  if negb (Game.boss_spawned st) then
    match Player.inventory player !! "ore" with
    | None => Raise KeyError
    | Some ore =>
        if BOSS_SPAWN_ORE_COUNT <=? ore then
          let bx := Rect.centerx (rect (Player.body player)) in
          let gx := bx / TILE_SIZE in
          found ← first_solid (Game.world st) gx (range 0 WORLD_HEIGHT);
          let gy := default 0 found in
          Ok (Some (Boss.init bx (gy * TILE_SIZE)), true)
        else Ok (Game.boss st, Game.boss_spawned st)
    end
  else Ok (Game.boss st, Game.boss_spawned st).

(** "Update boss": the new [boss], [boss_defeated], player and random
    state. *)
Definition update_boss (st : Game.t) (boss : option Sprite) (player : Player.t)
    (g : Rng) : result (option Sprite * bool * Player.t * Rng) :=
  match boss with
  | Some b =>
      if negb (Game.boss_defeated st) then
        '(b, g) ← Boss.update (Game.world st) player b g;
        let player := boss_contact (rect b) player in
        Ok (Some b, if health b <=? 0 then true else Game.boss_defeated st, player, g)
      else Ok (boss, Game.boss_defeated st, player, g)
  | None => Ok (boss, Game.boss_defeated st, player, g)
  end.

(** One iteration of [while running]. *)
Definition tick (inp : Input) (st : Game.t) : result Game.t :=
  st ← handle_events st (events inp);
  let player := Player.handle_input (keys inp) (Game.player st) in
  player ← Player.update (Game.world st) player;
  let camera_x := Rect.centerx (rect (Player.body player)) - SCREEN_WIDTH / 2 in
  let camera_y := Rect.centery (rect (Player.body player)) - SCREEN_HEIGHT / 2 in
  let camera_x := Z.max 0 (Z.min camera_x (WORLD_WIDTH * TILE_SIZE - SCREEN_WIDTH)) in
  let camera_y := Z.max 0 (Z.min camera_y (WORLD_HEIGHT * TILE_SIZE - SCREEN_HEIGHT)) in
  let time_of_day := Game.time_of_day st + 1 in
  let '(time_of_day, day_count) :=
    if DAY_LENGTH <=? time_of_day then (0, Game.day_count st + 1)
    else (time_of_day, Game.day_count st) in
  '(enemies, enemy_spawn_timer, spawn_y, g) ← spawn_enemies st time_of_day player (Game.rng st);
  '(boss, boss_spawned) ← spawn_boss st player;
  '(enemies, player, g) ← update_enemies (Game.world st) enemies player g;
  '(boss, boss_defeated, player, g) ← update_boss st boss player g;
  let running := if health (Player.body player) <=? 0 then false else Game.running st in
  Ok (Game.mk (Game.world st) player enemies enemy_spawn_timer boss boss_spawned
        boss_defeated time_of_day day_count (Some (camera_x, camera_y)) spawn_y running g).

(** The frames of a run: the loop goes on while [running] holds, one input
    per frame; an exception ends the program. *)
Fixpoint run (inputs : list Input) (st : Game.t) : list Game.t :=
  match inputs with
  | [] => []
  | inp :: inputs' =>
      if Game.running st then
        match tick inp st with
        | Ok st' => st' :: run inputs' st'
        | Raise _ => []
        end
      else []
  end.

(* ===================================================================== *)
(** ** Rendering: what the drawing code computes                          *)
(* ===================================================================== *)

(** A call [surface.blit(images[image], dest)]. *)
Record Blit : Type := mkBlit { image : string; dest : Z * Z }.

(** "Map tile ids to image keys"; an id without image gives [None].  The
    images are pygame surfaces, which are truthy, so [if img] lets exactly
    the ids with an image through. *)
Definition tile_image (tile : Z) : option string :=
  if tile =? 1 then Some "dirt"
  else if tile =? 2 then Some "grass"
  else if tile =? 3 then Some "stone"
  else if tile =? 4 then Some "ore"
  else if tile =? 5 then Some "wood"
  else None.

(** The inner loop [for x in range(start_x, start_x + screen_tiles_x)] of
    [draw_world] for row [y]: the blits it makes, in order. *)
Fixpoint draw_world_row (world : World) (camera : Z * Z) (y : Z) (xs : list Z)
    : result (list Blit) :=
  match xs with
  | [] => Ok []
  | x :: xs' =>
      if (0 <=? x) && (x <? WORLD_WIDTH) then
        tile ← world_get world y x;
        rest ← draw_world_row world camera y xs';
        Ok (if negb (tile =? 0) then
              match tile_image tile with
              | Some img =>
                  mkBlit img (x * TILE_SIZE - fst camera, y * TILE_SIZE - snd camera) :: rest
              | None => rest
              end
            else rest)
      else draw_world_row world camera y xs'
  end.

(** The outer loop [for y in range(start_y, start_y + screen_tiles_y)]. *)
Fixpoint draw_world_rows (world : World) (camera : Z * Z) (ys xs : list Z)
    : result (list Blit) :=
  match ys with
  | [] => Ok []
  | y :: ys' =>
      if (0 <=? y) && (y <? WORLD_HEIGHT) then
        row ← draw_world_row world camera y xs;
        rest ← draw_world_rows world camera ys' xs;
        Ok (row ++ rest)
      else draw_world_rows world camera ys' xs
  end.

Definition draw_world (world : World) (camera : Z * Z) : result (list Blit) :=
  let screen_tiles_x := SCREEN_WIDTH / TILE_SIZE + 2 in
  let screen_tiles_y := SCREEN_HEIGHT / TILE_SIZE + 2 in
  let start_x := fst camera / TILE_SIZE in
  let start_y := snd camera / TILE_SIZE in
  draw_world_rows world camera
    (range start_y (start_y + screen_tiles_y))
    (range start_x (start_x + screen_tiles_x)).

(** The width of the red bar that [draw_health] draws:
    [max(0, min(max_width, int(max_width * (player.health / 100))))]. *)
Definition health_width (health : Z) : result Z :=
  let max_width := 200 in
  w ← int_of_float (float_of_int max_width * (float_of_int health / float_of_int 100))%float;
  Ok (Z.max 0 (Z.min max_width w)).

(** The sky colour of a frame: the linear interpolation between
    [night_color = (20, 30, 70)] and [day_color = (100, 150, 255)] by the
    frame's brightness, each channel truncated by [int]. *)
Definition sky_color (time_of_day : Z) : result (Z * Z * Z) :=
  let brightness := brightness time_of_day in
  r ← int_of_float (float_of_int 20 + float_of_int (100 - 20) * brightness)%float;
  g ← int_of_float (float_of_int 30 + float_of_int (150 - 30) * brightness)%float;
  b ← int_of_float (float_of_int 70 + float_of_int (255 - 70) * brightness)%float;
  Ok (r, g, b).

(* ===================================================================== *)
(** ** Vocabulary of the statements                                       *)
(* ===================================================================== *)

(** A grid of [height] rows of [width] tiles each. *)
Definition grid_dims (world : World) (width height : Z) : Prop :=
  Z.of_nat (length world) = height /\
  Forall (fun row => Z.of_nat (length row) = width) world.

(** The grid of the game: WORLD_HEIGHT rows of WORLD_WIDTH tiles. *)
Definition wf_world (world : World) : Prop :=
  grid_dims world WORLD_WIDTH WORLD_HEIGHT.

(** The tile of column [x], row [y], for coordinates inside the grid. *)
Definition tile_at (world : World) (x y : Z) : option Z :=
  if (0 <=? x) && (0 <=? y) then
    match world !! Z.to_nat y with
    | Some row => row !! Z.to_nat x
    | None => None
    end
  else None.

(** [world'] is [world] with the one tile at column [x], row [y] set to [v]. *)
Definition only_tile_changed (world world' : World) (x y v : Z) : Prop :=
  tile_at world' x y = Some v /\
  forall x' y', (x', y') <> (x, y) -> tile_at world' x' y' = tile_at world x' y'.

(** Two grids hold the same tiles at every coordinate inside
    [0, WORLD_WIDTH) x [0, WORLD_HEIGHT); outside they may differ in any
    way, shape included. *)
Definition agree_in_world (world1 world2 : World) : Prop :=
  forall x y, tile_in_world x y = true -> world_get world1 y x = world_get world2 y x.

(** The tile coordinate of a corner lies outside the world. *)
Definition corner_outside (corner : Z * Z) : Prop :=
  tile_in_world (fst corner / TILE_SIZE) (snd corner / TILE_SIZE) = false.

(** The corner lies in a solid tile of the world. *)
Definition corner_hits (world : World) (corner : Z * Z) : bool :=
  let tile_x := fst corner / TILE_SIZE in
  let tile_y := snd corner / TILE_SIZE in
  tile_in_world tile_x tile_y &&
  match tile_at world tile_x tile_y with
  | Some tile => is_solid tile
  | None => false
  end.

(** The last of the sampled corners, in the order of the loop, that lies in
    a solid tile. *)
Definition last_hit (world : World) (r : Rect.t) : option (Z * Z) :=
  last (filter (fun c => corner_hits world c = true) (corners r)).

(** The sprite stands on the top edge of tile row [tile_y]. *)
Definition grounded_on (tile_y : Z) (s : Sprite) : Prop :=
  on_ground s = true /\
  vel_y s = 0%float /\
  Rect.bottom (rect s) = tile_y * TILE_SIZE.

(** During the enemy loop of a frame some enemy, once updated, overlaps
    the player. *)
Inductive enemy_touches (world : World) (player : Player.t)
    : list Sprite -> Rng -> Prop :=
| touches_here (e : Sprite) (es : list Sprite) (g : Rng) (e' : Sprite) (g' : Rng) :
    Enemy.update world player e g = Ok (e', g') ->
    Rect.colliderect (rect e') (rect (Player.body player)) = true ->
    enemy_touches world player (e :: es) g
| touches_later (e : Sprite) (es : list Sprite) (g : Rng) (e' : Sprite) (g' : Rng) :
    Enemy.update world player e g = Ok (e', g') ->
    enemy_touches world player es g' ->
    enemy_touches world player (e :: es) g.

(** The tile coordinate under the mouse, as [mine_block] and [place_block]
    compute it, and the tile coordinate of the player's centre. *)
Definition target_x (camera mouse_pos : Z * Z) : Z :=
  (fst mouse_pos + fst camera) / TILE_SIZE.
Definition target_y (camera mouse_pos : Z * Z) : Z :=
  (snd mouse_pos + snd camera) / TILE_SIZE.
Definition player_tile_x (p : Player.t) : Z :=
  Rect.centerx (rect (Player.body p)) / TILE_SIZE.
Definition player_tile_y (p : Player.t) : Z :=
  Rect.centery (rect (Player.body p)) / TILE_SIZE.

(** The pixel rectangle of a tile. *)
Definition tile_rect (tile_x tile_y : Z) : Rect.t :=
  Rect.mk (tile_x * TILE_SIZE) (tile_y * TILE_SIZE) TILE_SIZE TILE_SIZE.

(** The resource a mined tile yields: dirt and grass give dirt. *)
Definition mined_resource (tile : Z) : option string :=
  if tile =? 1 then Some "dirt"
  else if tile =? 2 then Some "dirt"
  else if tile =? 3 then Some "stone"
  else if tile =? 4 then Some "ore"
  else if tile =? 5 then Some "wood"
  else None.

(** The tile id written when a resource is placed. *)
Definition placed_tile (key : string) : option Z :=
  if String.eqb key "dirt" then Some 1
  else if String.eqb key "stone" then Some 3
  else if String.eqb key "ore" then Some 4
  else if String.eqb key "wood" then Some 5
  else None.

(** The inventory holds a count for each of the four resources. *)
Definition inventory_ok (inv : gmap string Z) : Prop :=
  is_Some (inv !! "dirt") /\ is_Some (inv !! "stone") /\
  is_Some (inv !! "ore") /\ is_Some (inv !! "wood").

(** The number of active bosses: the boss exists and is not defeated. *)
Definition active_bosses (st : Game.t) : Z :=
  match Game.boss st with
  | Some _ => if Game.boss_defeated st then 0 else 1
  | None => 0
  end.

(** The number of places where a sequence steps from 0 to 1. *)
Fixpoint rises (l : list Z) : nat :=
  match l with
  | a :: (b :: _) as tl =>
      if (a =? 0) && (b =? 1) then S (rises tl) else rises tl
  | _ => 0%nat
  end.

(** The ore count of the player's inventory. *)
Definition ore_count (st : Game.t) : option Z :=
  Player.inventory (Game.player st) !! "ore".

(** The layering of column [x] below its surface row [s]: grass at [s],
    dirt in the four rows under it, stone or ore from there to the bottom
    row, and air in every row above [s]. *)
Definition column_layered (world : World) (height x s : Z) : Prop :=
  tile_at world x s = Some 2 /\
  (forall y, s < y <= s + 4 -> tile_at world x y = Some 1) /\
  (forall y, s + 4 < y < height ->
     tile_at world x y = Some 3 \/ tile_at world x y = Some 4) /\
  (forall y, 0 <= y < s -> tile_at world x y = Some 0).

(** The tile that [generate_world] writes at row [y] of a column whose
    surface row is [current_height]. *)
Definition layer_ok (current_height y tile : Z) : Prop :=
  if y =? current_height then tile = 2
  else if y <? current_height + 5 then tile = 1
  else tile = 3 \/ tile = 4.

(** What the vertical pass does at a solid corner when moving down. *)
Definition landed (tile_y : Z) (s : Sprite) : Sprite :=
  set_on_ground true
    (set_vel_y 0%float (set_rect (Rect.set_bottom (tile_y * TILE_SIZE) (rect s)) s)).

(** Before the boss has spawned there is no boss object and no defeat. *)
Definition no_boss_before_spawn (st : Game.t) : Prop :=
  Game.boss_spawned st = false ->
  Game.boss st = None /\ Game.boss_defeated st = false.

(** From frame [a] to the next frame [b] no boss was created: the boss of
    [b] is the very boss of [a], updated once by [Boss.update] on the grid
    of the frame if it is active, untouched if it is defeated; and where
    [a] has no boss, [b] has none. *)
Definition boss_carried_over (a b : Game.t) : Prop :=
  match Game.boss a with
  | None => Game.boss b = None
  | Some x =>
      if Game.boss_defeated a then Game.boss b = Some x
      else exists player g x' g',
             Boss.update (Game.world b) player x g = Ok (x', g') /\
             Game.boss b = Some x'
  end.

(** The frame from [a] to [b] created the boss: the boss of [b] is a fresh
    [Boss.init] at some position, updated once. *)
Definition boss_created (a b : Game.t) : Prop :=
  exists bx gy player g x' g',
    Boss.update (Game.world b) player (Boss.init bx (gy * TILE_SIZE)) g = Ok (x', g') /\
    Game.boss b = Some x'.

(** The positions that the two moves of an update assign stay in the range
    of [Rect.fits]: the horizontal position after [rect.x += int(vel_x)]
    and the vertical position after [rect.y += int(vel_y)], gravity
    added. *)
Definition step_fits (s : Sprite) : Prop :=
  (forall ix, int_of_float (vel_x s) = Ok ix ->
     - 2 ^ 30 <= Rect.x (rect s) + ix < 2 ^ 30) /\
  (forall iy, int_of_float (vel_y s + GRAVITY)%float = Ok iy ->
     - 2 ^ 30 <= Rect.y (rect s) + iy < 2 ^ 30).

(** A sequence of surface rows that starts within one row of [prev] and
    never steps by more than one row. *)
Fixpoint gentle (prev : Z) (hs : list Z) : Prop :=
  match hs with
  | [] => True
  | h :: hs' => Z.abs (h - prev) <= 1 /\ gentle h hs'
  end.

(** Every tile id of the grid satisfies [P]. *)
Definition all_tiles (P : Z -> Prop) (world : World) : Prop :=
  Forall (Forall P) world.

(** The variables of [run_game] that the event loop of a frame cannot
    change: everything but the grid, the inventory and [running]. *)
Definition beyond_events (st : Game.t) :=
  (Player.body (Game.player st), Player.selected (Game.player st),
   Game.enemies st, Game.enemy_spawn_timer st,
   Game.boss st, Game.boss_spawned st, Game.boss_defeated st,
   Game.time_of_day st, Game.day_count st,
   Game.camera st, Game.spawn_y st, Game.rng st).

(** The camera a frame derives from the player's rectangle. *)
Definition camera_of (r : Rect.t) : Z * Z :=
  (Z.max 0 (Z.min (Rect.centerx r - SCREEN_WIDTH / 2) (WORLD_WIDTH * TILE_SIZE - SCREEN_WIDTH)),
   Z.max 0 (Z.min (Rect.centery r - SCREEN_HEIGHT / 2) (WORLD_HEIGHT * TILE_SIZE - SCREEN_HEIGHT))).

(** The clock after one more frame. *)
Definition next_time (time_of_day : Z) : Z :=
  if DAY_LENGTH <=? time_of_day + 1 then 0 else time_of_day + 1.
Definition next_day (time_of_day day_count : Z) : Z :=
  if DAY_LENGTH <=? time_of_day + 1 then day_count + 1 else day_count.

(** The player's health and hurt cooldown in a frame. *)
Definition player_health (st : Game.t) : Z := health (Player.body (Game.player st)).
Definition player_cooldown (st : Game.t) : Z := hurt_cooldown (Player.body (Game.player st)).

(** The resources the inventory counts. *)
Definition resources : list string := ["dirt"; "stone"; "ore"; "wood"].

(** The inventory holds a count of 0 or more for each resource, and no
    other key. *)
Definition inventory_counts (inv : gmap string Z) : Prop :=
  (forall key, key ∈ resources -> exists c, inv !! key = Some c /\ 0 <= c) /\
  (forall key, is_Some (inv !! key) -> key ∈ resources).

(** The shape of a sound game state: the grid has the game's size and holds
    tile ids 0 to 5 only, the inventory is as above, and the selected
    resource is one of the four. *)
Definition game_ok (st : Game.t) : Prop :=
  wf_world (Game.world st) /\
  all_tiles (fun t => 0 <= t <= 5) (Game.world st) /\
  inventory_counts (Player.inventory (Game.player st)) /\
  Player.selected (Game.player st) ∈ resources.

(** The sum of [f] over a list. *)
Fixpoint total {A : Type} (f : A -> Z) (l : list A) : Z :=
  match l with
  | [] => 0
  | a :: l' => f a + total f l'
  end.

(** The number of solid tiles of the grid, the number of items in the
    inventory, and their sum. *)
Definition solid_tiles (world : World) : Z :=
  total (total (fun t => if is_solid t then 1 else 0)) world.
Definition items_held (inv : gmap string Z) : Z :=
  total (fun key => default 0 (inv !! key)) resources.
Definition material (st : Game.t) : Z :=
  solid_tiles (Game.world st) + items_held (Player.inventory (Game.player st)).

(** The bottom row of the grid is solid in every column. *)
Definition bedrock (world : World) : Prop :=
  forall x, 0 <= x < WORLD_WIDTH ->
    exists t, tile_at world x (WORLD_HEIGHT - 1) = Some t /\ t <> 0.

(** A left or right mouse click, the events that mine and place. *)
Definition is_click (ev : Event) : Prop :=
  match ev with
  | MOUSEBUTTONDOWN button _ => button = 1 \/ button = 3
  | _ => False
  end.

(** The sprite that collision resolution leaves: snapped against the last
    solid corner, or untouched when no corner lies in a solid tile. *)
Definition snapped (world : World) (dx dy : float) (s : Sprite) : Sprite :=
  match last_hit world (rect s) with
  | Some c => snap dx dy (fst c / TILE_SIZE) (snd c / TILE_SIZE) s
  | None => s
  end.

(** The state with the player's horizontal velocity replaced by [v], as a
    knockback leaves it. *)
Definition with_player_vel_x (v : float) (p : Player.t) : Player.t :=
  Player.set_body (set_vel_x v (Player.body p)) p.
Definition knocked (v : float) (st : Game.t) : Game.t :=
  Game.mk (Game.world st) (with_player_vel_x v (Game.player st)) (Game.enemies st)
    (Game.enemy_spawn_timer st) (Game.boss st) (Game.boss_spawned st)
    (Game.boss_defeated st) (Game.time_of_day st) (Game.day_count st)
    (Game.camera st) (Game.spawn_y st) (Game.running st) (Game.rng st).

(** No movement key is held; no jump key is held. *)
Definition no_move_keys (keys : Keys) : Prop :=
  K_a keys = false /\ K_LEFT keys = false /\ K_d keys = false /\ K_RIGHT keys = false.
Definition no_jump_keys (keys : Keys) : Prop :=
  K_w keys = false /\ K_UP keys = false /\ K_SPACE keys = false.

(** The sprite rests on top of tile row [tile_y]: it does not move
    vertically, none of its corners is in a solid tile, and one pixel
    further down its last solid corner is in row [tile_y], right under its
    bottom edge. *)
Definition rests_on (world : World) (tile_y : Z) (s : Sprite) : Prop :=
  vel_y s = 0%float /\
  Rect.bottom (rect s) = tile_y * TILE_SIZE /\
  last_hit world (rect s) = None /\
  exists c, last_hit world (rect (displace_vertical 1 s)) = Some c /\
            snd c / TILE_SIZE = tile_y.

(** The player's part of consecutive frames: key handling, then update,
    once per frame. *)
Fixpoint player_frames (world : World) (ks : list Keys) (p : Player.t)
    : result Player.t :=
  match ks with
  | [] => Ok p
  | k :: ks' =>
      p' ← Player.update world (Player.handle_input k p);
      player_frames world ks' p'
  end.

(** Free flight: the vertical offsets and velocities of [n] frames in which
    nothing is hit, from vertical velocity [v] at offset [dy].  Each frame
    adds GRAVITY to the velocity and then the truncated velocity to the
    position. *)
Fixpoint flight (n : nat) (dy : Z) (v : float) : list (Z * float) :=
  match n with
  | O => []
  | S n' =>
      let v' := (v + GRAVITY)%float in
      match int_of_float v' with
      | Ok iy => (dy + iy, v') :: flight n' (dy + iy) v'
      | Raise _ => []
      end
  end.

(** The offsets of the 39 frames of a jump, which starts at vertical
    velocity [-PLAYER_JUMP]. *)
Definition jump_heights : list Z :=
  fst <$> flight 39 0 (float_of_int (- PLAYER_JUMP)).

(* ===================================================================== *)
(** ** Concrete grids, bodies and runs                                    *)
(* ===================================================================== *)

(** An all-air grid of the game's size. *)
Definition air_world : World :=
  replicate (Z.to_nat WORLD_HEIGHT) (replicate (Z.to_nat WORLD_WIDTH) 0).

(** Thirty rows of air over thirty rows of stone. *)
Definition flat_world : World :=
  replicate 30 (replicate 100 0) ++ replicate 30 (replicate 100 3).

(** A random source whose every raw draw is 0: [random.choice([-1, 0, 1])]
    then returns -1 each time. *)
Definition rng_zeros : Rng := mkRng (fun _ => 0) 0.

(** A random source whose every raw draw is 2: [random.choice([-1, 0, 1])]
    then returns +1 each time. *)
Definition rng_twos : Rng := mkRng (fun _ => 2) 0.

(** An enemy as [Enemy(0 * TILE_SIZE, 30 * TILE_SIZE, images)] creates it:
    centred on the left edge of the world, half of it outside. *)
Definition enemy_at_column_0 : Sprite :=
  mkSprite (Rect.set_bottom (30 * TILE_SIZE) (Rect.set_centerx 0 (Rect.mk 0 0 32 48)))
    ENEMY_SPEED 0%float false 30 0.

(** A player-sized body far to the right of and below the world. *)
Definition sprite_outside_world : Sprite :=
  mkSprite (Rect.mk 5000 3000 32 48) 4%float 7.5%float false 100 0.

(** A player falling at 5 pixels per frame, 2 pixels above the stone. *)
Definition falling_player : Player.t :=
  Player.mk (mkSprite (Rect.mk 144 910 32 48) 0%float 5%float false 100 0)
    (Player.inventory (Player.init 0 0)) "dirt".

(** A player standing on the stone of [flat_world] in column 5, with the
    given counts of stone and ore, and stone selected. *)
Definition standing_player (stone ore : Z) : Player.t :=
  Player.mk (mkSprite (Rect.mk 144 912 32 48) 0%float 0%float true 100 0)
    (<["dirt" := 0]> (<["stone" := stone]> (<["ore" := ore]> (<["wood" := 0]> ∅))))
    "stone".

(** The standing player, 10 ore in the inventory, moved to the right of
    the last column of the world. *)
Definition player_right_of_world : Player.t :=
  Player.mk (mkSprite (Rect.mk 3300 912 32 48) 0%float 0%float true 100 0)
    (Player.inventory (standing_player 0 10)) "stone".

(** No key pressed, and two frames without events. *)
Definition idle_keys : Keys :=
  mkKeys false false false false false false false false false false false.

Definition two_idle_frames : list Input :=
  [mkInput [] idle_keys; mkInput [] idle_keys].

(** Only the space bar held. *)
Definition jump_keys : Keys :=
  mkKeys false false false false false false true false false false false.

(** A game about to spawn the boss: the player holds 10 ore. *)
Definition ore_rich_start : Game.t :=
  Game.mk flat_world (standing_player 0 10) [] 0 None false false 0 0 None None true rng_twos.

(** A game whose player has just been hit: health 90, hurt cooldown 60. *)
Definition just_hit_start : Game.t :=
  Game.mk flat_world
    (Player.mk (mkSprite (Rect.mk 144 912 32 48) 0%float 0%float true 90 60)
       (Player.inventory (standing_player 0 0)) "stone")
    [] 0 None false false 0 0 None None true rng_twos.

(** A game at its start on the flat grid: full health, empty inventory. *)
Definition flat_start : Game.t :=
  Game.mk flat_world (standing_player 0 0) [] 0 None false false 0 0 None None true rng_twos.

(** An idle frame, then a left click on the stone tile under the player's
    feet (column 5, row 30; the camera is at (0, 666) by then). *)
Definition mine_frames : list Input :=
  [mkInput [] idle_keys; mkInput [MOUSEBUTTONDOWN 1 (170, 304)] idle_keys].

(** A player-sized body sunk 8 pixels into the stone of [flat_world]. *)
Definition sunk_sprite : Sprite :=
  mkSprite (Rect.mk 144 920 32 48) 0%float 5%float false 100 0.

(** A player-sized body whose right part is inside a stone tile: column 5
    of row 30 lies under its right corners. *)
Definition sprite_in_wall : Sprite :=
  mkSprite (Rect.mk 140 960 32 48) 4%float 0%float false 100 0.

(* ===================================================================== *)
(** ** Lists, grids and the result monad                                  *)
(* ===================================================================== *)

Lemma bind_Ok {A B : Type} (m : result A) (k : A -> result B) (b : B) :
  (m ≫= k) = Ok b -> exists a, m = Ok a /\ k a = Ok b.
Proof.
  destruct m as [a|e]; simpl; intros H; [eauto | discriminate].
Qed.

Lemma py_index_in_range (len : nat) (i : Z) :
  0 <= i < Z.of_nat len -> py_index len i = Ok (Z.to_nat i).
Proof.
  intros [H0 H1]. unfold py_index.
  apply Z.leb_le in H0. apply Z.ltb_lt in H1. rewrite H0, H1. reflexivity.
Qed.

Lemma getitem_in_range {A : Type} (l : list A) (i : Z) (a : A) :
  0 <= i -> l !! Z.to_nat i = Some a -> getitem l i = Ok a.
Proof.
  intros H0 Hl. unfold getitem.
  rewrite py_index_in_range.
  - simpl. rewrite Hl. reflexivity.
  - apply lookup_lt_Some in Hl. lia.
Qed.

Lemma setitem_in_range {A : Type} (l : list A) (i : Z) (a : A) :
  0 <= i < Z.of_nat (length l) -> setitem l i a = Ok (<[Z.to_nat i := a]> l).
Proof.
  intros H. unfold setitem. rewrite py_index_in_range by exact H. reflexivity.
Qed.

Lemma grid_dims_row (world : World) (width height y : Z) :
  grid_dims world width height -> 0 <= y < height ->
  exists row, world !! Z.to_nat y = Some row /\ Z.of_nat (length row) = width.
Proof.
  intros [Hlen Hrows] Hy.
  destruct (lookup_lt_is_Some_2 world (Z.to_nat y)) as [row Hrow]; [lia|].
  exists row. split; [exact Hrow|].
  rewrite Forall_lookup in Hrows. exact (Hrows _ _ Hrow).
Qed.

Lemma tile_at_in_range (world : World) (width height x y : Z) :
  grid_dims world width height -> 0 <= x < width -> 0 <= y < height ->
  exists tile, tile_at world x y = Some tile.
Proof.
  intros Hd Hx Hy.
  destruct (grid_dims_row _ _ _ _ Hd Hy) as (row & Hrow & Hlen).
  destruct (lookup_lt_is_Some_2 row (Z.to_nat x)) as [tile Htile]; [lia|].
  exists tile. unfold tile_at.
  destruct Hx as [Hx _]. destruct Hy as [Hy _].
  apply Z.leb_le in Hx. apply Z.leb_le in Hy. rewrite Hx, Hy. simpl.
  rewrite Hrow. exact Htile.
Qed.

Lemma tile_at_Some (world : World) (x y tile : Z) :
  tile_at world x y = Some tile ->
  0 <= x /\ 0 <= y /\
  exists row, world !! Z.to_nat y = Some row /\ row !! Z.to_nat x = Some tile.
Proof.
  unfold tile_at. intros H.
  destruct (0 <=? x) eqn:Hx; [|discriminate].
  destruct (0 <=? y) eqn:Hy; [|discriminate]. simpl in H.
  apply Z.leb_le in Hx. apply Z.leb_le in Hy.
  destruct (world !! Z.to_nat y) as [row|] eqn:Hrow; [|discriminate].
  eauto.
Qed.

(** Reading a tile inside the grid returns it, without exception. *)
Lemma world_get_tile_at (world : World) (x y tile : Z) :
  tile_at world x y = Some tile -> world_get world y x = Ok tile.
Proof.
  intros H. apply tile_at_Some in H as (Hx & Hy & row & Hrow & Htile).
  unfold world_get. rewrite (getitem_in_range _ _ _ Hy Hrow). simpl.
  apply getitem_in_range; assumption.
Qed.

Lemma tile_at_insert_same (world : World) (row : list Z) (x y v : Z) :
  0 <= x -> 0 <= y ->
  world !! Z.to_nat y = Some row -> (Z.to_nat x < length row)%nat ->
  tile_at (<[Z.to_nat y := <[Z.to_nat x := v]> row]> world) x y = Some v.
Proof.
  intros Hx Hy Hrow Hlt. unfold tile_at.
  apply Z.leb_le in Hx. apply Z.leb_le in Hy. rewrite Hx, Hy. simpl.
  rewrite list_lookup_insert_eq by (apply lookup_lt_Some in Hrow; exact Hrow).
  apply list_lookup_insert_eq. exact Hlt.
Qed.

Lemma tile_at_insert_other (world : World) (row : list Z) (x y v x' y' : Z) :
  0 <= x -> 0 <= y ->
  world !! Z.to_nat y = Some row -> (x', y') <> (x, y) ->
  tile_at (<[Z.to_nat y := <[Z.to_nat x := v]> row]> world) x' y' = tile_at world x' y'.
Proof.
  intros Hx Hy Hrow Hne. unfold tile_at.
  destruct (0 <=? x') eqn:Hx'; [|reflexivity].
  destruct (0 <=? y') eqn:Hy'; [|reflexivity]. simpl.
  apply Z.leb_le in Hx'. apply Z.leb_le in Hy'.
  destruct (decide (Z.to_nat y = Z.to_nat y')) as [Heq|Hney].
  - rewrite <- Heq.
    rewrite list_lookup_insert_eq by (apply lookup_lt_Some in Hrow; exact Hrow).
    rewrite Hrow. apply list_lookup_insert_ne.
    intros Hxx. apply Hne. f_equal; lia.
  - rewrite list_lookup_insert_ne by exact Hney. reflexivity.
Qed.

(** Writing a tile inside the grid succeeds, changes that tile only and
    keeps the dimensions. *)
Lemma world_set_in_range (world : World) (width height x y v : Z) :
  grid_dims world width height -> 0 <= x < width -> 0 <= y < height ->
  exists world',
    world_set world y x v = Ok world' /\
    grid_dims world' width height /\
    only_tile_changed world world' x y v.
Proof.
  intros Hd Hx Hy.
  destruct (grid_dims_row _ _ _ _ Hd Hy) as (row & Hrow & Hlen).
  exists (<[Z.to_nat y := <[Z.to_nat x := v]> row]> world).
  split; [|split; [|split]].
  - unfold world_set.
    rewrite (getitem_in_range _ _ row) by (lia || exact Hrow). simpl.
    rewrite setitem_in_range by lia. simpl.
    apply setitem_in_range. destruct Hd as [Hd _]. lia.
  - destruct Hd as [Hl Hrows]. split.
    + rewrite length_insert. exact Hl.
    + apply Forall_insert; [exact Hrows|]. rewrite length_insert. exact Hlen.
  - apply tile_at_insert_same; try lia. exact Hrow.
  - intros x' y' Hne. apply tile_at_insert_other; try lia; assumption.
Qed.

Lemma air_world_wf : wf_world air_world.
Proof.
  split.
  - unfold air_world. rewrite length_replicate. reflexivity.
  - unfold air_world. apply Forall_replicate. rewrite length_replicate. reflexivity.
Qed.

(* ===================================================================== *)
(** ** The day/night clock                                                *)
(* ===================================================================== *)

Lemma brightness_at_zero : brightness 0 = 0.5%float.
Proof. reflexivity. Qed.

Lemma brightness_at_half : brightness (DAY_LENGTH / 2) = 1%float.
Proof. reflexivity. Qed.

(** Over the whole counter period the brightness never drops below 0.5, so
    [is_night] holds at no value the counter takes. *)
Lemma is_night_never (time_of_day : Z) :
  0 <= time_of_day < DAY_LENGTH -> is_night time_of_day = false.
Proof.
  intros H.
  assert (Hall : forallb (fun t => negb (is_night t)) (range 0 DAY_LENGTH) = true)
    by (vm_compute; reflexivity).
  rewrite forallb_forall in Hall.
  apply negb_true_iff, Hall.
  apply list_elem_of_In. unfold range. apply elem_of_seqZ. lia.
Qed.

(** C1, as stated, fails: at time 0 the formula gives 0.5, not 1.0, and at
    half the period it gives 1.0, not 0.0, where the night test is false. *)
Lemma C1_brightness_counterexample :
  (brightness 0 = 0.5%float /\
   brightness (DAY_LENGTH / 2) = 1%float /\
   is_night (DAY_LENGTH / 2) = false) /\
  ~ (brightness 0 = 1%float /\
     brightness (DAY_LENGTH / 2) = 0%float /\
     is_night 0 = false /\
     is_night (DAY_LENGTH / 2) = true).
Proof.
  split; [repeat split; reflexivity|].
  intros (H0 & _). vm_compute in H0. discriminate H0.
Qed.

(** C1 (amended): [time_of_day = 0] yields brightness 0.5, and the
    night-only spawn test [brightness < 0.5] is false there: the spawn step
    leaves the enemies, the spawn timer and the random state as they
    were. *)
Theorem C1_brightness_values :
  brightness 0 = 0.5%float /\
  is_night 0 = false /\
  (forall st player g,
     spawn_enemies st 0 player g =
     Ok (Game.enemies st, Game.enemy_spawn_timer st, Game.spawn_y st, g)).
Proof.
  split; [|split]; reflexivity.
Qed.

(* ===================================================================== *)
(** ** Collision resolution                                               *)
(* ===================================================================== *)

Lemma tile_in_world_spec (tile_x tile_y : Z) :
  tile_in_world tile_x tile_y = true <->
  0 <= tile_x < WORLD_WIDTH /\ 0 <= tile_y < WORLD_HEIGHT.
Proof.
  unfold tile_in_world.
  rewrite !andb_true_iff, !Z.leb_le, !Z.ltb_lt. tauto.
Qed.

(** Inside the game's grid a read never raises. *)
Lemma world_get_wf (world : World) (tile_x tile_y : Z) :
  wf_world world -> tile_in_world tile_x tile_y = true ->
  exists tile, world_get world tile_y tile_x = Ok tile /\
               tile_at world tile_x tile_y = Some tile.
Proof.
  intros Hwf Hin. apply tile_in_world_spec in Hin as [Hx Hy].
  destruct (tile_at_in_range _ _ _ _ _ Hwf Hx Hy) as [tile Ht].
  exists tile. split; [apply world_get_tile_at|]; exact Ht.
Qed.

Lemma snap_zero (tile_x tile_y : Z) (s : Sprite) :
  snap 0 0 tile_x tile_y s = s.
Proof. reflexivity. Qed.

Lemma resolve_corner_wf (world : World) (dx dy : float) (s : Sprite) (c : Z * Z) :
  wf_world world -> exists s', resolve_corner world dx dy s c = Ok s'.
Proof.
  intros Hwf. destruct c as [cx cy]. unfold resolve_corner.
  destruct (tile_in_world (cx / TILE_SIZE) (cy / TILE_SIZE)) eqn:Hin; [|eauto].
  destruct (world_get_wf _ _ _ Hwf Hin) as (tile & Hget & _).
  rewrite Hget. simpl. destruct (is_solid tile); eauto.
Qed.

Lemma resolve_corners_wf (world : World) (dx dy : float) (cs : list (Z * Z)) :
  wf_world world -> forall s, exists s', resolve_corners world dx dy s cs = Ok s'.
Proof.
  intros Hwf. induction cs as [|c cs IH]; intros s; simpl; [eauto|].
  destruct (resolve_corner_wf world dx dy s c Hwf) as [s1 H1].
  rewrite H1. simpl. apply IH.
Qed.

Lemma resolve_corner_zero (world : World) (s : Sprite) (c : Z * Z) :
  wf_world world -> resolve_corner world 0 0 s c = Ok s.
Proof.
  intros Hwf. destruct c as [cx cy]. unfold resolve_corner.
  destruct (tile_in_world (cx / TILE_SIZE) (cy / TILE_SIZE)) eqn:Hin; [|reflexivity].
  destruct (world_get_wf _ _ _ Hwf Hin) as (tile & Hget & _).
  rewrite Hget. simpl. destruct (is_solid tile); [rewrite snap_zero|]; reflexivity.
Qed.

Lemma resolve_corners_zero (world : World) (s : Sprite) (cs : list (Z * Z)) :
  wf_world world -> resolve_corners world 0 0 s cs = Ok s.
Proof.
  intros Hwf. induction cs as [|c cs IH]; simpl; [reflexivity|].
  rewrite resolve_corner_zero by exact Hwf. simpl. exact IH.
Qed.

(** On any grid, well formed or not: if the pass returns at all, it returns
    the sprite it was given. *)
Lemma resolve_corner_zero_any (world : World) (s s' : Sprite) (c : Z * Z) :
  resolve_corner world 0 0 s c = Ok s' -> s' = s.
Proof.
  destruct c as [cx cy]. unfold resolve_corner.
  destruct (tile_in_world (cx / TILE_SIZE) (cy / TILE_SIZE)); [|congruence].
  destruct (world_get world (cy / TILE_SIZE) (cx / TILE_SIZE)) as [tile|e]; simpl;
    [|discriminate].
  destruct (is_solid tile); [rewrite snap_zero|]; congruence.
Qed.

Lemma resolve_corners_zero_any (world : World) (cs : list (Z * Z)) :
  forall s s', resolve_corners world 0 0 s cs = Ok s' -> s' = s.
Proof.
  induction cs as [|c cs IH]; intros s s' H; simpl in H; [congruence|].
  apply bind_Ok in H as (s1 & H1 & H).
  apply resolve_corner_zero_any in H1. subst s1. exact (IH _ _ H).
Qed.

Lemma keep_within_world_y (s : Sprite) :
  Rect.y (rect (keep_within_world s)) = Rect.y (rect s).
Proof.
  unfold keep_within_world.
  destruct (Rect.left (rect s) <? 0);
    match goal with |- context [if ?b then _ else _] => destruct b end;
    reflexivity.
Qed.

Lemma keep_within_world_inside (s : Sprite) :
  0 <= Rect.left (rect s) -> Rect.right (rect s) <= WORLD_WIDTH * TILE_SIZE ->
  keep_within_world s = s.
Proof.
  intros Hl Hr. unfold keep_within_world.
  apply Z.ltb_ge in Hl. rewrite Hl.
  apply Z.ltb_ge in Hr. rewrite Hr. reflexivity.
Qed.

(** The clamp puts a rectangle that fits, and is no wider than the world,
    inside the world's width, and the result fits. *)
Lemma keep_within_world_clamps (s : Sprite) :
  Rect.fits (rect s) -> Rect.w (rect s) <= WORLD_WIDTH * TILE_SIZE ->
  0 <= Rect.left (rect (keep_within_world s)) /\
  Rect.right (rect (keep_within_world s)) <= WORLD_WIDTH * TILE_SIZE /\
  Rect.fits (rect (keep_within_world s)).
Proof.
  unfold Rect.fits, keep_within_world, WORLD_WIDTH, TILE_SIZE.
  intros (Hx & Hy & Hw & Hh) Hwide.
  destruct (Rect.left (rect s) <? 0) eqn:Hl;
    [apply Z.ltb_lt in Hl | apply Z.ltb_ge in Hl];
    match goal with |- context [if ?b then _ else _] => destruct b eqn:Hr end;
    [apply Z.ltb_lt in Hr | apply Z.ltb_ge in Hr |
     apply Z.ltb_lt in Hr | apply Z.ltb_ge in Hr];
    simpl in *;
    unfold Rect.left, Rect.right, Rect.set_left, Rect.set_right, Rect.set_x in *;
    simpl in *; lia.
Qed.

(** C8, as stated, fails for an Enemy outside the world's horizontal
    bounds: with zero displacement its rectangle is moved from x = -16 to
    x = 0. *)
Lemma C8_enemy_counterexample :
  ~ (forall (world : World) (s s' : Sprite),
       Enemy._resolve_collisions world s 0 0 = Ok s' -> rect s' = rect s).
Proof.
  intros H.
  specialize (H air_world enemy_at_column_0
                (set_rect (Rect.mk 0 912 32 48) enemy_at_column_0)).
  assert (Hrun : Enemy._resolve_collisions air_world enemy_at_column_0 0 0 =
                 Ok (set_rect (Rect.mk 0 912 32 48) enemy_at_column_0))
    by (vm_compute; reflexivity).
  specialize (H Hrun). vm_compute in H. discriminate H.
Qed.

(** C8 (amended): with dx = 0 and dy = 0 collision resolution never changes
    the Player's position, wherever the body is.  For an Enemy or a Boss
    whose rectangle fits pygame's integer range it never changes the
    vertical position and changes the horizontal one only by the clamp into
    [0, WORLD_WIDTH * TILE_SIZE]: a rectangle already within those
    horizontal bounds keeps its position, and one outside them (no wider
    than the world) is put inside them.  This holds on every grid whenever
    the call returns, and on the game's grid it always returns. *)
Theorem C8_zero_displacement (world : World) (s : Sprite) :
  (forall s', Player._resolve_collisions world s 0 0 = Ok s' -> s' = s) /\
  (wf_world world -> Player._resolve_collisions world s 0 0 = Ok s) /\
  (Rect.fits (rect s) ->
   (forall s', Enemy._resolve_collisions world s 0 0 = Ok s' -> s' = keep_within_world s) /\
   (forall s', Boss._resolve_collisions world s 0 0 = Ok s' -> s' = keep_within_world s) /\
   (wf_world world ->
    Enemy._resolve_collisions world s 0 0 = Ok (keep_within_world s) /\
    Boss._resolve_collisions world s 0 0 = Ok (keep_within_world s)) /\
   Rect.y (rect (keep_within_world s)) = Rect.y (rect s) /\
   (0 <= Rect.left (rect s) -> Rect.right (rect s) <= WORLD_WIDTH * TILE_SIZE ->
    keep_within_world s = s) /\
   (Rect.w (rect s) <= WORLD_WIDTH * TILE_SIZE ->
    0 <= Rect.left (rect (keep_within_world s)) /\
    Rect.right (rect (keep_within_world s)) <= WORLD_WIDTH * TILE_SIZE /\
    Rect.fits (rect (keep_within_world s)))).
Proof.
  unfold Player._resolve_collisions, Enemy._resolve_collisions, Boss._resolve_collisions.
  split; [|split].
  - apply resolve_corners_zero_any.
  - intros Hwf. apply resolve_corners_zero. exact Hwf.
  - intros Hfits. split; [|split; [|split; [|split; [|split]]]].
    + intros s' H. apply bind_Ok in H as (s1 & H1 & H).
      apply resolve_corners_zero_any in H1. congruence.
    + intros s' H. apply bind_Ok in H as (s1 & H1 & H).
      apply resolve_corners_zero_any in H1. congruence.
    + intros Hwf. rewrite resolve_corners_zero by exact Hwf. simpl. auto.
    + apply keep_within_world_y.
    + apply keep_within_world_inside.
    + apply keep_within_world_clamps. exact Hfits.
Qed.

Ltac fits_by_computation :=
  unfold Rect.fits; vm_compute; repeat apply conj; first [reflexivity | discriminate].

Lemma enemy_at_column_0_fits : Rect.fits (rect enemy_at_column_0).
Proof. fits_by_computation. Qed.

Lemma C8_zero_displacement_witness :
  wf_world air_world /\
  Rect.fits (rect enemy_at_column_0) /\
  Player._resolve_collisions air_world enemy_at_column_0 0 0 = Ok enemy_at_column_0 /\
  Enemy._resolve_collisions air_world enemy_at_column_0 0 0 =
    Ok (keep_within_world enemy_at_column_0) /\
  Rect.x (rect (keep_within_world enemy_at_column_0)) = 0.
Proof.
  split; [exact air_world_wf|]. split; [exact enemy_at_column_0_fits|].
  split; [exact (proj1 (proj2 (C8_zero_displacement air_world enemy_at_column_0))
                   air_world_wf)|].
  split; [|reflexivity].
  exact (proj1 (proj1 (proj2 (proj2
           (proj2 (proj2 (C8_zero_displacement air_world enemy_at_column_0))
              enemy_at_column_0_fits))) air_world_wf)).
Defined.

Lemma resolve_corner_outside (world : World) (dx dy : float) (s : Sprite) (c : Z * Z) :
  corner_outside c -> resolve_corner world dx dy s c = Ok s.
Proof.
  destruct c as [cx cy]. unfold corner_outside, resolve_corner. simpl.
  intros Hout. rewrite Hout. reflexivity.
Qed.

Lemma resolve_corners_outside (world : World) (dx dy : float) (s : Sprite)
    (cs : list (Z * Z)) :
  Forall corner_outside cs -> resolve_corners world dx dy s cs = Ok s.
Proof.
  induction 1 as [|c cs Hc _ IH]; simpl; [reflexivity|].
  rewrite resolve_corner_outside by exact Hc. simpl. exact IH.
Qed.

Lemma resolve_corner_agree (world1 world2 : World) (dx dy : float) (s : Sprite)
    (c : Z * Z) :
  agree_in_world world1 world2 ->
  resolve_corner world2 dx dy s c = resolve_corner world1 dx dy s c.
Proof.
  intros Hag. destruct c as [cx cy]. unfold resolve_corner.
  destruct (tile_in_world (cx / TILE_SIZE) (cy / TILE_SIZE)) eqn:Hin; [|reflexivity].
  rewrite (Hag _ _ Hin). reflexivity.
Qed.

Lemma resolve_corners_agree (world1 world2 : World) (dx dy : float)
    (cs : list (Z * Z)) :
  agree_in_world world1 world2 ->
  forall s, resolve_corners world2 dx dy s cs = resolve_corners world1 dx dy s cs.
Proof.
  intros Hag. induction cs as [|c cs IH]; intros s; simpl; [reflexivity|].
  rewrite (resolve_corner_agree _ _ _ _ _ _ Hag).
  destruct (resolve_corner world1 dx dy s c); simpl; [apply IH | reflexivity].
Qed.

(** C9: on the game's grid collision resolution never raises, whatever the
    position of the body; its outcome depends on the grid only through the
    tiles at coordinates inside [0, WORLD_WIDTH) x [0, WORLD_HEIGHT); a
    corner whose tile coordinate is outside that range leaves the body as it
    is, and a body with all four corners outside is not moved at all. *)
Theorem C9_collision_stays_in_bounds (world : World) (s : Sprite) (dx dy : float)
    (Hwf : wf_world world) :
  (is_ok (Player._resolve_collisions world s dx dy) = true /\
   is_ok (Enemy._resolve_collisions world s dx dy) = true /\
   is_ok (Boss._resolve_collisions world s dx dy) = true) /\
  (forall world2, agree_in_world world world2 ->
     Player._resolve_collisions world2 s dx dy = Player._resolve_collisions world s dx dy /\
     Enemy._resolve_collisions world2 s dx dy = Enemy._resolve_collisions world s dx dy /\
     Boss._resolve_collisions world2 s dx dy = Boss._resolve_collisions world s dx dy) /\
  (forall corner, corner_outside corner -> resolve_corner world dx dy s corner = Ok s) /\
  (Forall corner_outside (corners (rect s)) ->
     Player._resolve_collisions world s dx dy = Ok s /\
     Enemy._resolve_collisions world s dx dy = Ok (keep_within_world s) /\
     Boss._resolve_collisions world s dx dy = Ok (keep_within_world s)).
Proof.
  unfold Player._resolve_collisions, Enemy._resolve_collisions, Boss._resolve_collisions.
  split; [|split; [|split]].
  - destruct (resolve_corners_wf world dx dy (corners (rect s)) Hwf s) as [s' Hs'].
    rewrite Hs'. simpl. auto.
  - intros world2 Hag.
    rewrite (resolve_corners_agree _ _ _ _ _ Hag). auto.
  - intros corner Hout. apply resolve_corner_outside. exact Hout.
  - intros Hall. rewrite resolve_corners_outside by exact Hall. simpl. auto.
Qed.

Lemma C9_collision_stays_in_bounds_witness :
  wf_world air_world /\
  is_ok (Player._resolve_collisions air_world sprite_outside_world 4 0) = true.
Proof.
  split; [exact air_world_wf|].
  exact (proj1 (proj1 (C9_collision_stays_in_bounds air_world sprite_outside_world
                         4%float 0%float air_world_wf))).
Defined.

(** *** Landing *)

Lemma snap_down (dy : float) (tile_x tile_y : Z) (s : Sprite) :
  (0 <? dy)%float = true -> snap 0 dy tile_x tile_y s = landed tile_y s.
Proof.
  intros Hdy. unfold snap. rewrite Hdy. reflexivity.
Qed.

Lemma landed_landed (t1 t2 : Z) (s : Sprite) :
  landed t2 (landed t1 s) = landed t2 s.
Proof. reflexivity. Qed.

Lemma landed_grounded (tile_y : Z) (s : Sprite) :
  grounded_on tile_y (landed tile_y s).
Proof.
  unfold grounded_on, landed, Rect.bottom. simpl. repeat split. lia.
Qed.

Lemma keep_within_world_grounded (tile_y : Z) (s : Sprite) :
  grounded_on tile_y s -> grounded_on tile_y (keep_within_world s).
Proof.
  unfold grounded_on, keep_within_world, Rect.bottom.
  destruct (Rect.left (rect s) <? 0);
    match goal with |- context [if ?b then _ else _] => destruct b end;
    simpl; tauto.
Qed.

Lemma cool_down_grounded (tile_y : Z) (s : Sprite) :
  grounded_on tile_y s -> grounded_on tile_y (cool_down s).
Proof.
  unfold grounded_on, cool_down.
  destruct (0 <? hurt_cooldown s); simpl; tauto.
Qed.

(** The vertical pass of a downward move on the game's grid. *)
Section DownwardPass.

Variable world : World.
Hypothesis Hwf : wf_world world.
Variable dy : float.
Hypothesis Hdy : (0 <? dy)%float = true.

Lemma resolve_corner_down (s : Sprite) (c : Z * Z) :
  resolve_corner world 0 dy s c =
  Ok (if corner_hits world c then landed (snd c / TILE_SIZE) s else s).
Proof.
  destruct c as [cx cy]. unfold resolve_corner, corner_hits. simpl.
  destruct (tile_in_world (cx / TILE_SIZE) (cy / TILE_SIZE)) eqn:Hin; [|reflexivity].
  destruct (world_get_wf _ _ _ Hwf Hin) as (tile & Hget & Hat).
  rewrite Hget, Hat. simpl.
  destruct (is_solid tile); [rewrite snap_down by exact Hdy|]; reflexivity.
Qed.

Lemma resolve_corners_down (cs : list (Z * Z)) :
  forall s,
    resolve_corners world 0 dy s cs =
    Ok (match last (filter (fun c => corner_hits world c = true) cs) with
        | Some c => landed (snd c / TILE_SIZE) s
        | None => s
        end).
Proof.
  induction cs as [|c cs IH]; intros s; [reflexivity|].
  cbn [resolve_corners]. rewrite resolve_corner_down. simpl.
  rewrite IH, filter_cons.
  destruct (corner_hits world c) eqn:Hc.
  - rewrite decide_True by reflexivity. rewrite last_cons.
    destruct (last (filter _ cs)); [rewrite landed_landed|]; reflexivity.
  - rewrite decide_False by discriminate. reflexivity.
Qed.

Lemma player_resolve_down (s : Sprite) (c : Z * Z) :
  last_hit world (rect s) = Some c ->
  Player._resolve_collisions world s 0 dy = Ok (landed (snd c / TILE_SIZE) s).
Proof.
  intros Hhit. unfold Player._resolve_collisions.
  rewrite resolve_corners_down.
  unfold last_hit in Hhit. rewrite Hhit. reflexivity.
Qed.

Lemma enemy_resolve_down (s : Sprite) (c : Z * Z) :
  last_hit world (rect s) = Some c ->
  Enemy._resolve_collisions world s 0 dy =
  Ok (keep_within_world (landed (snd c / TILE_SIZE) s)).
Proof.
  intros Hhit. unfold Enemy._resolve_collisions.
  rewrite resolve_corners_down.
  unfold last_hit in Hhit. rewrite Hhit. reflexivity.
Qed.

End DownwardPass.

(** The vertical pass and the rest of the tick, for a resolver that lands
    the sprite. *)
Lemma move_vertical_lands
    (resolve : World -> Sprite -> float -> float -> result Sprite)
    (world : World) (s : Sprite) (iy : Z) (c : Z * Z) :
  (forall s0 dy, (0 <? dy)%float = true -> last_hit world (rect s0) = Some c ->
     exists s', resolve world s0 0%float dy = Ok s' /\
                grounded_on (snd c / TILE_SIZE) s') ->
  int_of_float (vel_y s) = Ok iy ->
  (0 <? vel_y s)%float = true ->
  last_hit world (rect (displace_vertical iy s)) = Some c ->
  exists s', move_vertical resolve world s = Ok s' /\
             grounded_on (snd c / TILE_SIZE) s'.
Proof.
  intros Hres Hint Hdy Hhit. unfold move_vertical. rewrite Hint. simpl.
  apply Hres; assumption.
Qed.

Lemma move_and_collide_lands
    (resolve : World -> Sprite -> float -> float -> result Sprite)
    (world : World) (s s1 : Sprite) (iy : Z) (c : Z * Z) :
  (forall s0 dy, (0 <? dy)%float = true -> last_hit world (rect s0) = Some c ->
     exists s', resolve world s0 0%float dy = Ok s' /\
                grounded_on (snd c / TILE_SIZE) s') ->
  move_horizontal resolve world s = Ok s1 ->
  int_of_float (vel_y s1) = Ok iy ->
  (0 <? vel_y s1)%float = true ->
  last_hit world (rect (displace_vertical iy s1)) = Some c ->
  exists s', move_and_collide resolve world s = Ok s' /\
             grounded_on (snd c / TILE_SIZE) s'.
Proof.
  intros Hres Hh Hint Hdy Hhit. unfold move_and_collide. rewrite Hh. simpl.
  destruct (move_vertical_lands resolve world s1 iy c Hres Hint Hdy Hhit)
    as (s2 & Hv & Hg).
  rewrite Hv. simpl. eexists. split; [reflexivity|].
  apply cool_down_grounded. exact Hg.
Qed.

Lemma player_resolver_lands (world : World) (c : Z * Z) :
  wf_world world ->
  forall s0 dy, (0 <? dy)%float = true -> last_hit world (rect s0) = Some c ->
    exists s', Player._resolve_collisions world s0 0%float dy = Ok s' /\
               grounded_on (snd c / TILE_SIZE) s'.
Proof.
  intros Hwf s0 dy Hdy Hhit. eexists. split.
  - apply (player_resolve_down world Hwf dy Hdy s0 c Hhit).
  - apply landed_grounded.
Qed.

Lemma enemy_resolver_lands (world : World) (c : Z * Z) :
  wf_world world ->
  forall s0 dy, (0 <? dy)%float = true -> last_hit world (rect s0) = Some c ->
    exists s', Enemy._resolve_collisions world s0 0%float dy = Ok s' /\
               grounded_on (snd c / TILE_SIZE) s'.
Proof.
  intros Hwf s0 dy Hdy Hhit. eexists. split.
  - apply (enemy_resolve_down world Hwf dy Hdy s0 c Hhit).
  - apply keep_within_world_grounded, landed_grounded.
Qed.

(** C7: when the vertical pass of a tick moves a body down ([dy > 0]) and
    one of the sampled corners lies in a solid tile, the tick ends with the
    body on the ground, its vertical velocity 0 and its bottom edge exactly
    on the top edge [tile_y * TILE_SIZE] of the colliding tile (the tile of
    the last solid corner in sampling order).  This holds for the Player,
    for an Enemy and for the Boss. *)
Theorem C7_landing (world : World) (Hwf : wf_world world) :
  (forall (p : Player.t) (s1 : Sprite) (iy : Z) (c : Z * Z),
     move_horizontal Player._resolve_collisions world (Player.body p) = Ok s1 ->
     int_of_float (vel_y s1) = Ok iy ->
     (0 <? vel_y s1)%float = true ->
     last_hit world (rect (displace_vertical iy s1)) = Some c ->
     exists p', Player.update world p = Ok p' /\
                grounded_on (snd c / TILE_SIZE) (Player.body p')) /\
  (forall (player : Player.t) (e : Sprite) (g : Rng) (s1 : Sprite) (iy : Z) (c : Z * Z),
     move_horizontal Enemy._resolve_collisions world (fst (Enemy.chase player e g)) = Ok s1 ->
     int_of_float (vel_y s1) = Ok iy ->
     (0 <? vel_y s1)%float = true ->
     last_hit world (rect (displace_vertical iy s1)) = Some c ->
     exists e', Enemy.update world player e g = Ok (e', snd (Enemy.chase player e g)) /\
                grounded_on (snd c / TILE_SIZE) e') /\
  (forall (player : Player.t) (b : Sprite) (g : Rng) (s1 : Sprite) (iy : Z) (c : Z * Z),
     move_horizontal Boss._resolve_collisions world (fst (Boss.chase player b g)) = Ok s1 ->
     int_of_float (vel_y s1) = Ok iy ->
     (0 <? vel_y s1)%float = true ->
     last_hit world (rect (displace_vertical iy s1)) = Some c ->
     exists b', Boss.update world player b g = Ok (b', snd (Boss.chase player b g)) /\
                grounded_on (snd c / TILE_SIZE) b').
Proof.
  split; [|split].
  - intros p s1 iy c Hh Hint Hdy Hhit.
    destruct (move_and_collide_lands _ world _ s1 iy c
                (player_resolver_lands world c Hwf) Hh Hint Hdy Hhit) as (s' & Hm & Hg).
    exists (Player.set_body s' p). unfold Player.update. rewrite Hm. simpl. auto.
  - intros player e g s1 iy c Hh Hint Hdy Hhit.
    destruct (move_and_collide_lands _ world _ s1 iy c
                (enemy_resolver_lands world c Hwf) Hh Hint Hdy Hhit) as (s' & Hm & Hg).
    exists s'. unfold Enemy.update.
    destruct (Enemy.chase player e g) as [e0 g0]. simpl in *. rewrite Hm. simpl. auto.
  - intros player b g s1 iy c Hh Hint Hdy Hhit.
    destruct (move_and_collide_lands _ world _ s1 iy c
                (enemy_resolver_lands world c Hwf) Hh Hint Hdy Hhit) as (s' & Hm & Hg).
    exists s'. unfold Boss.update.
    destruct (Boss.chase player b g) as [b0 g0]. simpl in *.
    change (move_and_collide Boss._resolve_collisions world b0)
      with (move_and_collide Enemy._resolve_collisions world b0).
    rewrite Hm. simpl. auto.
Qed.

Lemma flat_world_wf : wf_world flat_world.
Proof.
  split; [reflexivity|].
  apply Forall_app. split; apply Forall_replicate; reflexivity.
Qed.

Lemma C7_landing_witness :
  wf_world flat_world /\
  exists p', Player.update flat_world falling_player = Ok p' /\
             grounded_on 30 (Player.body p').
Proof.
  split; [exact flat_world_wf|].
  change 30 with (snd (175, 962) / TILE_SIZE).
  eapply (proj1 (C7_landing flat_world flat_world_wf) falling_player _ 5 (175, 962)).
  - vm_compute. reflexivity.
  - vm_compute. reflexivity.
  - vm_compute. reflexivity.
  - vm_compute. reflexivity.
Defined.

(* ===================================================================== *)
(** ** Contact damage                                                     *)
(* ===================================================================== *)

Lemma enemy_contact_rect (enemy_rect : Rect.t) (player : Player.t) :
  rect (Player.body (enemy_contact enemy_rect player)) = rect (Player.body player).
Proof.
  unfold enemy_contact.
  destruct (Rect.colliderect _ _); [|reflexivity].
  destruct (hurt_cooldown _ =? 0); [|reflexivity]. simpl.
  destruct (Rect.centerx enemy_rect <? _); reflexivity.
Qed.

Lemma enemy_contact_hit (enemy_rect : Rect.t) (player : Player.t) :
  Rect.colliderect enemy_rect (rect (Player.body player)) = true ->
  hurt_cooldown (Player.body player) = 0 ->
  let s := Player.body player in
  let s' := Player.body (enemy_contact enemy_rect player) in
  health s' = health s - 10 /\
  hurt_cooldown s' = 60 /\
  vel_x s' = if Rect.centerx enemy_rect <? Rect.centerx (rect s)
             then (vel_x s + 2)%float else (vel_x s - 2)%float.
Proof.
  intros Hov Hcd. unfold enemy_contact. rewrite Hov, Hcd. simpl.
  destruct (Rect.centerx enemy_rect <? _); simpl; auto.
Qed.

Lemma enemy_contact_gated (enemy_rect : Rect.t) (player : Player.t) :
  hurt_cooldown (Player.body player) <> 0 ->
  enemy_contact enemy_rect player = player.
Proof.
  intros Hcd. unfold enemy_contact.
  destruct (Rect.colliderect _ _); [|reflexivity].
  apply Z.eqb_neq in Hcd. rewrite Hcd. reflexivity.
Qed.

Lemma enemy_contact_miss (enemy_rect : Rect.t) (player : Player.t) :
  Rect.colliderect enemy_rect (rect (Player.body player)) = false ->
  enemy_contact enemy_rect player = player.
Proof.
  intros Hov. unfold enemy_contact. rewrite Hov. reflexivity.
Qed.

(** An enemy's update looks at the player's rectangle only. *)
Lemma enemy_update_player_rect (world : World) (p1 p2 : Player.t) (e : Sprite) (g : Rng) :
  rect (Player.body p1) = rect (Player.body p2) ->
  Enemy.update world p1 e g = Enemy.update world p2 e g.
Proof.
  intros H. unfold Enemy.update, Enemy.chase. rewrite H. reflexivity.
Qed.

Lemma enemy_touches_player_rect (world : World) (p1 p2 : Player.t)
    (es : list Sprite) (g : Rng) :
  rect (Player.body p1) = rect (Player.body p2) ->
  enemy_touches world p1 es g -> enemy_touches world p2 es g.
Proof.
  intros H Ht. induction Ht as [e es g e' g' Hu Hov | e es g e' g' Hu _ IH].
  - eapply touches_here.
    + rewrite <- (enemy_update_player_rect world p1 p2 e g H). exact Hu.
    + rewrite <- H. exact Hov.
  - eapply touches_later; [|exact IH].
    rewrite <- (enemy_update_player_rect world p1 p2 e g H). exact Hu.
Qed.

Lemma update_enemies_cons (world : World) (e : Sprite) (es rest : list Sprite)
    (player player' : Player.t) (g g' : Rng) :
  update_enemies world (e :: es) player g = Ok (rest, player', g') ->
  exists e1 g1 rest1,
    Enemy.update world player e g = Ok (e1, g1) /\
    update_enemies world es (enemy_contact (rect e1) player) g1 = Ok (rest1, player', g').
Proof.
  cbn [update_enemies]. intros H.
  apply bind_Ok in H as ([e1 g1] & Hu & H).
  apply bind_Ok in H as ([[rest1 p1] g2] & Hrest & H).
  inversion H; subst. eauto.
Qed.

(** While the cooldown runs, the whole enemy loop leaves the player as it
    is. *)
Lemma update_enemies_gated (world : World) (es : list Sprite) :
  forall (player : Player.t) (g : Rng) rest player' g',
    hurt_cooldown (Player.body player) <> 0 ->
    update_enemies world es player g = Ok (rest, player', g') ->
    player' = player.
Proof.
  induction es as [|e es IH]; intros player g rest player' g' Hcd H.
  - inversion H. reflexivity.
  - apply update_enemies_cons in H as (e1 & g1 & rest1 & _ & H).
    rewrite enemy_contact_gated in H by exact Hcd.
    exact (IH _ _ _ _ _ Hcd H).
Qed.

(** With the cooldown at 0, the enemy loop takes 10 health exactly when
    some updated enemy overlaps the player, however many do. *)
Lemma update_enemies_hit (world : World) (es : list Sprite) :
  forall (player : Player.t) (g : Rng) rest player' g',
    hurt_cooldown (Player.body player) = 0 ->
    update_enemies world es player g = Ok (rest, player', g') ->
    (enemy_touches world player es g ->
     health (Player.body player') = health (Player.body player) - 10 /\
     hurt_cooldown (Player.body player') = 60 /\
     (vel_x (Player.body player') = (vel_x (Player.body player) + 2)%float \/
      vel_x (Player.body player') = (vel_x (Player.body player) - 2)%float)) /\
    (~ enemy_touches world player es g -> player' = player).
Proof.
  induction es as [|e es IH]; intros player g rest player' g' Hcd H.
  - inversion H; subst. split; [|reflexivity]. intros Ht. inversion Ht.
  - apply update_enemies_cons in H as (e1 & g1 & rest1 & Hu & H).
    destruct (Rect.colliderect (rect e1) (rect (Player.body player))) eqn:Hov.
    + destruct (enemy_contact_hit _ _ Hov Hcd) as (Hh & Hc & Hv).
      assert (Hne : hurt_cooldown (Player.body (enemy_contact (rect e1) player)) <> 0)
        by (rewrite Hc; discriminate).
      rewrite (update_enemies_gated _ _ _ _ _ _ _ Hne H).
      split.
      { intros _. split; [exact Hh|]. split; [exact Hc|].
        rewrite Hv. destruct (Rect.centerx (rect e1) <? _); auto. }
      intros Hno. exfalso. apply Hno. eapply touches_here; eassumption.
    + rewrite enemy_contact_miss in H by exact Hov.
      destruct (IH _ _ _ _ _ Hcd H) as [IHhit IHmiss].
      split.
      * intros Ht. apply IHhit.
        inversion Ht as [? ? ? e2 g2 Hu2 Hov2 | ? ? ? e2 g2 Hu2 Ht2]; subst;
          rewrite Hu in Hu2; inversion Hu2; subst; [congruence | exact Ht2].
      * intros Hno. apply IHmiss. intros Ht. apply Hno.
        eapply touches_later; eassumption.
Qed.

(** C10: contact damage is gated by the hurt cooldown.  When an enemy's
    rectangle overlaps the player's and the cooldown is 0 at the contact
    check, the player loses exactly 10 health, the cooldown becomes 60 and
    the horizontal velocity changes by 2 away from the enemy; when the
    cooldown is above 0 the overlap changes nothing.  Over the whole enemy
    loop of a frame: with the cooldown above 0 the health is unchanged, and
    with the cooldown at 0 the health drops by exactly 10, the cooldown
    becomes 60 and the velocity changes by 2 once, as soon as some enemy
    overlaps, however many do. *)
Theorem C10_contact_damage (player : Player.t) :
  (forall enemy_rect,
     Rect.colliderect enemy_rect (rect (Player.body player)) = true ->
     hurt_cooldown (Player.body player) = 0 ->
     let s := Player.body player in
     let s' := Player.body (enemy_contact enemy_rect player) in
     health s' = health s - 10 /\
     hurt_cooldown s' = 60 /\
     vel_x s' = if Rect.centerx enemy_rect <? Rect.centerx (rect s)
                then (vel_x s + 2)%float else (vel_x s - 2)%float) /\
  (forall enemy_rect,
     0 < hurt_cooldown (Player.body player) ->
     health (Player.body (enemy_contact enemy_rect player)) = health (Player.body player)) /\
  (forall world es g rest player' g',
     update_enemies world es player g = Ok (rest, player', g') ->
     (0 < hurt_cooldown (Player.body player) ->
      health (Player.body player') = health (Player.body player)) /\
     (hurt_cooldown (Player.body player) = 0 ->
      enemy_touches world player es g ->
      health (Player.body player') = health (Player.body player) - 10 /\
      hurt_cooldown (Player.body player') = 60 /\
      (vel_x (Player.body player') = (vel_x (Player.body player) + 2)%float \/
       vel_x (Player.body player') = (vel_x (Player.body player) - 2)%float))).
Proof.
  split; [|split].
  - intros enemy_rect Hov Hcd. apply enemy_contact_hit; assumption.
  - intros enemy_rect Hcd. rewrite enemy_contact_gated by lia. reflexivity.
  - intros world es g rest player' g' H. split.
    + intros Hcd.
      assert (Hne : hurt_cooldown (Player.body player) <> 0) by lia.
      rewrite (update_enemies_gated _ _ _ _ _ _ _ Hne H). reflexivity.
    + intros Hcd Ht. exact (proj1 (update_enemies_hit _ _ _ _ _ _ _ Hcd H) Ht).
Qed.

(* ===================================================================== *)
(** ** Mining and placing                                                 *)
(* ===================================================================== *)

Lemma inventory_add_Some (key : string) (n c : Z) (inv : gmap string Z) :
  inv !! key = Some c -> Player.inventory_add key n inv = Ok (<[key := c + n]> inv).
Proof.
  intros H. unfold Player.inventory_add. rewrite H. reflexivity.
Qed.

Lemma mined_resource_Some (tile : Z) (inv : gmap string Z) :
  1 <= tile <= 5 -> inventory_ok inv ->
  exists key count, mined_resource tile = Some key /\ inv !! key = Some count.
Proof.
  intros Ht (Hd & Hs & Ho & Hw).
  assert (Hc : tile = 1 \/ tile = 2 \/ tile = 3 \/ tile = 4 \/ tile = 5) by lia.
  destruct Hc as [->|[->|[->|[->| ->]]]]; simpl.
  - destruct Hd as [c Hc]. eauto.
  - destruct Hd as [c Hc]. eauto.
  - destruct Hs as [c Hc]. eauto.
  - destruct Ho as [c Hc]. eauto.
  - destruct Hw as [c Hc]. eauto.
Qed.

(** The inventory update of [mine_block], tile by tile. *)
Lemma mine_block_inventory (tile : Z) (key : string) (c : Z) (inv : gmap string Z) :
  mined_resource tile = Some key -> inv !! key = Some c ->
  (if tile =? 1 then Player.inventory_add "dirt" 1 inv
   else if tile =? 2 then Player.inventory_add "dirt" 1 inv
   else if tile =? 3 then Player.inventory_add "stone" 1 inv
   else if tile =? 4 then Player.inventory_add "ore" 1 inv
   else if tile =? 5 then Player.inventory_add "wood" 1 inv
   else Ok inv) = Ok (<[key := c + 1]> inv).
Proof.
  unfold mined_resource. intros Hk Hc.
  repeat (match goal with
          | H : context [if ?b then _ else _] |- _ => destruct b
          end);
    inversion Hk; subst; apply inventory_add_Some; exact Hc.
Qed.

(** The grid update of [place_block], resource by resource. *)
Lemma place_block_tile (world : World) (key : string) (x y tile_id : Z) :
  placed_tile key = Some tile_id ->
  (if String.eqb key "dirt" then world_set world y x 1
   else if String.eqb key "stone" then world_set world y x 3
   else if String.eqb key "ore" then world_set world y x 4
   else if String.eqb key "wood" then world_set world y x 5
   else Ok world) = world_set world y x tile_id.
Proof.
  unfold placed_tile. intros Hk.
  repeat (match goal with
          | H : context [if ?b then _ else _] |- _ => destruct b
          end);
    inversion Hk; subst; reflexivity.
Qed.

Lemma mine_block_unfold (world : World) (camera mouse_pos : Z * Z) (p : Player.t) :
  Player.mine_block world camera mouse_pos p =
  let world_x := target_x camera mouse_pos in
  let world_y := target_y camera mouse_pos in
  if (4 <? Z.abs (world_x - player_tile_x p)) || (4 <? Z.abs (world_y - player_tile_y p))
  then Ok (world, p)
  else if tile_in_world world_x world_y then
    tile ← world_get world world_y world_x;
    if negb (tile =? 0) && (world_y <? WORLD_HEIGHT - 1) then
      inv ← (if tile =? 1 then Player.inventory_add "dirt" 1 (Player.inventory p)
             else if tile =? 2 then Player.inventory_add "dirt" 1 (Player.inventory p)
             else if tile =? 3 then Player.inventory_add "stone" 1 (Player.inventory p)
             else if tile =? 4 then Player.inventory_add "ore" 1 (Player.inventory p)
             else if tile =? 5 then Player.inventory_add "wood" 1 (Player.inventory p)
             else Ok (Player.inventory p));
      world' ← world_set world world_y world_x 0;
      Ok (world', Player.set_inventory inv p)
    else Ok (world, p)
  else Ok (world, p).
Proof.
  destruct mouse_pos as [mx my]. reflexivity.
Qed.

(** C4: [mine_block] returns without raising and without touching the grid
    or the player when the target tile is more than 4 tiles from the
    player's tile in either axis, or outside the grid, or air, or in the
    last row.  Otherwise it adds 1 to the count of exactly one resource
    (dirt for a dirt or grass tile, stone, ore or wood for the others) and
    sets exactly the target tile to air: in the player it returns the count
    of that resource reads one more than before, every other key of the
    inventory reads as before, and body and selection are untouched. *)
Theorem C4_mine_block (world : World) (camera mouse_pos : Z * Z) (p : Player.t)
    (Hwf : wf_world world) (Hinv : inventory_ok (Player.inventory p)) :
  let world_x := target_x camera mouse_pos in
  let world_y := target_y camera mouse_pos in
  (4 < Z.abs (world_x - player_tile_x p) \/
   4 < Z.abs (world_y - player_tile_y p) \/
   tile_in_world world_x world_y = false \/
   tile_at world world_x world_y = Some 0 \/
   world_y = WORLD_HEIGHT - 1 ->
   Player.mine_block world camera mouse_pos p = Ok (world, p)) /\
  (forall tile,
     Z.abs (world_x - player_tile_x p) <= 4 ->
     Z.abs (world_y - player_tile_y p) <= 4 ->
     tile_in_world world_x world_y = true ->
     tile_at world world_x world_y = Some tile ->
     1 <= tile <= 5 ->
     world_y < WORLD_HEIGHT - 1 ->
     exists world' p' key count,
       Player.mine_block world camera mouse_pos p = Ok (world', p') /\
       p' = Player.set_inventory (<[key := count + 1]> (Player.inventory p)) p /\
       mined_resource tile = Some key /\
       Player.inventory p !! key = Some count /\
       Player.inventory p' !! key = Some (count + 1) /\
       (forall k, k <> key -> Player.inventory p' !! k = Player.inventory p !! k) /\
       Player.body p' = Player.body p /\
       Player.selected p' = Player.selected p /\
       only_tile_changed world world' world_x world_y 0 /\
       wf_world world').
Proof.
  intros world_x world_y. rewrite mine_block_unfold. cbv zeta.
  fold world_x world_y.
  destruct ((4 <? Z.abs (world_x - player_tile_x p))
            || (4 <? Z.abs (world_y - player_tile_y p))) eqn:Hfar.
  { split; [reflexivity|].
    intros tile H1 H2. apply orb_true_iff in Hfar as [H|H]; apply Z.ltb_lt in H; lia. }
  apply orb_false_iff in Hfar as [Hfx Hfy].
  apply Z.ltb_ge in Hfx. apply Z.ltb_ge in Hfy.
  destruct (tile_in_world world_x world_y) eqn:Hin.
  2:{ split; [reflexivity|]. intros tile _ _ H. discriminate H. }
  destruct (world_get_wf _ _ _ Hwf Hin) as (tile & Hget & Hat).
  rewrite Hget. simpl.
  destruct (negb (tile =? 0) && (world_y <? WORLD_HEIGHT - 1)) eqn:Hc.
  - apply andb_true_iff in Hc as [Hsolid Hrow].
    apply negb_true_iff, Z.eqb_neq in Hsolid. apply Z.ltb_lt in Hrow.
    split.
    + intros [H|[H|[H|[H|H]]]]; try lia; congruence.
    + intros tile' _ _ _ Hat' Htile _.
      assert (tile' = tile) by congruence. subst tile'.
      destruct (mined_resource_Some tile _ Htile Hinv) as (key & count & Hkey & Hcount).
      rewrite (mine_block_inventory tile key count _ Hkey Hcount). simpl.
      apply tile_in_world_spec in Hin as [Hx Hy].
      destruct (world_set_in_range world _ _ world_x world_y 0 Hwf Hx Hy)
        as (world' & Hset & Hwf' & Hchg).
      rewrite Hset. simpl.
      exists world', (Player.set_inventory (<[key := count + 1]> (Player.inventory p)) p),
        key, count.
      split; [reflexivity|]. split; [reflexivity|].
      split; [exact Hkey|]. split; [exact Hcount|].
      split; [apply lookup_insert_eq|].
      split; [intros k Hk; apply lookup_insert_ne; congruence|].
      split; [reflexivity|]. split; [reflexivity|].
      split; [exact Hchg | exact Hwf'].
  - split; [reflexivity|].
    intros tile' _ _ _ Hat' Htile Hrow.
    assert (tile' = tile) by congruence. subst tile'.
    apply andb_false_iff in Hc as [Hc|Hc].
    + apply negb_false_iff, Z.eqb_eq in Hc. lia.
    + apply Z.ltb_ge in Hc. lia.
Qed.

Lemma world_set_row (world : World) (row : list Z) (x y v : Z) :
  0 <= y -> world !! Z.to_nat y = Some row -> 0 <= x < Z.of_nat (length row) ->
  world_set world y x v = Ok (<[Z.to_nat y := <[Z.to_nat x := v]> row]> world).
Proof.
  intros Hy Hrow Hx. unfold world_set.
  rewrite (getitem_in_range _ _ row Hy Hrow). simpl.
  rewrite setitem_in_range by exact Hx. simpl.
  apply setitem_in_range. apply lookup_lt_Some in Hrow. lia.
Qed.

Lemma place_block_unfold (world : World) (camera mouse_pos : Z * Z) (p : Player.t) :
  Player.place_block world camera mouse_pos p =
  let world_x := target_x camera mouse_pos in
  let world_y := target_y camera mouse_pos in
  if default 0 (Player.inventory p !! Player.selected p) <=? 0 then Ok (world, p)
  else if tile_in_world world_x world_y then
    tile ← world_get world world_y world_x;
    if tile =? 0 then
      if negb (Rect.colliderect (rect (Player.body p)) (tile_rect world_x world_y)) then
        world' ← (if String.eqb (Player.selected p) "dirt" then world_set world world_y world_x 1
                  else if String.eqb (Player.selected p) "stone" then world_set world world_y world_x 3
                  else if String.eqb (Player.selected p) "ore" then world_set world world_y world_x 4
                  else if String.eqb (Player.selected p) "wood" then world_set world world_y world_x 5
                  else Ok world);
        inv ← Player.inventory_add (Player.selected p) (-1) (Player.inventory p);
        Ok (world', Player.set_inventory inv p)
      else Ok (world, p)
    else Ok (world, p)
  else Ok (world, p).
Proof.
  destruct mouse_pos as [mx my]. reflexivity.
Qed.

(** C5: [place_block] returns without raising and without touching the grid
    or the player when the count of the selected resource is 0 (or less),
    or the target tile is outside the grid, or not air, or its rectangle
    overlaps the player's.  Otherwise it writes the tile id of the selected
    resource at the target tile, and only there, and takes exactly 1 from
    the count of that resource: in the player it returns the count of the
    selected resource reads one less than before, every other key of the
    inventory reads as before, and body and selection are untouched. *)
Theorem C5_place_block (world : World) (camera mouse_pos : Z * Z) (p : Player.t)
    (Hwf : wf_world world) :
  let world_x := target_x camera mouse_pos in
  let world_y := target_y camera mouse_pos in
  (default 0 (Player.inventory p !! Player.selected p) <= 0 \/
   tile_in_world world_x world_y = false \/
   (exists tile, tile_at world world_x world_y = Some tile /\ tile <> 0) \/
   Rect.colliderect (rect (Player.body p)) (tile_rect world_x world_y) = true ->
   Player.place_block world camera mouse_pos p = Ok (world, p)) /\
  (forall count tile_id,
     Player.inventory p !! Player.selected p = Some count ->
     0 < count ->
     tile_in_world world_x world_y = true ->
     tile_at world world_x world_y = Some 0 ->
     Rect.colliderect (rect (Player.body p)) (tile_rect world_x world_y) = false ->
     placed_tile (Player.selected p) = Some tile_id ->
     exists world' p',
       Player.place_block world camera mouse_pos p = Ok (world', p') /\
       p' = Player.set_inventory
              (<[Player.selected p := count - 1]> (Player.inventory p)) p /\
       Player.inventory p' !! Player.selected p = Some (count - 1) /\
       (forall k, k <> Player.selected p ->
          Player.inventory p' !! k = Player.inventory p !! k) /\
       Player.body p' = Player.body p /\
       Player.selected p' = Player.selected p /\
       only_tile_changed world world' world_x world_y tile_id /\
       wf_world world').
Proof.
  intros world_x world_y. rewrite place_block_unfold. cbv zeta.
  fold world_x world_y.
  destruct (default 0 (Player.inventory p !! Player.selected p) <=? 0) eqn:Hcount.
  { split; [reflexivity|]. intros count tile_id Hc Hpos.
    rewrite Hc in Hcount. simpl in Hcount. apply Z.leb_le in Hcount. lia. }
  apply Z.leb_gt in Hcount.
  destruct (tile_in_world world_x world_y) eqn:Hin.
  2:{ split; [reflexivity|]. intros count tile_id _ _ H. discriminate H. }
  destruct (world_get_wf _ _ _ Hwf Hin) as (tile & Hget & Hat).
  rewrite Hget. simpl.
  destruct (tile =? 0) eqn:Hair.
  2:{ split; [reflexivity|]. intros count tile_id _ _ _ Hat'.
      apply Z.eqb_neq in Hair. congruence. }
  apply Z.eqb_eq in Hair. subst tile.
  destruct (Rect.colliderect (rect (Player.body p)) (tile_rect world_x world_y)) eqn:Hov.
  { split; [reflexivity|]. intros count tile_id _ _ _ _ H. discriminate H. }
  simpl. split.
  - intros [H|[H|[(tile & Ht & Hne)|H]]]; try lia; congruence.
  - intros count tile_id Hc Hpos _ _ _ Htile.
    rewrite (place_block_tile _ _ _ _ _ Htile).
    apply tile_in_world_spec in Hin as [Hx Hy].
    destruct (world_set_in_range world _ _ world_x world_y tile_id Hwf Hx Hy)
      as (world' & Hset & Hwf' & Hchg).
    rewrite Hset. simpl.
    rewrite (inventory_add_Some _ _ count) by exact Hc. simpl.
    exists world',
      (Player.set_inventory (<[Player.selected p := count - 1]> (Player.inventory p)) p).
    split; [reflexivity|]. split; [reflexivity|].
    split; [apply lookup_insert_eq|].
    split; [intros k Hk; apply lookup_insert_ne; congruence|].
    split; [reflexivity|]. split; [reflexivity|].
    split; [exact Hchg | exact Hwf'].
Qed.

(** C6: mining a stone tile and then placing stone, with stone selected, at
    the same coordinate puts the grid and the player back exactly as they
    were: the tile is stone again and every inventory count is the one
    before the mine. *)
Theorem C6_mine_then_place (world : World) (camera mouse_pos camera2 mouse_pos2 : Z * Z)
    (p : Player.t) (count : Z)
    (Hcount : Player.inventory p !! "stone" = Some count)
    (Hnonneg : 0 <= count)
    (Hsel : Player.selected p = "stone")
    (Hreach_x : Z.abs (target_x camera mouse_pos - player_tile_x p) <= 4)
    (Hreach_y : Z.abs (target_y camera mouse_pos - player_tile_y p) <= 4)
    (Hin : tile_in_world (target_x camera mouse_pos) (target_y camera mouse_pos) = true)
    (Hstone : tile_at world (target_x camera mouse_pos) (target_y camera mouse_pos) = Some 3)
    (Hrow : target_y camera mouse_pos < WORLD_HEIGHT - 1)
    (Hsame_x : target_x camera2 mouse_pos2 = target_x camera mouse_pos)
    (Hsame_y : target_y camera2 mouse_pos2 = target_y camera mouse_pos)
    (Hclear : Rect.colliderect (rect (Player.body p))
                (tile_rect (target_x camera mouse_pos) (target_y camera mouse_pos)) = false) :
  exists world1 p1,
    Player.mine_block world camera mouse_pos p = Ok (world1, p1) /\
    tile_at world1 (target_x camera mouse_pos) (target_y camera mouse_pos) = Some 0 /\
    Player.inventory p1 !! "stone" = Some (count + 1) /\
    Player.place_block world1 camera2 mouse_pos2 p1 = Ok (world, p).
Proof.
  set (world_x := target_x camera mouse_pos) in *.
  set (world_y := target_y camera mouse_pos) in *.
  destruct (tile_at_Some _ _ _ _ Hstone) as (Hx & Hy & row & Hrow_at & Htile).
  assert (Hlen : 0 <= world_x < Z.of_nat (length row))
    by (apply lookup_lt_Some in Htile; lia).
  exists (<[Z.to_nat world_y := <[Z.to_nat world_x := 0]> row]> world),
         (Player.set_inventory (<["stone" := count + 1]> (Player.inventory p)) p).
  split; [|split; [|split]].
  - rewrite mine_block_unfold. cbv zeta. fold world_x world_y.
    apply Z.ltb_ge in Hreach_x, Hreach_y. rewrite Hreach_x, Hreach_y, Hin. simpl.
    rewrite (world_get_tile_at _ _ _ _ Hstone). simpl.
    apply Z.ltb_lt in Hrow. rewrite Hrow. simpl.
    rewrite (inventory_add_Some _ _ count) by exact Hcount. simpl.
    rewrite (world_set_row _ row) by assumption. reflexivity.
  - apply tile_at_insert_same; try assumption. lia.
  - simpl. apply lookup_insert_eq.
  - rewrite place_block_unfold. cbv zeta. rewrite Hsame_x, Hsame_y.
    fold world_x world_y. simpl. rewrite Hsel. rewrite lookup_insert_eq. simpl.
    assert (Hpos : (count + 1 <=? 0) = false) by (apply Z.leb_gt; lia).
    rewrite Hpos, Hin.
    rewrite (world_get_tile_at _ world_x world_y 0)
      by (apply tile_at_insert_same; try assumption; lia).
    simpl. rewrite Hclear. simpl.
    rewrite (world_set_row _ (<[Z.to_nat world_x := 0]> row)).
    + simpl. rewrite (inventory_add_Some _ _ (count + 1)) by apply lookup_insert_eq.
      simpl. f_equal. f_equal.
      * rewrite !list_insert_insert_eq.
        rewrite (list_insert_id row) by exact Htile.
        apply list_insert_id. exact Hrow_at.
      * destruct p as [body inv sel]. unfold Player.set_inventory. simpl in *.
        f_equal. rewrite insert_insert_eq.
        replace (count + 1 + -1) with count by lia.
        apply insert_id. exact Hcount.
    + exact Hy.
    + apply list_lookup_insert_eq. apply lookup_lt_Some in Hrow_at. exact Hrow_at.
    + rewrite length_insert. exact Hlen.
Qed.

(* ===================================================================== *)
(** ** The boss                                                           *)
(* ===================================================================== *)

Lemma handle_event_boss (st st' : Game.t) (ev : Event) :
  handle_event st ev = Ok st' ->
  Game.boss st' = Game.boss st /\
  Game.boss_spawned st' = Game.boss_spawned st /\
  Game.boss_defeated st' = Game.boss_defeated st.
Proof.
  destruct ev as [|button pos|]; simpl; intros H.
  - inversion H. auto.
  - destruct ((button =? 1) || (button =? 3)); [|inversion H; auto].
    destruct (Game.camera st) as [cam|]; [|discriminate].
    apply bind_Ok in H as ([world player] & _ & H). inversion H. auto.
  - inversion H. auto.
Qed.

Lemma handle_events_boss (evs : list Event) :
  forall st st',
    handle_events st evs = Ok st' ->
    Game.boss st' = Game.boss st /\
    Game.boss_spawned st' = Game.boss_spawned st /\
    Game.boss_defeated st' = Game.boss_defeated st.
Proof.
  induction evs as [|ev evs IH]; intros st st' H.
  - inversion H. auto.
  - cbn [handle_events] in H. apply bind_Ok in H as (st1 & H1 & H).
    apply handle_event_boss in H1 as (Hb & Hs & Hd).
    apply IH in H as (Hb' & Hs' & Hd'). split; [|split]; congruence.
Qed.

Lemma handle_input_inventory (keys : Keys) (p : Player.t) :
  Player.inventory (Player.handle_input keys p) = Player.inventory p.
Proof.
  unfold Player.handle_input.
  destruct (K_1 keys), (K_2 keys), (K_3 keys), (K_4 keys); reflexivity.
Qed.

Lemma player_update_inventory (world : World) (p p' : Player.t) :
  Player.update world p = Ok p' -> Player.inventory p' = Player.inventory p.
Proof.
  unfold Player.update. intros H.
  apply bind_Ok in H as (s & _ & H). inversion H. reflexivity.
Qed.

Lemma enemy_contact_inventory (r : Rect.t) (p : Player.t) :
  Player.inventory (enemy_contact r p) = Player.inventory p.
Proof.
  unfold enemy_contact.
  destruct (Rect.colliderect _ _); [|reflexivity].
  destruct (hurt_cooldown _ =? 0); reflexivity.
Qed.

Lemma boss_contact_inventory (r : Rect.t) (p : Player.t) :
  Player.inventory (boss_contact r p) = Player.inventory p.
Proof.
  unfold boss_contact.
  destruct (Rect.colliderect _ _); [|reflexivity].
  destruct (hurt_cooldown _ =? 0); reflexivity.
Qed.

Lemma update_enemies_inventory (world : World) (es : list Sprite) :
  forall player g rest player' g',
    update_enemies world es player g = Ok (rest, player', g') ->
    Player.inventory player' = Player.inventory player.
Proof.
  induction es as [|e es IH]; intros player g rest player' g' H.
  - inversion H. reflexivity.
  - apply update_enemies_cons in H as (e1 & g1 & rest1 & _ & H).
    apply IH in H. rewrite H. apply enemy_contact_inventory.
Qed.

(** Moving and colliding never changes a sprite's health. *)
Lemma snap_health (dx dy : float) (tile_x tile_y : Z) (s : Sprite) :
  health (snap dx dy tile_x tile_y s) = health s.
Proof.
  unfold snap.
  destruct (0 <? dy)%float, (dy <? 0)%float, (0 <? dx)%float, (dx <? 0)%float;
    reflexivity.
Qed.

Lemma resolve_corners_health (world : World) (dx dy : float) (cs : list (Z * Z)) :
  forall s s', resolve_corners world dx dy s cs = Ok s' -> health s' = health s.
Proof.
  induction cs as [|[cx cy] cs IH]; intros s s' H; simpl in H; [congruence|].
  apply bind_Ok in H as (s1 & H1 & H). apply IH in H. rewrite H.
  unfold resolve_corner in H1.
  destruct (tile_in_world (cx / TILE_SIZE) (cy / TILE_SIZE)); [|congruence].
  apply bind_Ok in H1 as (tile & _ & H1).
  destruct (is_solid tile); inversion H1; [apply snap_health | reflexivity].
Qed.

Lemma keep_within_world_health (s : Sprite) :
  health (keep_within_world s) = health s.
Proof.
  unfold keep_within_world.
  destruct (Rect.left (rect s) <? 0);
    match goal with |- context [if ?b then _ else _] => destruct b end;
    reflexivity.
Qed.

Lemma boss_resolve_health (world : World) (s s' : Sprite) (dx dy : float) :
  Boss._resolve_collisions world s dx dy = Ok s' -> health s' = health s.
Proof.
  unfold Boss._resolve_collisions. intros H.
  apply bind_Ok in H as (s1 & H1 & H). inversion H.
  rewrite keep_within_world_health. exact (resolve_corners_health _ _ _ _ _ _ H1).
Qed.

Lemma move_and_collide_health
    (resolve : World -> Sprite -> float -> float -> result Sprite)
    (world : World) (s s' : Sprite) :
  (forall s0 s1 dx dy, resolve world s0 dx dy = Ok s1 -> health s1 = health s0) ->
  move_and_collide resolve world s = Ok s' -> health s' = health s.
Proof.
  intros Hres H. unfold move_and_collide in H.
  apply bind_Ok in H as (s1 & H1 & H). apply bind_Ok in H as (s2 & H2 & H).
  inversion H. clear H.
  unfold move_horizontal in H1. apply bind_Ok in H1 as (ix & _ & H1).
  unfold move_vertical in H2. apply bind_Ok in H2 as (iy & _ & H2).
  apply Hres in H1, H2. simpl in H1, H2.
  unfold cool_down. destruct (0 <? hurt_cooldown s2); simpl; congruence.
Qed.

Lemma boss_update_health (world : World) (player : Player.t) (b b' : Sprite)
    (g g' : Rng) :
  Boss.update world player b g = Ok (b', g') -> health b' = health b.
Proof.
  unfold Boss.update. intros H.
  destruct (Boss.chase player b g) as [b0 g0] eqn:Hchase.
  apply bind_Ok in H as (s1 & H1 & H). inversion H; subst.
  apply move_and_collide_health in H1;
    [|intros s0 s2 dx dy; apply boss_resolve_health].
  rewrite H1. unfold Boss.chase in Hchase.
  destruct (Rect.centerx _ <? Rect.centerx _);
    match type of Hchase with
    | (if ?c then _ else _) = _ => destruct c
    end;
    try (destruct (random_random g) as [u g1];
         match type of Hchase with
         | (if ?c then _ else _) = _ => destruct c
         end);
    inversion Hchase; reflexivity.
Qed.

(** What the boss-spawning step can do. *)
Lemma spawn_boss_cases (st : Game.t) (player : Player.t) (b : option Sprite) (sp : bool) :
  spawn_boss st player = Ok (b, sp) ->
  (Game.boss_spawned st = true /\ b = Game.boss st /\ sp = true) \/
  (Game.boss_spawned st = false /\
   exists ore, Player.inventory player !! "ore" = Some ore /\
     ((ore < BOSS_SPAWN_ORE_COUNT /\ b = Game.boss st /\ sp = false) \/
      (BOSS_SPAWN_ORE_COUNT <= ore /\ sp = true /\
       exists b0, b = Some b0 /\ health b0 = 250))).
Proof.
  unfold spawn_boss. intros H.
  destruct (Game.boss_spawned st) eqn:Hsp; simpl in H.
  - inversion H. auto.
  - right. split; [reflexivity|].
    destruct (Player.inventory player !! "ore") as [ore|]; [|discriminate].
    exists ore. split; [reflexivity|].
    destruct (BOSS_SPAWN_ORE_COUNT <=? ore) eqn:Hore.
    + apply Z.leb_le in Hore.
      apply bind_Ok in H as (found & _ & H). inversion H. right. eauto.
    + apply Z.leb_gt in Hore. inversion H. left. auto.
Qed.

(** What the boss update can do to [boss] and [boss_defeated]. *)
Lemma update_boss_cases (st : Game.t) (boss : option Sprite) (player : Player.t)
    (g : Rng) (b' : option Sprite) (d' : bool) (player' : Player.t) (g' : Rng) :
  update_boss st boss player g = Ok (b', d', player', g') ->
  Player.inventory player' = Player.inventory player /\
  (boss = None -> b' = None /\ d' = Game.boss_defeated st) /\
  (Game.boss_defeated st = true -> d' = true) /\
  (forall b0, boss = Some b0 -> Game.boss_defeated st = false -> 0 < health b0 ->
     is_Some b' /\ d' = false).
Proof.
  unfold update_boss. intros H.
  destruct boss as [b|].
  - destruct (Game.boss_defeated st) eqn:Hd; simpl in H.
    + inversion H; subst. repeat split; intros; eauto; try discriminate.
    + apply bind_Ok in H as ([b1 g1] & Hup & H). inversion H; subst.
      rewrite boss_contact_inventory. repeat split; intros; eauto; try discriminate.
      match goal with Hb : Some _ = Some _ |- _ => inversion Hb; subst end.
      apply boss_update_health in Hup.
      assert (Hpos : (health b1 <=? 0) = false) by (apply Z.leb_gt; lia).
      rewrite Hpos. reflexivity.
  - inversion H; subst. repeat split; intros; auto; discriminate.
Qed.

(** The boss-relevant outline of a frame: the events leave the boss
    variables alone, the spawn step and the boss update do the rest, and
    the inventory that the spawn step reads is the one the frame ends
    with. *)
Lemma tick_boss_outline (inp : Input) (st st' : Game.t) :
  tick inp st = Ok st' ->
  exists st1 player b player3 g player4 g',
    Game.boss st1 = Game.boss st /\
    Game.boss_spawned st1 = Game.boss_spawned st /\
    Game.boss_defeated st1 = Game.boss_defeated st /\
    spawn_boss st1 player = Ok (b, Game.boss_spawned st') /\
    update_boss st1 b player3 g = Ok (Game.boss st', Game.boss_defeated st', player4, g') /\
    Player.inventory player = Player.inventory (Game.player st') /\
    Player.inventory player3 = Player.inventory (Game.player st').
Proof.
  unfold tick. intros H.
  apply bind_Ok in H as (st1 & Hev & H).
  apply bind_Ok in H as (player & Hup & H).
  destruct (DAY_LENGTH <=? Game.time_of_day st1 + 1);
    apply bind_Ok in H as ([[[enemies timer] sy] g0] & _ & H);
    apply bind_Ok in H as ([b sp] & Hsb & H);
    apply bind_Ok in H as ([[enemies' player3] g] & Hen & H);
    apply bind_Ok in H as ([[[b' d'] player4] g'] & Hub & H);
    inversion H; subst; simpl;
    apply handle_events_boss in Hev as (Hb & Hs & Hd);
    pose proof (update_enemies_inventory _ _ _ _ _ _ _ Hen) as Hinv3;
    pose proof (update_boss_cases _ _ _ _ _ _ _ _ Hub) as (Hinv4 & _);
    exists st1, player, b, player3, g, player4, g';
    repeat split; try assumption; congruence.
Qed.

(** One frame, seen from the boss variables.  With the flag set it stays
    set and an inactive boss stays inactive.  With the flag clear (and, as
    before any spawn, no boss and no defeat) either nothing happens and the
    ore count is below the threshold, or the boss spawns, is active at the
    end of the frame, and the ore count is at the threshold or above. *)
Lemma tick_boss_step (inp : Input) (st st' : Game.t) :
  tick inp st = Ok st' ->
  (Game.boss_spawned st = true ->
   Game.boss_spawned st' = true /\
   (active_bosses st = 0 -> active_bosses st' = 0)) /\
  (no_boss_before_spawn st -> Game.boss_spawned st = false ->
   (Game.boss_spawned st' = false /\ no_boss_before_spawn st' /\
    exists ore, ore_count st' = Some ore /\ ore < BOSS_SPAWN_ORE_COUNT) \/
   (Game.boss_spawned st' = true /\ active_bosses st' = 1 /\
    exists ore, ore_count st' = Some ore /\ BOSS_SPAWN_ORE_COUNT <= ore)).
Proof.
  intros H.
  apply tick_boss_outline in H
    as (st1 & player & b & player3 & g & player4 & g'
        & Hb & Hs & Hd & Hsb & Hub & Hinv & _).
  apply spawn_boss_cases in Hsb.
  apply update_boss_cases in Hub as (_ & Hnone & Hdef & Hlive).
  unfold ore_count. rewrite <- Hinv. split.
  - intros Hsp. rewrite Hs in Hsb.
    destruct Hsb as [(_ & -> & Hsp') | (Hf & _)]; [|congruence].
    split; [exact Hsp'|].
    unfold active_bosses. rewrite Hb in *. intros Hact.
    destruct (Game.boss st) as [b0|] eqn:Hboss.
    + destruct (Game.boss_defeated st) eqn:Hd0; [|discriminate].
      rewrite Hd in Hdef. rewrite (Hdef eq_refl).
      destruct (Game.boss st'); reflexivity.
    + rewrite (proj1 (Hnone eq_refl)). reflexivity.
  - intros Hinv0 Hsp. destruct (Hinv0 Hsp) as [Hboss Hdefeated].
    rewrite Hs in Hsb.
    destruct Hsb as [(Ht & _) | (_ & ore & Hore & Hcase)]; [congruence|].
    destruct Hcase as [(Hlt & -> & Hsp') | (Hge & Hsp' & b0 & -> & Hhealth)].
    + left. rewrite Hb, Hboss in Hnone. destruct (Hnone eq_refl) as [Hb' Hd'].
      split; [exact Hsp'|]. split; [|eauto].
      intros _. split; [exact Hb'|]. congruence.
    + right. split; [exact Hsp'|]. split; [|eauto].
      destruct (Hlive b0 eq_refl) as [[b1 Hb1] Hd']; [congruence | lia |].
      unfold active_bosses. rewrite Hb1, Hd'. reflexivity.
Qed.

(** The state before the first frame has no boss and the flag clear. *)
Lemma init_game_no_boss (g : Rng) (st : Game.t) :
  init_game g = Ok st ->
  Game.boss st = None /\ Game.boss_spawned st = false /\ Game.boss_defeated st = false.
Proof.
  unfold init_game. intros H.
  apply bind_Ok in H as ([world g1] & _ & H).
  apply bind_Ok in H as (found & _ & H).
  inversion H. auto.
Qed.

(** Consecutive frames of a run are one [tick] apart. *)
Lemma run_consecutive (inputs : list Input) :
  forall (st : Game.t) (i : nat) (a b : Game.t),
    (st :: run inputs st) !! i = Some a ->
    (st :: run inputs st) !! S i = Some b ->
    exists inp, tick inp a = Ok b.
Proof.
  induction inputs as [|inp inputs IH]; intros st i a b Ha Hb.
  - destruct i; discriminate.
  - cbn [run] in Ha, Hb.
    destruct (Game.running st); [|destruct i; discriminate].
    destruct (tick inp st) as [st'|e] eqn:Ht; [|destruct i; discriminate].
    destruct i as [|i].
    + simpl in Ha, Hb. inversion Ha; inversion Hb; subst. eauto.
    + exact (IH st' i a b Ha Hb).
Qed.

Lemma tick_no_boss_before_spawn (inp : Input) (st st' : Game.t) :
  tick inp st = Ok st' -> no_boss_before_spawn st -> no_boss_before_spawn st'.
Proof.
  intros Ht Hinv Hsp'.
  destruct (tick_boss_step _ _ _ Ht) as [Hon Hoff].
  destruct (Game.boss_spawned st) eqn:Hsp.
  - destruct (Hon eq_refl) as [Hs _]. congruence.
  - destruct (Hoff Hinv eq_refl) as [(_ & Hinv' & _) | (Hs & _)];
      [exact (Hinv' Hsp') | congruence].
Qed.

Lemma run_no_boss_before_spawn (inputs : list Input) (st : Game.t) :
  no_boss_before_spawn st ->
  forall i a, (st :: run inputs st) !! i = Some a -> no_boss_before_spawn a.
Proof.
  intros Hinv i. induction i as [|i IH]; intros a Ha.
  - inversion Ha; subst. exact Hinv.
  - destruct (lookup_lt_is_Some_2 (st :: run inputs st) i) as [c Hc].
    { apply lookup_lt_Some in Ha. lia. }
    destruct (run_consecutive _ _ _ _ _ Hc Ha) as [inp Ht].
    exact (tick_no_boss_before_spawn _ _ _ Ht (IH c Hc)).
Qed.

Lemma run_spawned_stays (inputs : list Input) (st : Game.t) :
  forall i j a b,
    (i <= j)%nat ->
    (st :: run inputs st) !! i = Some a ->
    (st :: run inputs st) !! j = Some b ->
    Game.boss_spawned a = true -> Game.boss_spawned b = true.
Proof.
  intros i j. induction j as [|j IH]; intros a b Hij Ha Hb Hsp.
  - assert (i = 0)%nat by lia. subst. congruence.
  - destruct (decide (i = S j)) as [->|Hne]; [congruence|].
    destruct (lookup_lt_is_Some_2 (st :: run inputs st) j) as [c Hc].
    { apply lookup_lt_Some in Hb. lia. }
    destruct (run_consecutive _ _ _ _ _ Hc Hb) as [inp Ht].
    apply (tick_boss_step _ _ _ Ht).
    apply (IH a c); [lia | assumption..].
Qed.

Lemma rises_cons (a b : Z) (l : list Z) :
  rises (a :: b :: l) =
  if (a =? 0) && (b =? 1) then S (rises (b :: l)) else rises (b :: l).
Proof. reflexivity. Qed.

Lemma rises_after_spawn (inputs : list Input) :
  forall st, Game.boss_spawned st = true ->
    rises (active_bosses <$> (st :: run inputs st)) = 0%nat.
Proof.
  induction inputs as [|inp inputs IH]; intros st Hsp; [reflexivity|].
  cbn [run]. destruct (Game.running st); [|reflexivity].
  destruct (tick inp st) as [st'|e] eqn:Ht; [|reflexivity].
  destruct (proj1 (tick_boss_step _ _ _ Ht) Hsp) as [Hsp' Hact].
  specialize (IH st' Hsp').
  rewrite fmap_cons in IH. rewrite !fmap_cons, rises_cons.
  destruct (active_bosses st =? 0) eqn:H0; [|exact IH].
  apply Z.eqb_eq in H0. rewrite (Hact H0) in IH |- *. exact IH.
Qed.

Lemma rises_before_spawn (inputs : list Input) :
  forall st, Game.boss_spawned st = false -> no_boss_before_spawn st ->
    (rises (active_bosses <$> (st :: run inputs st)) <= 1)%nat.
Proof.
  induction inputs as [|inp inputs IH]; intros st Hsp Hinv; [simpl; lia|].
  cbn [run]. destruct (Game.running st); [|simpl; lia].
  destruct (tick inp st) as [st'|e] eqn:Ht; [|simpl; lia].
  pose proof (rises_after_spawn inputs st') as Hafter.
  specialize (IH st').
  rewrite fmap_cons in IH, Hafter. rewrite !fmap_cons, rises_cons.
  destruct (proj2 (tick_boss_step _ _ _ Ht) Hinv Hsp)
    as [(Hsp' & Hinv' & _) | (Hsp' & _)].
  - assert (Hact : active_bosses st' = 0)
      by (unfold active_bosses; rewrite (proj1 (Hinv' Hsp')); reflexivity).
    specialize (IH Hsp' Hinv'). rewrite Hact in IH |- *.
    rewrite andb_false_r. exact IH.
  - rewrite (Hafter Hsp'). destruct (_ && _); lia.
Qed.

(** With the flag set the spawn step creates nothing: it hands back the
    boss it was given. *)
Lemma spawn_boss_spawned (st : Game.t) (player : Player.t) :
  Game.boss_spawned st = true -> spawn_boss st player = Ok (Game.boss st, true).
Proof.
  intros Hsp. unfold spawn_boss. rewrite Hsp. reflexivity.
Qed.

(** The boss object over one frame: carried over when the flag is set,
    created when the frame sets the flag. *)
Lemma tick_boss_object (inp : Input) (st st' : Game.t) :
  tick inp st = Ok st' ->
  (Game.boss_spawned st = true -> boss_carried_over st st') /\
  (Game.boss_spawned st = false -> Game.boss_defeated st = false ->
   Game.boss_spawned st' = true -> boss_created st st').
Proof.
  unfold tick. intros H.
  apply bind_Ok in H as (st1 & Hev & H).
  apply bind_Ok in H as (player & Hup & H).
  apply handle_events_boss in Hev as (Hb & Hs & Hd).
  assert (Hrest :
    exists (b : option Sprite) (player3 : Player.t) (g : Rng) (d' : bool)
           (player4 : Player.t) (g' : Rng),
      spawn_boss st1 player = Ok (b, Game.boss_spawned st') /\
      update_boss st1 b player3 g = Ok (Game.boss st', d', player4, g') /\
      Game.world st' = Game.world st1).
  { destruct (DAY_LENGTH <=? Game.time_of_day st1 + 1);
      apply bind_Ok in H as ([[[enemies timer] sy] g0] & _ & H);
      apply bind_Ok in H as ([b sp] & Hsb & H);
      apply bind_Ok in H as ([[enemies' player3] g] & Hen & H);
      apply bind_Ok in H as ([[[b' d'] player4] g'] & Hub & H);
      inversion H; subst; simpl;
      exists b, player3, g, d', player4, g'; auto. }
  destruct Hrest as (b & player3 & g & d' & player4 & g' & Hsb & Hub & Hworld).
  unfold boss_carried_over, boss_created. rewrite Hworld, <- Hb, <- Hd, <- Hs.
  unfold update_boss in Hub. split.
  - intros Hsp. rewrite (spawn_boss_spawned _ _ Hsp) in Hsb.
    injection Hsb as Hb0 _. subst b.
    destruct (Game.boss st1) as [x|]; [|injection Hub as Hub _ _ _; congruence].
    destruct (Game.boss_defeated st1); simpl in Hub;
      [injection Hub as Hub _ _ _; congruence|].
    apply bind_Ok in Hub as ([x' g1] & Hbu & Hub).
    injection Hub as Hub _ _ _. eauto 6.
  - intros Hsp Hdef Hsp'.
    unfold spawn_boss in Hsb. rewrite Hsp in Hsb. simpl in Hsb.
    destruct (Player.inventory player !! "ore") as [ore|]; [|discriminate].
    destruct (BOSS_SPAWN_ORE_COUNT <=? ore).
    + apply bind_Ok in Hsb as (found & _ & Hsb). injection Hsb as Hb0 _. subst b.
      rewrite Hdef in Hub. simpl in Hub.
      apply bind_Ok in Hub as ([x' g1] & Hbu & Hub).
      injection Hub as Hub _ _ _. eauto 8.
    + injection Hsb as _ Hf. congruence.
Qed.

(** C2: along every run of the main loop the boss is created at most once.
    The boss-spawned flag, once set, stays set; there is never more than one
    active boss; the number of active bosses steps from 0 to 1 at most once;
    it does so exactly in the frame that sets the flag, which is a frame
    with the player's ore count at BOSS_SPAWN_ORE_COUNT or more; and in
    every frame that ends with the flag still clear the ore count is below
    BOSS_SPAWN_ORE_COUNT.  The boss object itself is created in the frame
    that sets the flag and in no other: with the flag set the spawn step
    returns the boss it was given, whatever the ore count, and every frame
    that starts with the flag set ends with the boss it started with,
    updated once if it is active (and with no boss if it had none). *)
Theorem C2_boss_spawns_once (inputs : list Input) (st0 : Game.t)
    (Hboss : Game.boss st0 = None)
    (Hspawned : Game.boss_spawned st0 = false)
    (Hdefeated : Game.boss_defeated st0 = false) :
  let trace := st0 :: run inputs st0 in
  (forall i j a b, (i <= j)%nat -> trace !! i = Some a -> trace !! j = Some b ->
     Game.boss_spawned a = true -> Game.boss_spawned b = true) /\
  Forall (fun st => active_bosses st <= 1) trace /\
  (rises (active_bosses <$> trace) <= 1)%nat /\
  (forall i a b, trace !! i = Some a -> trace !! S i = Some b ->
     (active_bosses a = 0 /\ active_bosses b = 1 <->
      Game.boss_spawned a = false /\ Game.boss_spawned b = true)) /\
  (forall i a b, trace !! i = Some a -> trace !! S i = Some b ->
     Game.boss_spawned a = false -> Game.boss_spawned b = true ->
     exists ore, ore_count b = Some ore /\ BOSS_SPAWN_ORE_COUNT <= ore) /\
  (forall i b, trace !! S i = Some b -> Game.boss_spawned b = false ->
     exists ore, ore_count b = Some ore /\ ore < BOSS_SPAWN_ORE_COUNT) /\
  (forall st player, Game.boss_spawned st = true ->
     spawn_boss st player = Ok (Game.boss st, true)) /\
  (forall i a b, trace !! i = Some a -> trace !! S i = Some b ->
     Game.boss_spawned a = true -> boss_carried_over a b) /\
  (forall i a b, trace !! i = Some a -> trace !! S i = Some b ->
     Game.boss_spawned a = false ->
     (Game.boss_spawned b = true -> boss_created a b) /\
     (Game.boss_spawned b = false -> Game.boss b = None)).
Proof.
  intros trace.
  assert (Hinv : no_boss_before_spawn st0) by (intros _; auto).
  split; [|split; [|split; [|split; [|split; [|split; [|split; [|split]]]]]]].
  - apply run_spawned_stays.
  - apply Forall_forall. intros st _. unfold active_bosses.
    destruct (Game.boss st); [destruct (Game.boss_defeated st)|]; lia.
  - apply rises_before_spawn; assumption.
  - intros i a b Ha Hb.
    destruct (run_consecutive _ _ _ _ _ Ha Hb) as [inp Ht].
    destruct (tick_boss_step _ _ _ Ht) as [Hon Hoff].
    pose proof (run_no_boss_before_spawn inputs st0 Hinv i a Ha) as Hinva.
    destruct (Game.boss_spawned a) eqn:Hsp.
    + destruct (Hon eq_refl) as [_ Hstay]. split.
      * intros [Hact0 Hact1]. rewrite (Hstay Hact0) in Hact1. discriminate.
      * intros [Hf _]. discriminate.
    + destruct (Hoff Hinva eq_refl) as [(Hsp' & Hinv' & _) | (Hsp' & Hact' & _)].
      * split.
        -- intros [_ Hact1]. unfold active_bosses in Hact1.
           rewrite (proj1 (Hinv' Hsp')) in Hact1. discriminate.
        -- intros [_ Ht']. congruence.
      * split; [auto|]. intros _. split; [|exact Hact'].
        unfold active_bosses. rewrite (proj1 (Hinva Hsp)). reflexivity.
  - intros i a b Ha Hb Hsp Hsp'.
    destruct (run_consecutive _ _ _ _ _ Ha Hb) as [inp Ht].
    pose proof (run_no_boss_before_spawn inputs st0 Hinv i a Ha) as Hinva.
    destruct (proj2 (tick_boss_step _ _ _ Ht) Hinva Hsp)
      as [(Hf & _) | (_ & _ & Hore)]; [congruence | exact Hore].
  - intros i b Hb Hsp'.
    destruct (lookup_lt_is_Some_2 trace i) as [a Ha].
    { apply lookup_lt_Some in Hb. lia. }
    destruct (run_consecutive _ _ _ _ _ Ha Hb) as [inp Ht].
    pose proof (run_no_boss_before_spawn inputs st0 Hinv i a Ha) as Hinva.
    destruct (tick_boss_step _ _ _ Ht) as [Hon Hoff].
    destruct (Game.boss_spawned a) eqn:Hsp.
    + destruct (Hon eq_refl) as [Hs _]. congruence.
    + destruct (Hoff Hinva eq_refl) as [(_ & _ & Hore) | (Hs & _)];
        [exact Hore | congruence].
  - apply spawn_boss_spawned.
  - intros i a b Ha Hb Hsp.
    destruct (run_consecutive _ _ _ _ _ Ha Hb) as [inp Ht].
    exact (proj1 (tick_boss_object _ _ _ Ht) Hsp).
  - intros i a b Ha Hb Hsp.
    destruct (run_consecutive _ _ _ _ _ Ha Hb) as [inp Ht].
    pose proof (run_no_boss_before_spawn inputs st0 Hinv i a Ha) as Hinva.
    split.
    + intros Hsp'.
      exact (proj2 (tick_boss_object _ _ _ Ht) Hsp (proj2 (Hinva Hsp)) Hsp').
    + intros Hsp'.
      pose proof (tick_no_boss_before_spawn _ _ _ Ht Hinva) as Hinvb.
      exact (proj1 (Hinvb Hsp')).
Qed.

(* ===================================================================== *)
(** ** World generation                                                   *)
(* ===================================================================== *)

Lemma elem_of_range (a b y : Z) : y ∈ range a b <-> a <= y < b.
Proof.
  unfold range. rewrite elem_of_seqZ. lia.
Qed.

(** The inner loop writes every row it visits according to the layer rule
    and touches nothing else. *)
Lemma fill_column_spec (width height x current_height : Z) (ys : list Z) :
  0 <= x < width ->
  (forall y, y ∈ ys -> 0 <= y < height) ->
  forall (world : World) (g : Rng),
    grid_dims world width height ->
    exists world' g',
      fill_column world x current_height ys g = Ok (world', g') /\
      grid_dims world' width height /\
      (forall x' y', x' <> x \/ y' ∉ ys -> tile_at world' x' y' = tile_at world x' y') /\
      (forall y, y ∈ ys ->
         exists tile, tile_at world' x y = Some tile /\ layer_ok current_height y tile).
Proof.
  intros Hx. induction ys as [|y ys IH]; intros Hys world g Hd.
  - exists world, g. split; [reflexivity|]. split; [exact Hd|].
    split; [reflexivity|]. intros y Hy. inversion Hy.
  - assert (Hy : 0 <= y < height) by (apply Hys; left).
    assert (Hys' : forall y0, y0 ∈ ys -> 0 <= y0 < height)
      by (intros y0 H0; apply Hys; right; exact H0).
    (* the tile written at row [y], whichever branch runs *)
    assert (Hstep : exists tile g1,
              layer_ok current_height y tile /\
              fill_column world x current_height (y :: ys) g =
              (world_set world y x tile ≫= fun world' =>
                 fill_column world' x current_height ys g1)).
    { cbn [fill_column]. unfold layer_ok.
      destruct (y =? current_height); [exists 2, g; auto|].
      destruct (y <? current_height + 5); [exists 1, g; auto|].
      destruct (random_random g) as [u g1].
      destruct (u <? 0.05)%float; [exists 4, g1 | exists 3, g1]; auto. }
    destruct Hstep as (tile & g1 & Hok & ->).
    destruct (world_set_in_range world width height x y tile Hd Hx Hy)
      as (world1 & Hset & Hd1 & Hsame & Hother).
    rewrite Hset. cbn [mbind result_bind].
    destruct (IH Hys' world1 g1 Hd1) as (world' & g' & Hrun & Hd' & Hframe & Hrows).
    exists world', g'. split; [exact Hrun|]. split; [exact Hd'|]. split.
    + intros x' y' Hout. rewrite Hframe.
      * apply Hother. intros Heq. inversion Heq; subst.
        destruct Hout as [Hne|Hnin]; [congruence|]. apply Hnin. left.
      * destruct Hout as [Hne|Hnin]; [left; exact Hne|].
        right. intros Hin. apply Hnin. right. exact Hin.
    + intros y0 Hy0.
      destruct (decide (y0 ∈ ys)) as [Hin|Hnin]; [apply Hrows; exact Hin|].
      apply elem_of_cons in Hy0 as [->|Hin]; [|contradiction].
      exists tile. split; [|exact Hok].
      rewrite Hframe by (right; exact Hnin). exact Hsame.
Qed.

Lemma layered_after_fill (world : World) (height x s : Z) :
  0 <= s -> s + 4 < height ->
  (forall y, s <= y < height ->
     exists tile, tile_at world x y = Some tile /\ layer_ok s y tile) ->
  (forall y, 0 <= y < s -> tile_at world x y = Some 0) ->
  column_layered world height x s.
Proof.
  intros Hs Hroom Hrows Hair. unfold column_layered.
  split; [|split; [|split]].
  - destruct (Hrows s) as (tile & Ht & Hok); [lia|].
    unfold layer_ok in Hok. rewrite Z.eqb_refl in Hok. congruence.
  - intros y Hy. destruct (Hrows y) as (tile & Ht & Hok); [lia|].
    unfold layer_ok in Hok.
    destruct (y =? s) eqn:He; [apply Z.eqb_eq in He; lia|].
    destruct (y <? s + 5) eqn:Hl; [congruence|]. apply Z.ltb_ge in Hl. lia.
  - intros y Hy. destruct (Hrows y) as (tile & Ht & Hok); [lia|].
    unfold layer_ok in Hok.
    destruct (y =? s) eqn:He; [apply Z.eqb_eq in He; lia|].
    destruct (y <? s + 5) eqn:Hl; [apply Z.ltb_lt in Hl; lia|].
    destruct Hok as [-> | ->]; auto.
  - exact Hair.
Qed.

Lemma column_layered_ext (world world' : World) (height x s : Z) :
  (forall y, tile_at world' x y = tile_at world x y) ->
  column_layered world height x s -> column_layered world' height x s.
Proof.
  intros Heq (Hg & Hd & Hs & Ha). unfold column_layered.
  repeat split; intros; rewrite !Heq; auto.
Qed.

(** The outer loop gives every column it visits a layered profile, with the
    surface within 4 rows of the base height. *)
Lemma fill_columns_spec (width height base : Z) (xs : list Z) :
  0 <= base - 4 -> base + 8 < height ->
  NoDup xs ->
  (forall x, x ∈ xs -> 0 <= x < width) ->
  forall (world : World) (current_height : Z) (g : Rng),
    grid_dims world width height ->
    (forall x y, x ∈ xs -> 0 <= y < height -> tile_at world x y = Some 0) ->
    exists world' g',
      fill_columns world height base current_height xs g = Ok (world', g') /\
      grid_dims world' width height /\
      (forall x y, x ∉ xs -> tile_at world' x y = tile_at world x y) /\
      (forall x, x ∈ xs ->
         exists s, base - 4 <= s <= base + 4 /\ column_layered world' height x s).
Proof.
  intros Hlow Hhigh. induction xs as [|x xs IH]; intros Hnd Hxs world ch g Hd Hair.
  - exists world, g. split; [reflexivity|]. split; [exact Hd|].
    split; [reflexivity|]. intros x Hx. inversion Hx.
  - apply NoDup_cons in Hnd as [Hnx Hnd].
    assert (Hx : 0 <= x < width) by (apply Hxs; left).
    cbn [fill_columns].
    destruct (random_choice (-1) [0; 1] g) as [d g1].
    set (s := Z.max (base - 4) (Z.min (base + 4) (ch + d))).
    assert (Hs : base - 4 <= s <= base + 4) by (unfold s; lia).
    destruct (fill_column_spec width height x s (range s height) Hx) with (world := world) (g := g1)
      as (world1 & g2 & Hrun & Hd1 & Hframe & Hrows); [|exact Hd|].
    { intros y Hy. apply elem_of_range in Hy. lia. }
    rewrite Hrun. cbn [mbind result_bind].
    destruct (IH Hnd) with (world := world1) (current_height := s) (g := g2)
      as (world' & g' & Hrun' & Hd' & Hframe' & Hcols).
    { intros x0 H0. apply Hxs. right. exact H0. }
    { exact Hd1. }
    { intros x0 y H0 Hy. rewrite Hframe.
      - apply Hair; [right; exact H0 | exact Hy].
      - left. intros ->. contradiction. }
    exists world', g'. split; [exact Hrun'|]. split; [exact Hd'|]. split.
    + intros x0 y H0. rewrite Hframe'.
      * apply Hframe. left. intros ->. apply H0. left.
      * intros Hin. apply H0. right. exact Hin.
    + intros x0 H0. apply elem_of_cons in H0 as [->|Hin]; [|apply Hcols; exact Hin].
      exists s. split; [exact Hs|].
      apply (column_layered_ext world1); [intros y; apply Hframe'; exact Hnx|].
      apply layered_after_fill; try lia.
      * intros y Hy. apply Hrows. apply elem_of_range. lia.
      * intros y Hy. rewrite Hframe.
        -- apply Hair; [left | lia].
        -- right. rewrite elem_of_range. lia.
Qed.

(** C3, as stated, fails on small grids: in the 1 x 10 grid generated with a
    surface step of +1 the column has grass at row 6 and dirt in rows 7 to 9
    only, so no surface row gives four rows of dirt. *)
Lemma C3_small_world_counterexample :
  ~ (forall width height g world g',
       generate_world width height g = Ok (world, g') ->
       forall x, 0 <= x < width -> exists s, column_layered world height x s).
Proof.
  intros H.
  assert (Hgen : generate_world 1 10 rng_twos =
                 Ok ([[0]; [0]; [0]; [0]; [0]; [0]; [2]; [1]; [1]; [1]],
                     mkRng (fun _ => 2) 1))
    by (vm_compute; reflexivity).
  destruct (H 1 10 rng_twos _ _ Hgen 0 ltac:(lia)) as (s & Hgrass & Hdirt & _).
  assert (Hs : 0 <= s < 10).
  { apply tile_at_Some in Hgrass as (_ & Hs0 & row & Hrow & _).
    apply lookup_lt_Some in Hrow. simpl in Hrow. lia. }
  assert (Hcases : s = 0 \/ s = 1 \/ s = 2 \/ s = 3 \/ s = 4 \/ s = 5 \/
                   s = 6 \/ s = 7 \/ s = 8 \/ s = 9) by lia.
  destruct Hcases as [->|[->|[->|[->|[->|[->|[->|[->|[->| ->]]]]]]]]];
    try (vm_compute in Hgrass; discriminate Hgrass).
  specialize (Hdirt 10 ltac:(lia)). vm_compute in Hdirt. discriminate Hdirt.
Qed.

(** C3 (amended): for every width and every height of at least 17 (the game
    uses 100 x 60), [generate_world] returns a grid of that size in which
    every column has a surface row within 4 rows of [height // 2]: grass at
    the surface row, dirt in exactly the 4 rows under it, only stone or ore
    from there down to the bottom row, and air in every row above. *)
Theorem C3_generate_world_layers (width height : Z) (g : Rng)
    (Hheight : 17 <= height) :
  exists world g',
    generate_world width height g = Ok (world, g') /\
    grid_dims world (Z.max 0 width) height /\
    forall x, 0 <= x < width ->
      exists s, height / 2 - 4 <= s <= height / 2 + 4 /\
                column_layered world height x s.
Proof.
  unfold generate_world.
  pose proof (Z.div_mod height 2 ltac:(lia)) as Hdiv.
  pose proof (Z.mod_pos_bound height 2 ltac:(lia)) as Hmod.
  destruct (fill_columns_spec (Z.max 0 width) height (height / 2) (range 0 width))
    with (world := replicate (Z.to_nat height) (replicate (Z.to_nat width) 0))
         (current_height := height / 2) (g := g)
    as (world & g' & Hrun & Hd & _ & Hcols).
  - lia.
  - lia.
  - apply NoDup_seqZ.
  - intros x Hx. apply elem_of_range in Hx. lia.
  - split.
    + rewrite length_replicate. lia.
    + apply Forall_replicate. rewrite length_replicate. lia.
  - intros x y Hx Hy. apply elem_of_range in Hx. unfold tile_at.
    destruct Hx as [Hx0 Hx1]. destruct Hy as [Hy0 Hy1].
    apply Z.leb_le in Hx0 as Hbx. apply Z.leb_le in Hy0 as Hby.
    rewrite Hbx, Hby. simpl.
    rewrite lookup_replicate_2 by lia. apply lookup_replicate_2. lia.
  - exists world, g'. split; [exact Hrun|]. split; [exact Hd|].
    intros x Hx. apply Hcols. apply elem_of_range. lia.
Qed.

Lemma C3_generate_world_layers_witness :
  17 <= WORLD_HEIGHT /\
  exists world g',
    generate_world WORLD_WIDTH WORLD_HEIGHT rng_twos = Ok (world, g') /\
    grid_dims world (Z.max 0 WORLD_WIDTH) WORLD_HEIGHT /\
    forall x, 0 <= x < WORLD_WIDTH ->
      exists s, WORLD_HEIGHT / 2 - 4 <= s <= WORLD_HEIGHT / 2 + 4 /\
                column_layered world WORLD_HEIGHT x s.
Proof.
  assert (H : 17 <= WORLD_HEIGHT) by (vm_compute; discriminate).
  split; [exact H|].
  exact (C3_generate_world_layers WORLD_WIDTH WORLD_HEIGHT rng_twos H).
Defined.

(* ===================================================================== *)
(** ** The statements at concrete inputs                                  *)
(* ===================================================================== *)

Lemma standing_player_inventory_ok (stone ore : Z) :
  inventory_ok (Player.inventory (standing_player stone ore)).
Proof.
  unfold inventory_ok, standing_player. simpl.
  repeat split; eexists; reflexivity.
Qed.

(** Mining the stone tile under the player's feet: column 5, row 30. *)
Lemma C4_mine_block_witness :
  exists world' p' key count,
    Player.mine_block flat_world (0, 0) (170, 970) (standing_player 0 0) = Ok (world', p') /\
    p' = Player.set_inventory
           (<[key := count + 1]> (Player.inventory (standing_player 0 0)))
           (standing_player 0 0) /\
    mined_resource 3 = Some key /\
    Player.inventory (standing_player 0 0) !! key = Some count /\
    Player.inventory p' !! key = Some (count + 1) /\
    (forall k, k <> key ->
       Player.inventory p' !! k = Player.inventory (standing_player 0 0) !! k) /\
    Player.body p' = Player.body (standing_player 0 0) /\
    Player.selected p' = Player.selected (standing_player 0 0) /\
    only_tile_changed flat_world world' 5 30 0 /\
    wf_world world'.
Proof.
  apply (proj2 (C4_mine_block flat_world (0, 0) (170, 970) (standing_player 0 0)
                  flat_world_wf (standing_player_inventory_ok 0 0)) 3).
  - vm_compute. discriminate.
  - vm_compute. discriminate.
  - reflexivity.
  - reflexivity.
  - lia.
  - reflexivity.
Defined.

(** Placing one stone in the air tile to the right of the player: column 6,
    row 29. *)
Lemma C5_place_block_witness :
  exists world' p',
    Player.place_block flat_world (0, 0) (200, 940) (standing_player 1 0) = Ok (world', p') /\
    p' = Player.set_inventory
           (<["stone" := 1 - 1]> (Player.inventory (standing_player 1 0)))
           (standing_player 1 0) /\
    Player.inventory p' !! "stone" = Some (1 - 1) /\
    (forall k, k <> "stone" ->
       Player.inventory p' !! k = Player.inventory (standing_player 1 0) !! k) /\
    Player.body p' = Player.body (standing_player 1 0) /\
    Player.selected p' = Player.selected (standing_player 1 0) /\
    only_tile_changed flat_world world' 6 29 3 /\
    wf_world world'.
Proof.
  apply (proj2 (C5_place_block flat_world (0, 0) (200, 940) (standing_player 1 0)
                  flat_world_wf) 1 3).
  - reflexivity.
  - reflexivity.
  - reflexivity.
  - reflexivity.
  - reflexivity.
  - reflexivity.
Defined.

(** Mining the stone under the player's feet and putting it back. *)
Lemma C6_mine_then_place_witness :
  exists world1 p1,
    Player.mine_block flat_world (0, 0) (170, 970) (standing_player 0 0) = Ok (world1, p1) /\
    tile_at world1 5 30 = Some 0 /\
    Player.inventory p1 !! "stone" = Some (0 + 1) /\
    Player.place_block world1 (0, 0) (170, 970) p1 = Ok (flat_world, standing_player 0 0).
Proof.
  apply (C6_mine_then_place flat_world (0, 0) (170, 970) (0, 0) (170, 970)
           (standing_player 0 0) 0).
  - reflexivity.
  - lia.
  - reflexivity.
  - vm_compute. discriminate.
  - vm_compute. discriminate.
  - reflexivity.
  - reflexivity.
  - reflexivity.
  - reflexivity.
  - reflexivity.
  - reflexivity.
Defined.

(** An enemy rectangle overlapping the standing player from the left. *)
Lemma C10_contact_damage_witness :
  let s' := Player.body (enemy_contact (Rect.mk 130 912 32 48) (standing_player 0 0)) in
  health s' = 100 - 10 /\ hurt_cooldown s' = 60 /\ vel_x s' = (0 + 2)%float.
Proof.
  exact (proj1 (C10_contact_damage (standing_player 0 0)) (Rect.mk 130 912 32 48)
           eq_refl eq_refl).
Defined.

Lemma C2_boss_spawns_once_witness :
  active_bosses <$> (ore_rich_start :: run two_idle_frames ore_rich_start) = [0; 1; 1] /\
  (rises (active_bosses <$> (ore_rich_start :: run two_idle_frames ore_rich_start)) <= 1)%nat.
Proof.
  split; [vm_compute; reflexivity|].
  exact (proj1 (proj2 (proj2 (C2_boss_spawns_once two_idle_frames ore_rich_start
                                eq_refl eq_refl eq_refl)))).
Defined.

(* ===================================================================== *)
(** ** More on world generation: surfaces, ground search, the first frame *)
(* ===================================================================== *)

Lemma gentle_lookup (hs : list Z) :
  forall prev i a b,
    gentle prev hs -> hs !! i = Some a -> hs !! S i = Some b -> Z.abs (b - a) <= 1.
Proof.
  induction hs as [|h hs IH]; intros prev i a b Hg Ha Hb; [discriminate|].
  destruct Hg as [_ Hg]. destruct i as [|i].
  - simpl in Ha. inversion Ha; subst. destruct hs as [|h' hs]; [discriminate|].
    simpl in Hb. inversion Hb; subst. exact (proj1 Hg).
  - exact (IH h i a b Hg Ha Hb).
Qed.

(** A column has at most one surface row. *)
Lemma column_layered_unique (world : World) (height x s s' : Z) :
  column_layered world height x s -> column_layered world height x s' -> s = s'.
Proof.
  intros (Hg & _ & _ & Ha) (Hg' & _ & _ & Ha').
  pose proof (tile_at_Some _ _ _ _ Hg) as (_ & Hs & _).
  pose proof (tile_at_Some _ _ _ _ Hg') as (_ & Hs' & _).
  destruct (Z.lt_trichotomy s s') as [Hlt|[Heq|Hgt]]; [|exact Heq|].
  - specialize (Ha' s ltac:(lia)). congruence.
  - specialize (Ha s' ltac:(lia)). congruence.
Qed.

(** [random.choice([-1, 0, 1])] returns one of the three steps. *)
Lemma random_choice_step (g g1 : Rng) (d : Z) :
  random_choice (-1) [0; 1] g = (d, g1) -> d = -1 \/ d = 0 \/ d = 1.
Proof.
  unfold random_choice, draw. intros H. inversion H as [[Hd Hg]].
  destruct (Z.to_nat _) as [|[|[|[|n]]]]; simpl; auto.
Qed.

(** The outer loop once more, now with the surface row of every column it
    visits, in order. *)
Lemma fill_columns_heights (width height base : Z) (xs : list Z) :
  0 <= base - 4 -> base + 8 < height ->
  NoDup xs ->
  (forall x, x ∈ xs -> 0 <= x < width) ->
  forall (world : World) (current_height : Z) (g : Rng),
    base - 4 <= current_height <= base + 4 ->
    grid_dims world width height ->
    (forall x y, x ∈ xs -> 0 <= y < height -> tile_at world x y = Some 0) ->
    exists world' g' hs,
      fill_columns world height base current_height xs g = Ok (world', g') /\
      grid_dims world' width height /\
      (forall x y, x ∉ xs -> tile_at world' x y = tile_at world x y) /\
      length hs = length xs /\
      gentle current_height hs /\
      (forall i x s, xs !! i = Some x -> hs !! i = Some s ->
         base - 4 <= s <= base + 4 /\ column_layered world' height x s).
Proof.
  intros Hlow Hhigh. induction xs as [|x xs IH]; intros Hnd Hxs world ch g Hch Hd Hair.
  - exists world, g, []. split; [reflexivity|]. split; [exact Hd|].
    split; [reflexivity|]. split; [reflexivity|]. split; [exact I|].
    intros i x s Hx. destruct i; discriminate.
  - apply NoDup_cons in Hnd as [Hnx Hnd].
    assert (Hx : 0 <= x < width) by (apply Hxs; left).
    cbn [fill_columns].
    destruct (random_choice (-1) [0; 1] g) as [d g1] eqn:Hchoice.
    pose proof (random_choice_step _ _ _ Hchoice) as Hd3.
    set (s := Z.max (base - 4) (Z.min (base + 4) (ch + d))).
    assert (Hs : base - 4 <= s <= base + 4) by (unfold s; lia).
    assert (Hstep : Z.abs (s - ch) <= 1) by (unfold s; lia).
    destruct (fill_column_spec width height x s (range s height) Hx) with (world := world) (g := g1)
      as (world1 & g2 & Hrun & Hd1 & Hframe & Hrows); [|exact Hd|].
    { intros y Hy. apply elem_of_range in Hy. lia. }
    rewrite Hrun. cbn [mbind result_bind].
    destruct (IH Hnd) with (world := world1) (current_height := s) (g := g2)
      as (world' & g' & hs & Hrun' & Hd' & Hframe' & Hlen & Hgentle & Hcols).
    { intros x0 H0. apply Hxs. right. exact H0. }
    { exact Hs. }
    { exact Hd1. }
    { intros x0 y H0 Hy. rewrite Hframe.
      - apply Hair; [right; exact H0 | exact Hy].
      - left. intros ->. contradiction. }
    exists world', g', (s :: hs).
    split; [exact Hrun'|]. split; [exact Hd'|]. split; [|split; [|split]].
    + intros x0 y H0. rewrite Hframe'.
      * apply Hframe. left. intros ->. apply H0. left.
      * intros Hin. apply H0. right. exact Hin.
    + simpl. rewrite Hlen. reflexivity.
    + split; assumption.
    + intros i x0 s0 Hxi Hsi. destruct i as [|i]; [|exact (Hcols i x0 s0 Hxi Hsi)].
      simpl in Hxi, Hsi. inversion Hxi; inversion Hsi; subst x0 s0.
      split; [exact Hs|].
      apply (column_layered_ext world1); [intros y; apply Hframe'; exact Hnx|].
      apply layered_after_fill; try lia.
      * intros y Hy. apply Hrows. apply elem_of_range. lia.
      * intros y Hy. rewrite Hframe.
        -- apply Hair; [left | lia].
        -- right. rewrite elem_of_range. lia.
Qed.

(** [generate_world] on a grid of height 17 or more: it returns, and the
    surface rows of columns 0, 1, 2, ... form a gentle sequence around
    [height // 2], each column layered below its surface. *)
Lemma generate_world_profile (width height : Z) (g : Rng) :
  17 <= height ->
  exists world g' hs,
    generate_world width height g = Ok (world, g') /\
    grid_dims world (Z.max 0 width) height /\
    length hs = Z.to_nat width /\
    gentle (height / 2) hs /\
    (forall i s, hs !! i = Some s ->
       height / 2 - 4 <= s <= height / 2 + 4 /\
       column_layered world height (Z.of_nat i) s).
Proof.
  intros Hheight. unfold generate_world.
  pose proof (Z.div_mod height 2 ltac:(lia)) as Hdiv.
  pose proof (Z.mod_pos_bound height 2 ltac:(lia)) as Hmod.
  destruct (fill_columns_heights (Z.max 0 width) height (height / 2) (range 0 width))
    with (world := replicate (Z.to_nat height) (replicate (Z.to_nat width) 0))
         (current_height := height / 2) (g := g)
    as (world & g' & hs & Hrun & Hd & _ & Hlen & Hgentle & Hcols).
  - lia.
  - lia.
  - apply NoDup_seqZ.
  - intros x Hx. apply elem_of_range in Hx. lia.
  - lia.
  - split.
    + rewrite length_replicate. lia.
    + apply Forall_replicate. rewrite length_replicate. lia.
  - intros x y Hx Hy. apply elem_of_range in Hx. unfold tile_at.
    destruct Hx as [Hx0 Hx1]. destruct Hy as [Hy0 Hy1].
    apply Z.leb_le in Hx0 as Hbx. apply Z.leb_le in Hy0 as Hby.
    rewrite Hbx, Hby. simpl.
    rewrite lookup_replicate_2 by lia. apply lookup_replicate_2. lia.
  - exists world, g', hs. split; [exact Hrun|]. split; [exact Hd|].
    assert (Hlen' : length hs = Z.to_nat width).
    { rewrite Hlen. unfold range. rewrite length_seqZ. lia. }
    split; [exact Hlen'|]. split; [exact Hgentle|].
    intros i s Hs.
    apply (Hcols i (Z.of_nat i) s); [|exact Hs].
    unfold range. apply lookup_seqZ. apply lookup_lt_Some in Hs. lia.
Qed.

(** X1: in a generated grid of height 17 or more the surface rows of
    adjacent columns differ by at most one row, and the surface of column 0
    is within one row of [height // 2]. *)
Theorem X1_adjacent_surfaces (width height : Z) (g : Rng) (Hheight : 17 <= height) :
  exists world g',
    generate_world width height g = Ok (world, g') /\
    (forall x s s', 0 <= x -> x + 1 < width ->
       column_layered world height x s ->
       column_layered world height (x + 1) s' ->
       Z.abs (s' - s) <= 1) /\
    (forall s, 0 < width -> column_layered world height 0 s ->
       Z.abs (s - height / 2) <= 1).
Proof.
  destruct (generate_world_profile width height g Hheight)
    as (world & g' & hs & Hrun & _ & Hlen & Hgentle & Hcols).
  exists world, g'. split; [exact Hrun|]. split.
  - intros x s s' Hx0 Hx1 Hl Hl'.
    destruct (lookup_lt_is_Some_2 hs (Z.to_nat x)) as [a Ha]; [lia|].
    destruct (lookup_lt_is_Some_2 hs (S (Z.to_nat x))) as [b Hb]; [lia|].
    destruct (Hcols _ _ Ha) as [_ Hla]. destruct (Hcols _ _ Hb) as [_ Hlb].
    rewrite Z2Nat.id in Hla by lia.
    replace (Z.of_nat (S (Z.to_nat x))) with (x + 1) in Hlb by lia.
    rewrite (column_layered_unique _ _ _ _ _ Hl Hla).
    rewrite (column_layered_unique _ _ _ _ _ Hl' Hlb).
    exact (gentle_lookup hs _ _ _ _ Hgentle Ha Hb).
  - intros s Hw Hl.
    destruct (lookup_lt_is_Some_2 hs 0%nat) as [a Ha]; [lia|].
    destruct (Hcols _ _ Ha) as [_ Hla]. simpl in Hla.
    rewrite (column_layered_unique _ _ _ _ _ Hl Hla).
    destruct hs as [|h hs]; [discriminate|]. simpl in Ha. inversion Ha; subst.
    exact (proj1 Hgentle).
Qed.

Lemma X1_adjacent_surfaces_witness :
  exists world g',
    generate_world WORLD_WIDTH WORLD_HEIGHT rng_twos = Ok (world, g') /\
    (forall x s s', 0 <= x -> x + 1 < WORLD_WIDTH ->
       column_layered world WORLD_HEIGHT x s ->
       column_layered world WORLD_HEIGHT (x + 1) s' ->
       Z.abs (s' - s) <= 1) /\
    (forall s, 0 < WORLD_WIDTH -> column_layered world WORLD_HEIGHT 0 s ->
       Z.abs (s - WORLD_HEIGHT / 2) <= 1).
Proof.
  apply X1_adjacent_surfaces. vm_compute. discriminate.
Defined.

(** *** The ground search *)

Lemma first_solid_from (world : World) (width height col : Z) :
  grid_dims world width height -> 0 <= col < width ->
  forall (n : nat) (a : Z),
    0 <= a -> a + Z.of_nat n <= height ->
    exists r,
      first_solid world col (seqZ a (Z.of_nat n)) = Ok r /\
      match r with
      | Some y =>
          a <= y < a + Z.of_nat n /\
          (exists tile, tile_at world col y = Some tile /\ tile <> 0) /\
          (forall y', a <= y' < y -> tile_at world col y' = Some 0)
      | None => forall y', a <= y' < a + Z.of_nat n -> tile_at world col y' = Some 0
      end.
Proof.
  intros Hd Hcol. induction n as [|n IH]; intros a Ha Hn.
  - exists None. split; [reflexivity|]. intros y' Hy'. lia.
  - rewrite seqZ_cons by lia. cbn [first_solid].
    destruct (tile_at_in_range world width height col a Hd Hcol ltac:(lia)) as [tile Htile].
    rewrite (world_get_tile_at _ _ _ _ Htile). cbn [mbind result_bind].
    destruct (tile =? 0) eqn:Hz; simpl.
    + apply Z.eqb_eq in Hz. subst tile.
      replace (Z.pred (Z.of_nat (S n))) with (Z.of_nat n) by lia.
      destruct (IH (Z.succ a) ltac:(lia) ltac:(lia)) as (r & Hr & Hspec).
      exists r. split; [exact Hr|]. destruct r as [y|].
      * destruct Hspec as (Hy & Ht & Habove). split; [lia|]. split; [exact Ht|].
        intros y' Hy'. destruct (decide (y' = a)) as [->|Hne]; [exact Htile|].
        apply Habove. lia.
      * intros y' Hy'. destruct (decide (y' = a)) as [->|Hne]; [exact Htile|].
        apply Hspec. lia.
    + apply Z.eqb_neq in Hz. exists (Some a). split; [reflexivity|].
      split; [lia|]. split; [eauto|]. intros y' Hy'. lia.
Qed.

(** X2: on the game's grid the ground search of a column inside the world
    never raises and finds the topmost solid row: the row it returns holds a
    solid tile and every row above it is air; it returns nothing exactly
    when the whole column is air. *)
Theorem X2_first_solid_topmost (world : World) (col : Z)
    (Hwf : wf_world world) (Hcol : 0 <= col < WORLD_WIDTH) :
  exists r,
    first_solid world col (range 0 WORLD_HEIGHT) = Ok r /\
    match r with
    | Some y =>
        0 <= y < WORLD_HEIGHT /\
        (exists tile, tile_at world col y = Some tile /\ tile <> 0) /\
        (forall y', 0 <= y' < y -> tile_at world col y' = Some 0)
    | None => forall y', 0 <= y' < WORLD_HEIGHT -> tile_at world col y' = Some 0
    end.
Proof.
  exact (first_solid_from world _ _ col Hwf Hcol 60 0 ltac:(lia) ltac:(reflexivity)).
Qed.

Lemma X2_first_solid_topmost_witness :
  exists r,
    first_solid flat_world 5 (range 0 WORLD_HEIGHT) = Ok r /\
    match r with
    | Some y =>
        0 <= y < WORLD_HEIGHT /\
        (exists tile, tile_at flat_world 5 y = Some tile /\ tile <> 0) /\
        (forall y', 0 <= y' < y -> tile_at flat_world 5 y' = Some 0)
    | None => forall y', 0 <= y' < WORLD_HEIGHT -> tile_at flat_world 5 y' = Some 0
    end.
Proof.
  apply (X2_first_solid_topmost flat_world 5 flat_world_wf). unfold WORLD_WIDTH. lia.
Defined.

(** The ground search in a layered column returns its surface row. *)
Lemma first_solid_layered (world : World) (col s : Z) :
  wf_world world -> 0 <= col < WORLD_WIDTH ->
  column_layered world WORLD_HEIGHT col s ->
  first_solid world col (range 0 WORLD_HEIGHT) = Ok (Some s).
Proof.
  intros Hwf Hcol (Hg & _ & _ & Hair).
  destruct (first_solid_from world _ _ col Hwf Hcol 60 0 ltac:(lia) ltac:(reflexivity))
    as (r & Hr & Hspec).
  unfold range. change (WORLD_HEIGHT - 0) with (Z.of_nat 60). rewrite Hr.
  pose proof (tile_at_Some _ _ _ _ Hg) as (_ & Hs0 & row & Hrow & _).
  apply lookup_lt_Some in Hrow. destruct Hwf as [Hlen _].
  unfold WORLD_HEIGHT in Hlen.
  destruct r as [y|].
  - destruct Hspec as (Hy & (tile & Ht & Hne) & Habove).
    destruct (Z.lt_trichotomy y s) as [Hlt|[->|Hgt]]; [|reflexivity|].
    + specialize (Hair y ltac:(lia)). congruence.
    + specialize (Habove s ltac:(lia)). congruence.
  - specialize (Hspec s ltac:(lia)). congruence.
Qed.

(** X3: [init_game] succeeds for every random stream.  The grid it makes is
    the game's 60 x 100 grid; column 5 is layered below a surface row
    between 26 and 34, and the player is created with the bottom edge of
    its 32 x 48 rectangle exactly on top of that surface tile, at x = 144;
    there is no enemy, no boss, and the clock is at 0. *)
Theorem X3_init_game (g : Rng) :
  exists st s,
    init_game g = Ok st /\
    wf_world (Game.world st) /\
    26 <= s <= 34 /\
    column_layered (Game.world st) WORLD_HEIGHT 5 s /\
    Game.player st = Player.init (5 * TILE_SIZE) (s * TILE_SIZE) /\
    rect (Player.body (Game.player st)) = Rect.mk 144 (s * TILE_SIZE - 48) 32 48 /\
    Rect.bottom (rect (Player.body (Game.player st))) = s * TILE_SIZE /\
    Game.enemies st = [] /\ Game.boss st = None /\
    Game.boss_spawned st = false /\ Game.boss_defeated st = false /\
    Game.time_of_day st = 0 /\ Game.day_count st = 0 /\
    Game.camera st = None /\ Game.running st = true.
Proof.
  destruct (generate_world_profile WORLD_WIDTH WORLD_HEIGHT g ltac:(vm_compute; discriminate))
    as (world & g' & hs & Hrun & Hd & Hlen & _ & Hcols).
  destruct (lookup_lt_is_Some_2 hs 5%nat) as [s Hs].
  { rewrite Hlen. vm_compute. lia. }
  destruct (Hcols _ _ Hs) as [Hband Hlay].
  change (Z.of_nat 5) with 5 in Hlay.
  change (WORLD_HEIGHT / 2 - 4) with 26 in Hband.
  change (WORLD_HEIGHT / 2 + 4) with 34 in Hband.
  change (Z.max 0 WORLD_WIDTH) with WORLD_WIDTH in Hd.
  assert (Hfound : first_solid world 5 (range 0 WORLD_HEIGHT) = Ok (Some s))
    by (apply first_solid_layered; [exact Hd | unfold WORLD_WIDTH; lia | exact Hlay]).
  exists (Game.mk world (Player.init (5 * TILE_SIZE) (s * TILE_SIZE))
            [] 0 None false false 0 0 None None true g'), s.
  split.
  { unfold init_game. rewrite Hrun. cbn [mbind result_bind].
    rewrite Hfound. reflexivity. }
  simpl. split; [exact Hd|]. split; [exact Hband|]. split; [exact Hlay|].
  split; [reflexivity|]. split; [reflexivity|].
  unfold Rect.bottom, Rect.set_bottom, Rect.set_centerx, Rect.set_x, Rect.set_y. simpl.
  split; [lia|]. repeat split.
Qed.

(** *** Small grids *)

Lemma py_index_ok (len : nat) (i : Z) :
  - Z.of_nat len <= i < Z.of_nat len ->
  exists n, py_index len i = Ok n /\ (n < len)%nat.
Proof.
  intros Hi. unfold py_index.
  destruct ((0 <=? i) && (i <? Z.of_nat len)) eqn:Hpos.
  - apply andb_true_iff in Hpos as [H0 H1].
    apply Z.leb_le in H0. apply Z.ltb_lt in H1.
    exists (Z.to_nat i). split; [reflexivity | lia].
  - assert (Hneg : i < 0).
    { apply andb_false_iff in Hpos as [H|H];
        [apply Z.leb_gt in H | apply Z.ltb_ge in H]; lia. }
    assert (Hb : (- Z.of_nat len <=? i) && (i <? 0) = true).
    { apply andb_true_iff. split; [apply Z.leb_le | apply Z.ltb_lt]; lia. }
    rewrite Hb. exists (Z.to_nat (i + Z.of_nat len)). split; [reflexivity | lia].
Qed.

(** Writing through any index Python accepts, negative ones included, keeps
    the dimensions and any property of the tiles that the new tile has. *)
Lemma world_set_py (P : Z -> Prop) (world : World) (width height x y v : Z) :
  grid_dims world width height -> all_tiles P world -> P v ->
  - height <= y < height -> 0 <= x < width ->
  exists world',
    world_set world y x v = Ok world' /\
    grid_dims world' width height /\ all_tiles P world'.
Proof.
  intros [Hlen Hrows] Hall Hv Hy Hx. unfold world_set, getitem, setitem.
  destruct (py_index_ok (length world) y ltac:(lia)) as (n & Hn & Hlt).
  rewrite Hn. cbn [mbind result_bind].
  destruct (lookup_lt_is_Some_2 world n Hlt) as [row Hrow]. rewrite Hrow.
  pose proof (proj1 (Forall_lookup _ _) Hrows n row Hrow) as Hrowlen.
  simpl in Hrowlen.
  cbn [mbind result_bind].
  rewrite py_index_in_range by lia. cbn [mbind result_bind].
  eexists. split; [reflexivity|]. split; [split|].
  - rewrite length_insert. exact Hlen.
  - apply Forall_insert; [exact Hrows|]. rewrite length_insert. exact Hrowlen.
  - apply Forall_insert; [exact Hall|].
    apply Forall_insert; [|exact Hv].
    exact (proj1 (Forall_lookup _ _) Hall n row Hrow).
Qed.

Lemma fill_column_total (width height x current_height : Z) (ys : list Z) :
  0 <= x < width ->
  (forall y, y ∈ ys -> - height <= y < height) ->
  forall (world : World) (g : Rng),
    grid_dims world width height ->
    all_tiles (fun t => 0 <= t <= 4) world ->
    exists world' g',
      fill_column world x current_height ys g = Ok (world', g') /\
      grid_dims world' width height /\
      all_tiles (fun t => 0 <= t <= 4) world'.
Proof.
  intros Hx. induction ys as [|y ys IH]; intros Hys world g Hd Hall.
  - exists world, g. auto.
  - assert (Hy : - height <= y < height) by (apply Hys; left).
    assert (Hys' : forall y0, y0 ∈ ys -> - height <= y0 < height)
      by (intros y0 H0; apply Hys; right; exact H0).
    assert (Hstep : exists tile g1,
              0 <= tile <= 4 /\
              fill_column world x current_height (y :: ys) g =
              (world_set world y x tile ≫= fun world' =>
                 fill_column world' x current_height ys g1)).
    { cbn [fill_column].
      destruct (y =? current_height); [exists 2, g; split; [lia | reflexivity]|].
      destruct (y <? current_height + 5); [exists 1, g; split; [lia | reflexivity]|].
      destruct (random_random g) as [u g1].
      destruct (u <? 0.05)%float;
        [exists 4, g1 | exists 3, g1]; (split; [lia | reflexivity]). }
    destruct Hstep as (tile & g1 & Htile & ->).
    destruct (world_set_py (fun t => 0 <= t <= 4) world width height x y tile
                Hd Hall Htile Hy Hx) as (world1 & Hset & Hd1 & Hall1).
    rewrite Hset. cbn [mbind result_bind].
    exact (IH Hys' world1 g1 Hd1 Hall1).
Qed.

Lemma fill_columns_total (width height base : Z) (xs : list Z) :
  - height <= base - 4 ->
  (forall x, x ∈ xs -> 0 <= x < width) ->
  forall (world : World) (current_height : Z) (g : Rng),
    grid_dims world width height ->
    all_tiles (fun t => 0 <= t <= 4) world ->
    exists world' g',
      fill_columns world height base current_height xs g = Ok (world', g') /\
      grid_dims world' width height /\
      all_tiles (fun t => 0 <= t <= 4) world'.
Proof.
  intros Hlow. induction xs as [|x xs IH]; intros Hxs world ch g Hd Hall.
  - exists world, g. auto.
  - cbn [fill_columns].
    destruct (random_choice (-1) [0; 1] g) as [d g1].
    set (s := Z.max (base - 4) (Z.min (base + 4) (ch + d))).
    destruct (fill_column_total width height x s (range s height))
      with (world := world) (g := g1) as (world1 & g2 & Hrun & Hd1 & Hall1).
    + apply Hxs. left.
    + intros y Hy. apply elem_of_range in Hy. unfold s in Hy. lia.
    + exact Hd.
    + exact Hall.
    + rewrite Hrun. cbn [mbind result_bind].
      apply IH; [|assumption..].
      intros x0 H0. apply Hxs. right. exact H0.
Qed.

(** X4: for every width, every height of at least 3 and every random
    stream, [generate_world] returns without raising a grid of [height] rows
    of [width] tiles that holds only the ids 0 to 4 (air, dirt, grass,
    stone, ore; never wood).  Below height 3 it can raise: a 4 x 2 grid
    with four downward surface steps indexes row -3 of a two-row list. *)
Theorem X4_generate_world_total (width height : Z) (g : Rng) (Hheight : 3 <= height) :
  (exists world g',
     generate_world width height g = Ok (world, g') /\
     grid_dims world (Z.max 0 width) height /\
     all_tiles (fun t => 0 <= t <= 4) world) /\
  generate_world 4 2 rng_zeros = Raise IndexError.
Proof.
  split; [|vm_compute; reflexivity].
  unfold generate_world.
  pose proof (Z.div_mod height 2 ltac:(lia)) as Hdiv.
  pose proof (Z.mod_pos_bound height 2 ltac:(lia)) as Hmod.
  apply fill_columns_total.
  - lia.
  - intros x Hx. apply elem_of_range in Hx. lia.
  - split.
    + rewrite length_replicate. lia.
    + apply Forall_replicate. rewrite length_replicate. lia.
  - apply Forall_replicate, Forall_replicate. lia.
Qed.

Lemma X4_generate_world_total_witness :
  (exists world g',
     generate_world 2 3 rng_zeros = Ok (world, g') /\
     grid_dims world (Z.max 0 2) 3 /\
     all_tiles (fun t => 0 <= t <= 4) world) /\
  generate_world 4 2 rng_zeros = Raise IndexError.
Proof.
  apply X4_generate_world_total. lia.
Defined.

(** *** Columns outside the world *)

Lemma getitem_outside {A : Type} (l : list A) (i : Z) :
  Z.of_nat (length l) <= i \/ i < - Z.of_nat (length l) ->
  getitem l i = Raise IndexError.
Proof.
  intros Hi. unfold getitem, py_index.
  assert (H1 : (0 <=? i) && (i <? Z.of_nat (length l)) = false).
  { apply andb_false_iff. destruct Hi; [right; apply Z.ltb_ge | left; apply Z.leb_gt]; lia. }
  assert (H2 : (- Z.of_nat (length l) <=? i) && (i <? 0) = false).
  { apply andb_false_iff. destruct Hi; [right; apply Z.ltb_ge | left; apply Z.leb_gt]; lia. }
  rewrite H1, H2. reflexivity.
Qed.

Lemma getitem_wrap {A : Type} (l : list A) (i : Z) :
  - Z.of_nat (length l) <= i < 0 ->
  getitem l i = getitem l (i + Z.of_nat (length l)).
Proof.
  intros Hi. unfold getitem, py_index.
  assert (H1 : (0 <=? i) && (i <? Z.of_nat (length l)) = false).
  { apply andb_false_iff. left. apply Z.leb_gt. lia. }
  assert (H2 : (- Z.of_nat (length l) <=? i) && (i <? 0) = true).
  { apply andb_true_iff. split; [apply Z.leb_le | apply Z.ltb_lt]; lia. }
  assert (H3 : (0 <=? i + Z.of_nat (length l))
               && (i + Z.of_nat (length l) <? Z.of_nat (length l)) = true).
  { apply andb_true_iff. split; [apply Z.leb_le | apply Z.ltb_lt]; lia. }
  rewrite H1, H2, H3. reflexivity.
Qed.

Lemma world_get_outside (world : World) (y col : Z) :
  wf_world world -> 0 <= y < WORLD_HEIGHT ->
  WORLD_WIDTH <= col \/ col < - WORLD_WIDTH ->
  world_get world y col = Raise IndexError.
Proof.
  intros Hwf Hy Hcol.
  destruct (grid_dims_row _ _ _ _ Hwf Hy) as (row & Hrow & Hlen).
  unfold world_get. rewrite (getitem_in_range _ _ row) by (lia || exact Hrow).
  cbn [mbind result_bind]. apply getitem_outside. lia.
Qed.

Lemma world_get_wrap (world : World) (y col : Z) :
  wf_world world -> 0 <= y < WORLD_HEIGHT -> - WORLD_WIDTH <= col < 0 ->
  world_get world y col = world_get world y (col + WORLD_WIDTH).
Proof.
  intros Hwf Hy Hcol.
  destruct (grid_dims_row _ _ _ _ Hwf Hy) as (row & Hrow & Hlen).
  unfold world_get. rewrite (getitem_in_range _ _ row) by (lia || exact Hrow).
  cbn [mbind result_bind]. rewrite <- Hlen. apply getitem_wrap. lia.
Qed.

Lemma first_solid_wrap (world : World) (col : Z) (ys : list Z) :
  wf_world world -> - WORLD_WIDTH <= col < 0 ->
  (forall y, y ∈ ys -> 0 <= y < WORLD_HEIGHT) ->
  first_solid world col ys = first_solid world (col + WORLD_WIDTH) ys.
Proof.
  intros Hwf Hcol. induction ys as [|y ys IH]; intros Hys; [reflexivity|].
  cbn [first_solid].
  rewrite world_get_wrap by (try assumption; apply Hys; left).
  destruct (world_get world y (col + WORLD_WIDTH)) as [tile|e]; [|reflexivity].
  cbn [mbind result_bind]. destruct (negb (tile =? 0)); [reflexivity|].
  apply IH. intros y0 H0. apply Hys. right. exact H0.
Qed.

(** X5: the boss-spawning step when the ore threshold is reached and the
    boss has not spawned.  With the player's centre column inside the world
    the boss is created centred on the player, standing on the topmost
    solid row of that column (row 0 if the column is all air).  With the
    centre column at -1 down to -WORLD_WIDTH the ground search wraps around
    and uses column + WORLD_WIDTH.  With the centre column at WORLD_WIDTH or
    beyond, or below -WORLD_WIDTH, the step raises IndexError. *)
Theorem X5_spawn_boss_columns (st : Game.t) (player : Player.t) (ore : Z)
    (Hwf : wf_world (Game.world st))
    (Hspawned : Game.boss_spawned st = false)
    (Hore : Player.inventory player !! "ore" = Some ore)
    (Hge : BOSS_SPAWN_ORE_COUNT <= ore) :
  let bx := Rect.centerx (rect (Player.body player)) in
  let gx := bx / TILE_SIZE in
  (0 <= gx < WORLD_WIDTH ->
   exists found,
     first_solid (Game.world st) gx (range 0 WORLD_HEIGHT) = Ok found /\
     spawn_boss st player = Ok (Some (Boss.init bx (default 0 found * TILE_SIZE)), true)) /\
  (- WORLD_WIDTH <= gx < 0 ->
   exists found,
     first_solid (Game.world st) (gx + WORLD_WIDTH) (range 0 WORLD_HEIGHT) = Ok found /\
     spawn_boss st player = Ok (Some (Boss.init bx (default 0 found * TILE_SIZE)), true)) /\
  (WORLD_WIDTH <= gx \/ gx < - WORLD_WIDTH ->
   spawn_boss st player = Raise IndexError) /\
  (forall x y, rect (Boss.init x y) = Rect.mk (x - 64) (y - 128) 128 128 /\
               Rect.centerx (rect (Boss.init x y)) = x /\
               Rect.bottom (rect (Boss.init x y)) = y /\
               health (Boss.init x y) = 250).
Proof.
  intros bx gx.
  assert (Hdef : spawn_boss st player =
                 (first_solid (Game.world st) gx (range 0 WORLD_HEIGHT) ≫= fun found =>
                    Ok (Some (Boss.init bx (default 0 found * TILE_SIZE)), true))).
  { unfold spawn_boss. rewrite Hspawned, Hore. simpl negb. cbv iota.
    apply Z.leb_le in Hge. rewrite Hge. reflexivity. }
  rewrite Hdef. split; [|split; [|split]].
  - intros Hgx.
    destruct (first_solid_from (Game.world st) _ _ gx Hwf Hgx 60 0
                ltac:(lia) ltac:(reflexivity)) as (r & Hr & _).
    exists r. unfold range. change (WORLD_HEIGHT - 0) with (Z.of_nat 60).
    rewrite Hr. auto.
  - intros Hgx.
    assert (Hin : 0 <= gx + WORLD_WIDTH < WORLD_WIDTH) by lia.
    destruct (first_solid_from (Game.world st) _ _ _ Hwf Hin 60 0
                ltac:(lia) ltac:(reflexivity)) as (r & Hr & _).
    exists r. rewrite (first_solid_wrap _ gx); try assumption.
    + unfold range. change (WORLD_HEIGHT - 0) with (Z.of_nat 60). rewrite Hr. auto.
    + intros y Hy. apply elem_of_range in Hy. exact Hy.
  - intros Hgx. unfold range. change (WORLD_HEIGHT - 0) with (Z.of_nat 60).
    rewrite seqZ_cons by lia. cbn [first_solid].
    rewrite world_get_outside; [reflexivity | exact Hwf | unfold WORLD_HEIGHT; lia | exact Hgx].
  - intros x y. unfold Boss.init, Rect.centerx, Rect.bottom, Rect.set_bottom,
      Rect.set_centerx, Rect.set_x, Rect.set_y. simpl. repeat split; try lia.
Qed.

Lemma X5_spawn_boss_columns_witness :
  spawn_boss ore_rich_start player_right_of_world = Raise IndexError.
Proof.
  refine (proj1 (proj2 (proj2 (X5_spawn_boss_columns ore_rich_start
                    player_right_of_world 10 flat_world_wf eq_refl eq_refl _))) _).
  - unfold BOSS_SPAWN_ORE_COUNT. lia.
  - left. vm_compute. discriminate.
Defined.

(* ===================================================================== *)
(** ** Frames and runs                                                    *)
(* ===================================================================== *)

(** *** The outline of a frame *)

Lemma mine_block_player (world world' : World) (camera mouse_pos : Z * Z)
    (p p' : Player.t) :
  Player.mine_block world camera mouse_pos p = Ok (world', p') ->
  Player.body p' = Player.body p /\ Player.selected p' = Player.selected p.
Proof.
  unfold Player.mine_block. destruct mouse_pos as [mx my]. intros H.
  repeat match type of H with
         | (if ?c then _ else _) = _ => destruct c
         | (_ ≫= _) = Ok _ => apply bind_Ok in H as (? & _ & H)
         end; inversion H; auto.
Qed.

Lemma place_block_player (world world' : World) (camera mouse_pos : Z * Z)
    (p p' : Player.t) :
  Player.place_block world camera mouse_pos p = Ok (world', p') ->
  Player.body p' = Player.body p /\ Player.selected p' = Player.selected p.
Proof.
  unfold Player.place_block. destruct mouse_pos as [mx my]. intros H.
  repeat match type of H with
         | (if ?c then _ else _) = _ => destruct c
         | (_ ≫= _) = Ok _ => apply bind_Ok in H as (? & _ & H)
         end; inversion H; auto.
Qed.

Lemma handle_event_beyond (st st' : Game.t) (ev : Event) :
  handle_event st ev = Ok st' -> beyond_events st' = beyond_events st.
Proof.
  destruct ev as [|button pos|]; simpl; intros H.
  - inversion H. reflexivity.
  - destruct ((button =? 1) || (button =? 3)); [|inversion H; reflexivity].
    destruct (Game.camera st) as [cam|] eqn:Hcam; [|discriminate].
    apply bind_Ok in H as ([world player] & Hact & H). inversion H.
    assert (Hp : Player.body player = Player.body (Game.player st) /\
                 Player.selected player = Player.selected (Game.player st)).
    { destruct (button =? 1);
        [eapply mine_block_player | eapply place_block_player]; exact Hact. }
    destruct Hp as [Hb Hs]. unfold beyond_events. simpl.
    rewrite Hb, Hs, Hcam. reflexivity.
  - inversion H. reflexivity.
Qed.

Lemma handle_events_beyond (evs : list Event) :
  forall st st', handle_events st evs = Ok st' -> beyond_events st' = beyond_events st.
Proof.
  induction evs as [|ev evs IH]; intros st st' H.
  - inversion H. reflexivity.
  - cbn [handle_events] in H. apply bind_Ok in H as (st1 & H1 & H).
    rewrite (IH _ _ H). exact (handle_event_beyond _ _ _ H1).
Qed.

(** A frame, step by step. *)
Lemma tick_outline (inp : Input) (st st' : Game.t) :
  tick inp st = Ok st' ->
  exists st1 p1 es1 timer sy g1 b sp es2 p2 g2 b' d' p3 g3,
    handle_events st (events inp) = Ok st1 /\
    Player.update (Game.world st1)
      (Player.handle_input (keys inp) (Game.player st1)) = Ok p1 /\
    spawn_enemies st1 (next_time (Game.time_of_day st1)) p1 (Game.rng st1)
      = Ok (es1, timer, sy, g1) /\
    spawn_boss st1 p1 = Ok (b, sp) /\
    update_enemies (Game.world st1) es1 p1 g1 = Ok (es2, p2, g2) /\
    update_boss st1 b p2 g2 = Ok (b', d', p3, g3) /\
    st' = Game.mk (Game.world st1) p3 es2 timer b' sp d'
            (next_time (Game.time_of_day st1))
            (next_day (Game.time_of_day st1) (Game.day_count st1))
            (Some (camera_of (rect (Player.body p1)))) sy
            (if health (Player.body p3) <=? 0 then false else Game.running st1) g3.
Proof.
  unfold tick, next_time, next_day. intros H.
  apply bind_Ok in H as (st1 & Hev & H).
  apply bind_Ok in H as (p1 & Hup & H).
  destruct (DAY_LENGTH <=? Game.time_of_day st1 + 1) eqn:Hday;
    apply bind_Ok in H as ([[[es1 timer] sy] g1] & Hse & H);
    apply bind_Ok in H as ([b sp] & Hsb & H);
    apply bind_Ok in H as ([[es2 p2] g2] & Hen & H);
    apply bind_Ok in H as ([[[b' d'] p3] g3] & Hub & H);
    inversion H; subst;
    exists st1, p1, es1, timer, sy, g1, b, sp, es2, p2, g2, b', d', p3, g3;
    rewrite Hday;
    repeat (split; [assumption|]); reflexivity.
Qed.

(** The first frame of a run. *)
Lemma run_step (inp : Input) (inputs : list Input) (st : Game.t) (i : nat) (a : Game.t) :
  run (inp :: inputs) st !! i = Some a ->
  exists st', Game.running st = true /\ tick inp st = Ok st' /\
    match i with
    | O => a = st'
    | S j => run inputs st' !! j = Some a
    end.
Proof.
  cbn [run]. intros H.
  destruct (Game.running st); [|discriminate].
  destruct (tick inp st) as [st'|e]; [|discriminate].
  exists st'. split; [reflexivity|]. split; [reflexivity|].
  destruct i; simpl in H; [inversion H; reflexivity | exact H].
Qed.

(** A property that every frame of a running game keeps holds along every
    run. *)
Lemma run_invariant (P : Game.t -> Prop) :
  (forall inp st st', Game.running st = true -> P st -> tick inp st = Ok st' -> P st') ->
  forall inputs st, P st -> forall i a, run inputs st !! i = Some a -> P a.
Proof.
  intros Hstep inputs. induction inputs as [|inp inputs IH]; intros st HP i a Ha.
  - discriminate.
  - apply run_step in Ha as (st' & Hr & Ht & Ha).
    pose proof (Hstep _ _ _ Hr HP Ht) as HP'.
    destruct i; [subst; exact HP' | exact (IH _ HP' _ _ Ha)].
Qed.

(** *** The clock *)

Lemma tick_clock (inp : Input) (st st' : Game.t) :
  tick inp st = Ok st' ->
  Game.time_of_day st' = next_time (Game.time_of_day st) /\
  Game.day_count st' = next_day (Game.time_of_day st) (Game.day_count st).
Proof.
  intros H.
  apply tick_outline in H
    as (st1 & p1 & es1 & timer & sy & g1 & b & sp & es2 & p2 & g2 & b' & d' & p3 & g3
        & Hev & _ & _ & _ & _ & _ & ->).
  apply handle_events_beyond in Hev. unfold beyond_events in Hev.
  inversion Hev. simpl. auto.
Qed.

Lemma run_clock (inputs : list Input) :
  forall st i a,
    0 <= Game.time_of_day st < DAY_LENGTH ->
    run inputs st !! i = Some a ->
    0 <= Game.time_of_day a < DAY_LENGTH /\
    Game.day_count a * DAY_LENGTH + Game.time_of_day a =
      Game.day_count st * DAY_LENGTH + Game.time_of_day st + (Z.of_nat i + 1).
Proof.
  induction inputs as [|inp inputs IH]; intros st i a Htod Ha; [discriminate|].
  apply run_step in Ha as (st' & _ & Ht & Ha).
  apply tick_clock in Ht as [Ht Hd].
  assert (Hstep : 0 <= Game.time_of_day st' < DAY_LENGTH /\
                  Game.day_count st' * DAY_LENGTH + Game.time_of_day st' =
                    Game.day_count st * DAY_LENGTH + Game.time_of_day st + 1).
  { rewrite Ht, Hd. unfold next_time, next_day, DAY_LENGTH in *.
    destruct (60 * 20 <=? Game.time_of_day st + 1) eqn:Hw;
      [apply Z.leb_le in Hw | apply Z.leb_gt in Hw]; lia. }
  destruct i as [|j].
  - subst a. simpl. exact Hstep.
  - destruct (IH _ _ _ (proj1 Hstep) Ha) as [Hr He]. split; [exact Hr|]. lia.
Qed.

(** X6: the clock along a run.  Started with [time_of_day] inside the day,
    the frame of index [i] (the first frame has index 0) shows the start
    time advanced by [i + 1] frames: [time_of_day] is that count modulo
    DAY_LENGTH, always inside [0, DAY_LENGTH), and [day_count] has grown by
    the number of whole days in it. *)
Theorem X6_clock_along_run (inputs : list Input) (st0 : Game.t)
    (Htod : 0 <= Game.time_of_day st0 < DAY_LENGTH) :
  forall i st, run inputs st0 !! i = Some st ->
    let elapsed := Game.time_of_day st0 + Z.of_nat i + 1 in
    Game.time_of_day st = elapsed mod DAY_LENGTH /\
    Game.day_count st = Game.day_count st0 + elapsed / DAY_LENGTH /\
    0 <= Game.time_of_day st < DAY_LENGTH.
Proof.
  intros i st Hst elapsed.
  destruct (run_clock inputs st0 i st Htod Hst) as [Hr He].
  assert (Hq : elapsed = (Game.day_count st - Game.day_count st0) * DAY_LENGTH
                         + Game.time_of_day st) by (unfold elapsed; lia).
  assert (Hpos : 0 < DAY_LENGTH) by (unfold DAY_LENGTH; lia).
  rewrite Hq.
  rewrite Z.add_comm, Z.mod_add, Z.div_add by lia.
  rewrite Z.mod_small, Z.div_small by exact Hr.
  split; [reflexivity|]. split; [lia | exact Hr].
Qed.

Lemma X6_clock_along_run_witness :
  Game.time_of_day <$> run two_idle_frames ore_rich_start = [1; 2] /\
  forall i st, run two_idle_frames ore_rich_start !! i = Some st ->
    let elapsed := Game.time_of_day ore_rich_start + Z.of_nat i + 1 in
    Game.time_of_day st = elapsed mod DAY_LENGTH /\
    Game.day_count st = Game.day_count ore_rich_start + elapsed / DAY_LENGTH /\
    0 <= Game.time_of_day st < DAY_LENGTH.
Proof.
  split; [vm_compute; reflexivity|].
  apply (X6_clock_along_run two_idle_frames ore_rich_start).
  unfold DAY_LENGTH. simpl. lia.
Defined.

(** *** Enemy spawning *)

Lemma next_time_range (time_of_day : Z) :
  0 <= time_of_day < DAY_LENGTH -> 0 <= next_time time_of_day < DAY_LENGTH.
Proof.
  unfold next_time, DAY_LENGTH. intros H.
  destruct (60 * 20 <=? time_of_day + 1) eqn:Hw;
    [apply Z.leb_le in Hw | apply Z.leb_gt in Hw]; lia.
Qed.

Lemma update_enemies_length (world : World) (es : list Sprite) :
  forall player g rest player' g',
    update_enemies world es player g = Ok (rest, player', g') ->
    (length rest <= length es)%nat.
Proof.
  induction es as [|e es IH]; intros player g rest player' g' H.
  - inversion H. reflexivity.
  - cbn [update_enemies] in H.
    apply bind_Ok in H as ([e1 g1] & _ & H).
    apply bind_Ok in H as ([[rest1 p1] g2] & Hrest & H).
    apply IH in Hrest. inversion H; subst.
    destruct (_ || _); simpl; lia.
Qed.

Lemma tick_no_spawn (inp : Input) (st st' : Game.t) :
  0 <= Game.time_of_day st < DAY_LENGTH ->
  tick inp st = Ok st' ->
  0 <= Game.time_of_day st' < DAY_LENGTH /\
  Game.enemy_spawn_timer st' = Game.enemy_spawn_timer st /\
  Game.spawn_y st' = Game.spawn_y st /\
  (length (Game.enemies st') <= length (Game.enemies st))%nat.
Proof.
  intros Htod H.
  apply tick_outline in H
    as (st1 & p1 & es1 & timer & sy & g1 & b & sp & es2 & p2 & g2 & b' & d' & p3 & g3
        & Hev & _ & Hse & _ & Hen & _ & ->).
  apply handle_events_beyond in Hev. unfold beyond_events in Hev.
  inversion Hev as [[Hbody Hsel Hes Htimer Hboss Hsp Hdef Ht Hd Hcam Hsy Hrng]].
  rewrite Ht in Hse |- *. simpl.
  pose proof (next_time_range _ Htod) as Hnext.
  unfold spawn_enemies in Hse. rewrite (is_night_never _ Hnext) in Hse.
  simpl in Hse. inversion Hse; subst.
  apply update_enemies_length in Hen.
  assert (Hlen : length (Game.enemies st1) = length (Game.enemies st)) by congruence.
  split; [exact Hnext|]. split; [congruence|]. split; [congruence | lia].
Qed.

(** X7: enemies never spawn.  The brightness the loop computes is never
    below 0.5, so the night test fails in every frame: along every run
    started inside the day the spawn timer and [spawn_y] keep their start
    values and the enemy group never grows; an empty group stays empty. *)
Theorem X7_no_enemy_ever_spawns (inputs : list Input) (st0 : Game.t)
    (Htod : 0 <= Game.time_of_day st0 < DAY_LENGTH) :
  forall i st, run inputs st0 !! i = Some st ->
    Game.enemy_spawn_timer st = Game.enemy_spawn_timer st0 /\
    Game.spawn_y st = Game.spawn_y st0 /\
    (length (Game.enemies st) <= length (Game.enemies st0))%nat /\
    (Game.enemies st0 = [] -> Game.enemies st = []).
Proof.
  intros i st Hst.
  assert (H : 0 <= Game.time_of_day st < DAY_LENGTH /\
              Game.enemy_spawn_timer st = Game.enemy_spawn_timer st0 /\
              Game.spawn_y st = Game.spawn_y st0 /\
              (length (Game.enemies st) <= length (Game.enemies st0))%nat).
  { apply (run_invariant
             (fun st => 0 <= Game.time_of_day st < DAY_LENGTH /\
                        Game.enemy_spawn_timer st = Game.enemy_spawn_timer st0 /\
                        Game.spawn_y st = Game.spawn_y st0 /\
                        (length (Game.enemies st) <= length (Game.enemies st0))%nat))
      with (inputs := inputs) (st := st0) (i := i); [|auto|exact Hst].
    intros inp a a' _ (Ha & Htimer & Hsy & Hlen) Ht.
    destruct (tick_no_spawn _ _ _ Ha Ht) as (Ha' & Htimer' & Hsy' & Hlen').
    split; [exact Ha'|]. split; [congruence|]. split; [congruence | lia]. }
  destruct H as (_ & Htimer & Hsy & Hlen).
  split; [exact Htimer|]. split; [exact Hsy|]. split; [exact Hlen|].
  intros Hnil. rewrite Hnil in Hlen. simpl in Hlen.
  destruct (Game.enemies st); [reflexivity | simpl in Hlen; lia].
Qed.

Lemma X7_no_enemy_ever_spawns_witness :
  length (run two_idle_frames ore_rich_start) = 2%nat /\
  forall i st, run two_idle_frames ore_rich_start !! i = Some st ->
    Game.enemy_spawn_timer st = Game.enemy_spawn_timer ore_rich_start /\
    Game.spawn_y st = Game.spawn_y ore_rich_start /\
    (length (Game.enemies st) <= length (Game.enemies ore_rich_start))%nat /\
    (Game.enemies ore_rich_start = [] -> Game.enemies st = []).
Proof.
  split; [vm_compute; reflexivity|].
  apply (X7_no_enemy_ever_spawns two_idle_frames ore_rich_start).
  unfold DAY_LENGTH. simpl. lia.
Defined.

(** *** The boss is never hurt *)

Lemma tick_boss_health (inp : Input) (st st' : Game.t) :
  tick inp st = Ok st' ->
  Game.boss_defeated st = false ->
  (forall b, Game.boss st = Some b -> health b = 250) ->
  Game.boss_defeated st' = false /\
  (forall b, Game.boss st' = Some b -> health b = 250) /\
  (is_Some (Game.boss st) -> is_Some (Game.boss st')).
Proof.
  intros H Hdef Hhealth.
  apply tick_outline in H
    as (st1 & p1 & es1 & timer & sy & g1 & b & sp & es2 & p2 & g2 & b' & d' & p3 & g3
        & Hev & _ & _ & Hsb & _ & Hub & ->).
  apply handle_events_beyond in Hev. unfold beyond_events in Hev.
  inversion Hev as [[Hbody Hsel Hes Htimer Hboss Hsp Hdef1 Ht Hd Hcam Hsy Hrng]].
  simpl.
  assert (Hb : (forall b0, b = Some b0 -> health b0 = 250) /\
               (is_Some (Game.boss st) -> is_Some b)).
  { apply spawn_boss_cases in Hsb.
    destruct Hsb as [(_ & -> & _) | (_ & ore & _ & [(_ & -> & _) | (_ & _ & b0 & -> & Hb0)])].
    - rewrite Hboss. auto.
    - rewrite Hboss. auto.
    - split; [|eauto]. intros b1 Hb1. inversion Hb1; subst. exact Hb0. }
  destruct Hb as [Hb Hsome].
  unfold update_boss in Hub. rewrite Hdef1, Hdef in Hub. simpl in Hub.
  destruct b as [b0|].
  - apply bind_Ok in Hub as ([b1 g4] & Hup & Hub).
    apply boss_update_health in Hup. rewrite (Hb b0 eq_refl) in Hup.
    inversion Hub; subst. rewrite Hup. simpl.
    split; [reflexivity|]. split; [|eauto].
    intros b2 Hb2. inversion Hb2; subst. exact Hup.
  - inversion Hub; subst. split; [reflexivity|]. split; [discriminate|].
    intros Hs.
    assert (Hs0 : is_Some (Game.boss st)) by congruence.
    apply Hsome in Hs0. destruct Hs0 as [x Hx]. discriminate.
Qed.

(** X8: the boss cannot be hurt.  Nothing in the loop lowers its health:
    along every run that starts with the boss undefeated (and at full
    health, if it exists already) the boss, whenever it exists, has health
    250, it never disappears once it exists, and [boss_defeated] stays
    false in every frame. *)
Theorem X8_boss_never_defeated (inputs : list Input) (st0 : Game.t)
    (Hdefeated : Game.boss_defeated st0 = false)
    (Hhealth : forall b, Game.boss st0 = Some b -> health b = 250) :
  forall i st, run inputs st0 !! i = Some st ->
    Game.boss_defeated st = false /\
    (forall b, Game.boss st = Some b -> health b = 250) /\
    (is_Some (Game.boss st0) -> is_Some (Game.boss st)).
Proof.
  intros i st Hst.
  apply (run_invariant
           (fun st => Game.boss_defeated st = false /\
                      (forall b, Game.boss st = Some b -> health b = 250) /\
                      (is_Some (Game.boss st0) -> is_Some (Game.boss st))))
    with (inputs := inputs) (st := st0) (i := i); [|auto|exact Hst].
  intros inp a a' _ (Hd & Hh & Hs) Ht.
  destruct (tick_boss_health _ _ _ Ht Hd Hh) as (Hd' & Hh' & Hs').
  auto.
Qed.

Lemma X8_boss_never_defeated_witness :
  (fun st => health <$> Game.boss st) <$> run two_idle_frames ore_rich_start
    = [Some 250; Some 250] /\
  forall i st, run two_idle_frames ore_rich_start !! i = Some st ->
    Game.boss_defeated st = false /\
    (forall b, Game.boss st = Some b -> health b = 250) /\
    (is_Some (Game.boss ore_rich_start) -> is_Some (Game.boss st)).
Proof.
  split; [vm_compute; reflexivity|].
  apply (X8_boss_never_defeated two_idle_frames ore_rich_start eq_refl).
  intros b Hb. discriminate Hb.
Defined.

(** *** Leaving the loop *)

Lemma handle_event_running (st st' : Game.t) (ev : Event) :
  handle_event st ev = Ok st' ->
  Game.running st' = match ev with QUIT => false | _ => Game.running st end.
Proof.
  destruct ev as [|button pos|]; simpl; intros H.
  - inversion H. reflexivity.
  - destruct ((button =? 1) || (button =? 3)); [|inversion H; reflexivity].
    destruct (Game.camera st) as [cam|]; [|discriminate].
    apply bind_Ok in H as ([world player] & _ & H). inversion H. reflexivity.
  - inversion H. reflexivity.
Qed.

Lemma handle_events_running (evs : list Event) :
  forall st st', handle_events st evs = Ok st' ->
    (Game.running st' = true <-> Game.running st = true /\ QUIT ∉ evs).
Proof.
  induction evs as [|ev evs IH]; intros st st' H.
  - inversion H; subst. split; [intros Hr; split; [exact Hr | apply not_elem_of_nil] | tauto].
  - cbn [handle_events] in H. apply bind_Ok in H as (st1 & H1 & H).
    apply handle_event_running in H1. rewrite (IH _ _ H), H1.
    rewrite not_elem_of_cons.
    destruct ev as [|button pos|].
    + split; [intros [Hf _]; discriminate | intros (_ & Hq & _); congruence].
    + split; [intros [Hr Hq]; repeat split; auto; discriminate | intros (Hr & _ & Hq); auto].
    + split; [intros [Hr Hq]; repeat split; auto; discriminate | intros (Hr & _ & Hq); auto].
Qed.

Lemma run_stopped (inputs : list Input) (st : Game.t) :
  Game.running st = false -> run inputs st = [].
Proof.
  intros H. destruct inputs; [reflexivity|]. cbn [run]. rewrite H. reflexivity.
Qed.

Lemma tick_running (inp : Input) (st st' : Game.t) :
  tick inp st = Ok st' ->
  (Game.running st' = true <->
   Game.running st = true /\ (QUIT ∉ events inp) /\ 0 < player_health st').
Proof.
  intros H.
  apply tick_outline in H
    as (st1 & p1 & es1 & timer & sy & g1 & b & sp & es2 & p2 & g2 & b' & d' & p3 & g3
        & Hev & _ & _ & _ & _ & _ & ->).
  apply handle_events_running in Hev. unfold player_health. simpl.
  destruct (health (Player.body p3) <=? 0) eqn:Hh;
    [apply Z.leb_le in Hh | apply Z.leb_gt in Hh].
  - split; [discriminate | lia].
  - rewrite Hev. tauto.
Qed.

(** X9: how the loop ends.  A frame leaves [running] true exactly when it
    was true before, the frame's events hold no QUIT, and the player's
    health after the frame is above 0.  A frame that leaves [running] false
    is the last frame of the run, so every frame but the last ends with
    the player alive and [running] true. *)
Theorem X9_loop_exit :
  (forall inp st st', tick inp st = Ok st' ->
     (Game.running st' = true <->
      Game.running st = true /\ (QUIT ∉ events inp) /\ 0 < player_health st')) /\
  (forall inputs st i a, run inputs st !! i = Some a ->
     Game.running a = false -> length (run inputs st) = S i) /\
  (forall inputs st i a, run inputs st !! i = Some a ->
     (S i < length (run inputs st))%nat ->
     Game.running a = true /\ 0 < player_health a).
Proof.
  assert (Hlast : forall inputs st i a, run inputs st !! i = Some a ->
            Game.running a = false -> length (run inputs st) = S i).
  { induction inputs as [|inp inputs IH]; intros st i a Ha Hr; [discriminate|].
    pose proof Ha as Hstep. apply run_step in Hstep as (st' & Hrun & Ht & Hi).
    cbn [run]. rewrite Hrun, Ht. simpl.
    destruct i as [|j].
    - subst a. rewrite (run_stopped _ _ Hr). reflexivity.
    - f_equal. exact (IH _ _ _ Hi Hr). }
  split; [exact tick_running|]. split; [exact Hlast|].
  induction inputs as [|inp inputs IH]; intros st i a Ha Hlen; [discriminate|].
  pose proof Ha as Hstep. apply run_step in Hstep as (st' & Hrun & Ht & Hi).
  destruct i as [|j].
  - subst a.
    destruct (Game.running st') eqn:Hr'.
    + split; [reflexivity|]. apply (tick_running _ _ _ Ht). exact Hr'.
    + rewrite (Hlast _ _ _ _ Ha Hr') in Hlen. lia.
  - apply (IH st' j a Hi).
    cbn [run] in Hlen. rewrite Hrun, Ht in Hlen. simpl in Hlen. lia.
Qed.

(** *** The player's health *)

(** What moving and colliding leaves alone. *)
Lemma snap_keeps (dx dy : float) (tile_x tile_y : Z) (s : Sprite) :
  let s' := snap dx dy tile_x tile_y s in
  health s' = health s /\ hurt_cooldown s' = hurt_cooldown s /\
  vel_x s' = vel_x s /\
  Rect.w (rect s') = Rect.w (rect s) /\ Rect.h (rect s') = Rect.h (rect s).
Proof.
  unfold snap.
  destruct (0 <? dy)%float, (dy <? 0)%float, (0 <? dx)%float, (dx <? 0)%float;
    simpl; auto.
Qed.

Lemma resolve_corners_keeps (world : World) (dx dy : float) (cs : list (Z * Z)) :
  forall s s', resolve_corners world dx dy s cs = Ok s' ->
    health s' = health s /\ hurt_cooldown s' = hurt_cooldown s /\
    vel_x s' = vel_x s /\
    Rect.w (rect s') = Rect.w (rect s) /\ Rect.h (rect s') = Rect.h (rect s).
Proof.
  induction cs as [|[cx cy] cs IH]; intros s s' H; simpl in H.
  - inversion H. auto.
  - apply bind_Ok in H as (s1 & H1 & H).
    apply IH in H as (Ha & Hb & Hc & Hd & He).
    rewrite Ha, Hb, Hc, Hd, He. clear Ha Hb Hc Hd He.
    unfold resolve_corner in H1.
    destruct (tile_in_world (cx / TILE_SIZE) (cy / TILE_SIZE));
      [|inversion H1; auto].
    apply bind_Ok in H1 as (tile & _ & H1).
    destruct (is_solid tile); inversion H1; [apply snap_keeps | auto].
Qed.

(** [Player.update] moves the body and counts the cooldown down; it leaves
    health, horizontal velocity, size, inventory and selection alone. *)
Lemma player_update_keeps (world : World) (p p' : Player.t) :
  Player.update world p = Ok p' ->
  health (Player.body p') = health (Player.body p) /\
  hurt_cooldown (Player.body p') =
    (if 0 <? hurt_cooldown (Player.body p) then hurt_cooldown (Player.body p) - 1
     else hurt_cooldown (Player.body p)) /\
  vel_x (Player.body p') = vel_x (Player.body p) /\
  Rect.w (rect (Player.body p')) = Rect.w (rect (Player.body p)) /\
  Rect.h (rect (Player.body p')) = Rect.h (rect (Player.body p)) /\
  Player.inventory p' = Player.inventory p /\
  Player.selected p' = Player.selected p.
Proof.
  unfold Player.update, move_and_collide. intros H.
  apply bind_Ok in H as (s3 & H & Hp). inversion Hp; subst. clear Hp.
  apply bind_Ok in H as (s1 & H1 & H). apply bind_Ok in H as (s2 & H2 & H).
  inversion H; subst. clear H.
  unfold move_horizontal in H1. apply bind_Ok in H1 as (ix & _ & H1).
  unfold move_vertical in H2. apply bind_Ok in H2 as (iy & _ & H2).
  apply resolve_corners_keeps in H1 as (Ha1 & Hb1 & Hc1 & Hd1 & He1).
  apply resolve_corners_keeps in H2 as (Ha2 & Hb2 & Hc2 & Hd2 & He2).
  simpl in *.
  unfold cool_down. rewrite Hb2, Hb1.
  destruct (0 <? hurt_cooldown (Player.body p)); simpl;
    repeat split; congruence.
Qed.

Lemma handle_input_keeps (keys : Keys) (p : Player.t) :
  let p' := Player.handle_input keys p in
  health (Player.body p') = health (Player.body p) /\
  hurt_cooldown (Player.body p') = hurt_cooldown (Player.body p) /\
  rect (Player.body p') = rect (Player.body p) /\
  Player.inventory p' = Player.inventory p.
Proof.
  unfold Player.handle_input.
  destruct (K_a keys || K_LEFT keys), (K_d keys || K_RIGHT keys),
    (K_w keys || K_UP keys || K_SPACE keys), (K_1 keys), (K_2 keys),
    (K_3 keys), (K_4 keys); simpl;
    destruct (on_ground (Player.body p)); simpl; auto.
Qed.

(** The enemy loop hits at most once, and only at cooldown 0. *)
Lemma update_enemies_once (world : World) (es : list Sprite) :
  forall player g rest player' g',
    update_enemies world es player g = Ok (rest, player', g') ->
    player' = player \/
    (hurt_cooldown (Player.body player) = 0 /\
     health (Player.body player') = health (Player.body player) - 10 /\
     hurt_cooldown (Player.body player') = 60).
Proof.
  induction es as [|e es IH]; intros player g rest player' g' H.
  - inversion H. auto.
  - apply update_enemies_cons in H as (e1 & g1 & rest1 & _ & H).
    destruct (Z.eq_dec (hurt_cooldown (Player.body player)) 0) as [Hcd|Hcd].
    + destruct (Rect.colliderect (rect e1) (rect (Player.body player))) eqn:Hov.
      * destruct (enemy_contact_hit _ _ Hov Hcd) as (Hh & Hc & _).
        assert (Hne : hurt_cooldown (Player.body (enemy_contact (rect e1) player)) <> 0)
          by (rewrite Hc; discriminate).
        rewrite (update_enemies_gated _ _ _ _ _ _ _ Hne H). right. auto.
      * rewrite enemy_contact_miss in H by exact Hov. exact (IH _ _ _ _ _ H).
    + rewrite enemy_contact_gated in H by exact Hcd. exact (IH _ _ _ _ _ H).
Qed.

Lemma boss_contact_once (boss_rect : Rect.t) (player : Player.t) :
  boss_contact boss_rect player = player \/
  (hurt_cooldown (Player.body player) = 0 /\
   health (Player.body (boss_contact boss_rect player)) = health (Player.body player) - 20 /\
   hurt_cooldown (Player.body (boss_contact boss_rect player)) = 60).
Proof.
  unfold boss_contact.
  destruct (Rect.colliderect _ _); [|auto].
  destruct (hurt_cooldown (Player.body player) =? 0) eqn:Hcd; [|auto].
  apply Z.eqb_eq in Hcd. right. split; [exact Hcd|].
  destruct (Rect.centerx boss_rect <? _); simpl; auto.
Qed.

Lemma update_boss_once (st : Game.t) (boss : option Sprite) (player : Player.t)
    (g : Rng) (b' : option Sprite) (d' : bool) (player' : Player.t) (g' : Rng) :
  update_boss st boss player g = Ok (b', d', player', g') ->
  player' = player \/
  (hurt_cooldown (Player.body player) = 0 /\
   health (Player.body player') = health (Player.body player) - 20 /\
   hurt_cooldown (Player.body player') = 60).
Proof.
  unfold update_boss. intros H.
  destruct boss as [b|]; [|inversion H; auto].
  destruct (negb (Game.boss_defeated st)); [|inversion H; auto].
  apply bind_Ok in H as ([b1 g1] & _ & H). inversion H; subst.
  apply boss_contact_once.
Qed.

Lemma tick_health (inp : Input) (st st' : Game.t) :
  tick inp st = Ok st' ->
  let cooled := if 0 <? player_cooldown st then player_cooldown st - 1
                else player_cooldown st in
  (player_health st' = player_health st /\ player_cooldown st' = cooled) \/
  (cooled = 0 /\ player_cooldown st' = 60 /\
   (player_health st' = player_health st - 10 \/
    player_health st' = player_health st - 20)).
Proof.
  intros H.
  apply tick_outline in H
    as (st1 & p1 & es1 & timer & sy & g1 & b & sp & es2 & p2 & g2 & b' & d' & p3 & g3
        & Hev & Hup & _ & _ & Hen & Hub & ->).
  apply handle_events_beyond in Hev. unfold beyond_events in Hev.
  assert (Hbody : Player.body (Game.player st1) = Player.body (Game.player st))
    by congruence.
  clear Hev.
  apply player_update_keeps in Hup as (Hh1 & Hc1 & _).
  destruct (handle_input_keeps (keys inp) (Game.player st1)) as (Hh0 & Hc0 & _).
  rewrite Hh0, Hbody in Hh1. rewrite Hc0, Hbody in Hc1.
  apply update_enemies_once in Hen. apply update_boss_once in Hub.
  unfold player_health, player_cooldown. simpl.
  destruct Hen as [-> | (Hz & Hh2 & Hc2)].
  - destruct Hub as [-> | (Hz & Hh3 & Hc3)].
    + left. auto.
    + right. rewrite Hc1 in Hz. rewrite Hh3, Hh1. auto.
  - destruct Hub as [-> | (Hz3 & _)]; [|rewrite Hc2 in Hz3; discriminate].
    right. rewrite Hc1 in Hz. rewrite Hh2, Hh1. auto.
Qed.

(** X10: the player's health over one frame.  A frame takes 0, 10 or 20
    health, never more, however many enemies and whatever boss overlap the
    player: either health is unchanged and the hurt cooldown has counted
    down by one (staying at 0 once there), or the counted-down cooldown was
    0 (the frame started with cooldown 0 or 1), health dropped by exactly
    10 (an enemy) or exactly 20 (the boss), and the cooldown is 60. *)
Theorem X10_health_per_frame (inp : Input) (st st' : Game.t)
    (Htick : tick inp st = Ok st') :
  let cooled := if 0 <? player_cooldown st then player_cooldown st - 1
                else player_cooldown st in
  (player_health st' = player_health st /\ player_cooldown st' = cooled) \/
  (cooled = 0 /\ (player_cooldown st = 0 \/ player_cooldown st = 1) /\
   player_cooldown st' = 60 /\
   (player_health st' = player_health st - 10 \/
    player_health st' = player_health st - 20)).
Proof.
  intros cooled.
  destruct (tick_health _ _ _ Htick) as [H | (Hz & Hc & Hh)]; [left; exact H|].
  right. fold cooled in Hz. split; [exact Hz|]. split; [|auto].
  unfold cooled in Hz.
  destruct (0 <? player_cooldown st) eqn:Hpos;
    [apply Z.ltb_lt in Hpos | apply Z.ltb_ge in Hpos]; lia.
Qed.

Lemma X10_health_per_frame_witness :
  exists st', tick (mkInput [] idle_keys) ore_rich_start = Ok st' /\
    (player_health st' = 80 /\ player_cooldown st' = 60) /\
    let cooled := if 0 <? player_cooldown ore_rich_start
                  then player_cooldown ore_rich_start - 1
                  else player_cooldown ore_rich_start in
    (player_health st' = player_health ore_rich_start /\ player_cooldown st' = cooled) \/
    (cooled = 0 /\
     (player_cooldown ore_rich_start = 0 \/ player_cooldown ore_rich_start = 1) /\
     player_cooldown st' = 60 /\
     (player_health st' = player_health ore_rich_start - 10 \/
      player_health st' = player_health ore_rich_start - 20)).
Proof.
  destruct (tick (mkInput [] idle_keys) ore_rich_start) as [st'|e] eqn:Ht.
  - exists st'. split; [reflexivity|].
    split; [|exact (X10_health_per_frame _ _ _ Ht)].
    vm_compute in Ht. inversion Ht. split; reflexivity.
  - vm_compute in Ht. discriminate.
Defined.

(** *** Invincibility frames *)

Lemma run_invincible (inputs : list Input) :
  forall st i a (k : Z),
    Z.of_nat i < k ->
    player_cooldown st = k + 1 ->
    run inputs st !! i = Some a ->
    player_health a = player_health st /\
    player_cooldown a = k - Z.of_nat i.
Proof.
  induction inputs as [|inp inputs IH]; intros st i a k Hi Hcd Ha; [discriminate|].
  apply run_step in Ha as (st' & _ & Ht & Ha).
  apply tick_health in Ht. rewrite Hcd in Ht.
  assert (Hpos : (0 <? k + 1) = true) by (apply Z.ltb_lt; lia).
  rewrite Hpos in Ht.
  destruct Ht as [[Hh Hc] | (Hz & _)]; [|lia].
  destruct i as [|j].
  - subst a. split; [exact Hh | simpl; lia].
  - destruct (IH st' j a (k - 1)) as [Hh' Hc']; [lia | lia | exact Ha |].
    split; [congruence | lia].
Qed.

(** X11: invincibility frames.  From a state whose hurt cooldown is 60 (the
    value a hit sets) the next 59 frames cannot change the player's health,
    whatever overlaps the player: in the frame of index [i < 59] health is
    the start value and the cooldown is [59 - i]. *)
Theorem X11_invincibility_frames (inputs : list Input) (st0 : Game.t)
    (Hhit : player_cooldown st0 = 60) :
  forall i st, (i < 59)%nat -> run inputs st0 !! i = Some st ->
    player_health st = player_health st0 /\
    player_cooldown st = 59 - Z.of_nat i.
Proof.
  intros i st Hi Hst.
  apply (run_invincible inputs st0 i st 59); [lia | rewrite Hhit; reflexivity | exact Hst].
Qed.

Lemma X11_invincibility_frames_witness :
  (fun st => (player_health st, player_cooldown st)) <$> run two_idle_frames just_hit_start
    = [(90, 59); (90, 58)] /\
  forall i st, (i < 59)%nat -> run two_idle_frames just_hit_start !! i = Some st ->
    player_health st = player_health just_hit_start /\
    player_cooldown st = 59 - Z.of_nat i.
Proof.
  split; [vm_compute; reflexivity|].
  exact (X11_invincibility_frames two_idle_frames just_hit_start eq_refl).
Defined.

(** *** The health bar *)

Lemma health_width_tens (k : Z) :
  0 <= k <= 11 ->
  health_width (100 - 10 * k) = Ok (2 * Z.max 0 (100 - 10 * k)).
Proof.
  intros Hk.
  assert (Hall : forallb (fun k => match health_width (100 - 10 * k) with
                                   | Ok w => w =? 2 * Z.max 0 (100 - 10 * k)
                                   | Raise _ => false
                                   end) (range 0 12) = true)
    by (vm_compute; reflexivity).
  rewrite forallb_forall in Hall.
  specialize (Hall k). 
  assert (Hin : In k (range 0 12))
    by (apply list_elem_of_In; unfold range; apply elem_of_seqZ; lia).
  apply Hall in Hin.
  destruct (health_width (100 - 10 * k)) as [w|e]; [|discriminate].
  apply Z.eqb_eq in Hin. rewrite Hin. reflexivity.
Qed.

(** X12: health along a run that starts at full health.  In every frame
    the player's health is a multiple of 10 between -10 and 100 (the loop
    stops at the first frame that leaves it at 0 or below, and one hit
    takes at most 20), and for these values the red bar of [draw_health]
    is exactly twice the health wide, 0 for health 0 or -10. *)
Theorem X12_health_along_run (inputs : list Input) (st0 : Game.t)
    (Hfull : player_health st0 = 100) :
  forall i st, run inputs st0 !! i = Some st ->
    -10 <= player_health st <= 100 /\
    player_health st mod 10 = 0 /\
    health_width (player_health st) = Ok (2 * Z.max 0 (player_health st)).
Proof.
  intros i st Hst.
  assert (H : (exists k, 0 <= k <= 11 /\ player_health st = 100 - 10 * k) /\
              (Game.running st = true -> 0 < player_health st)).
  { apply (run_invariant
             (fun st => (exists k, 0 <= k <= 11 /\ player_health st = 100 - 10 * k) /\
                        (Game.running st = true -> 0 < player_health st)))
      with (inputs := inputs) (st := st0) (i := i); [| |exact Hst].
    - intros inp a a' Hrun [(k & Hk & Hh) Halive] Ht.
      specialize (Halive Hrun).
      split; [|intros Hr; apply (tick_running _ _ _ Ht); exact Hr].
      destruct (tick_health _ _ _ Ht) as [[Hh' _] | (_ & _ & [Hh' | Hh'])].
      + exists k. split; [lia | congruence].
      + exists (k + 1). split; lia.
      + exists (k + 2). split; lia.
    - split; [exists 0; split; [lia | rewrite Hfull; reflexivity] | rewrite Hfull; lia]. }
  destruct H as [(k & Hk & Hh) _]. rewrite Hh.
  split; [lia|]. split; [|apply health_width_tens; exact Hk].
  replace (100 - 10 * k) with ((10 - k) * 10) by lia. apply Z.mod_mul. lia.
Qed.

Lemma X12_health_along_run_witness :
  player_health <$> run two_idle_frames ore_rich_start = [80; 80] /\
  forall i st, run two_idle_frames ore_rich_start !! i = Some st ->
    -10 <= player_health st <= 100 /\
    player_health st mod 10 = 0 /\
    health_width (player_health st) = Ok (2 * Z.max 0 (player_health st)).
Proof.
  split; [vm_compute; reflexivity|].
  exact (X12_health_along_run two_idle_frames ore_rich_start eq_refl).
Defined.

(** X13: the width of the health bar for every health from -100 to 200.
    It never raises; it is 0 for health 0 or below and 200 for health 100
    or above; in between it is [2 * health], except at health 29, 57 and
    58, where the floating-point product falls just below the integer and
    the bar is one pixel short. *)
Theorem X13_health_width (h : Z) (Hrange : -100 <= h <= 200) :
  exists w, health_width h = Ok w /\
    0 <= w <= 200 /\
    (h <= 0 -> w = 0) /\
    (100 <= h -> w = 200) /\
    (0 <= h <= 100 ->
     w = if (h =? 29) || (h =? 57) || (h =? 58) then 2 * h - 1 else 2 * h).
Proof.
  assert (Hall : forallb (fun h => match health_width h with
                    | Ok w =>
                        (0 <=? w) && (w <=? 200)
                        && (if h <=? 0 then w =? 0 else true)
                        && (if 100 <=? h then w =? 200 else true)
                        && (if (0 <=? h) && (h <=? 100)
                            then w =? (if (h =? 29) || (h =? 57) || (h =? 58)
                                       then 2 * h - 1 else 2 * h)
                            else true)
                    | Raise _ => false
                    end) (range (-100) 201) = true)
    by (vm_compute; reflexivity).
  rewrite forallb_forall in Hall.
  assert (Hin : In h (range (-100) 201))
    by (apply list_elem_of_In; unfold range; apply elem_of_seqZ; lia).
  apply Hall in Hin.
  destruct (health_width h) as [w|e]; [|discriminate].
  exists w. split; [reflexivity|].
  apply andb_true_iff in Hin as [Hin H5]. apply andb_true_iff in Hin as [Hin H4].
  apply andb_true_iff in Hin as [Hin H3]. apply andb_true_iff in Hin as [H1 H2].
  apply Z.leb_le in H1, H2.
  split; [lia|]. split; [|split].
  - intros Hle. apply Z.leb_le in Hle. rewrite Hle in H3. apply Z.eqb_eq in H3. exact H3.
  - intros Hge. apply Z.leb_le in Hge. rewrite Hge in H4. apply Z.eqb_eq in H4. exact H4.
  - intros [Hlo Hhi]. apply Z.leb_le in Hlo, Hhi. rewrite Hlo, Hhi in H5.
    apply Z.eqb_eq in H5. exact H5.
Qed.

Lemma X13_health_width_witness :
  exists w, health_width 29 = Ok w /\
    0 <= w <= 200 /\
    (29 <= 0 -> w = 0) /\
    (100 <= 29 -> w = 200) /\
    (0 <= 29 <= 100 ->
     w = if (29 =? 29) || (29 =? 57) || (29 =? 58) then 2 * 29 - 1 else 2 * 29).
Proof.
  apply X13_health_width. lia.
Defined.

(* ===================================================================== *)
(** ** The grid and the inventory over a run                              *)
(* ===================================================================== *)

Lemma total_insert {A : Type} (f : A -> Z) (l : list A) :
  forall (n : nat) (a b : A),
    l !! n = Some a -> total f (<[n := b]> l) = total f l - f a + f b.
Proof.
  induction l as [|c l IH]; intros [|n] a b H; simpl in *; try discriminate.
  - inversion H; subst. lia.
  - rewrite (IH n a b H). lia.
Qed.

Lemma items_held_insert (inv : gmap string Z) (key : string) (c c' : Z) :
  key ∈ resources -> inv !! key = Some c ->
  items_held (<[key := c']> inv) = items_held inv - c + c'.
Proof.
  intros Hkey Hc. unfold items_held, resources in *. simpl.
  repeat (apply elem_of_cons in Hkey as [->|Hkey]);
    [| | | |apply elem_of_nil in Hkey; contradiction];
    repeat (rewrite lookup_insert_eq || rewrite lookup_insert_ne by discriminate);
    rewrite Hc; simpl; lia.
Qed.

Lemma inventory_counts_insert (inv : gmap string Z) (key : string) (c : Z) :
  inventory_counts inv -> key ∈ resources -> 0 <= c ->
  inventory_counts (<[key := c]> inv).
Proof.
  intros [Hall Honly] Hkey Hc. split.
  - intros k Hk. destruct (decide (k = key)) as [->|Hne].
    + exists c. rewrite lookup_insert_eq. auto.
    + rewrite lookup_insert_ne by congruence. exact (Hall k Hk).
  - intros k Hk. destruct (decide (k = key)) as [->|Hne]; [exact Hkey|].
    rewrite lookup_insert_ne in Hk by congruence. exact (Honly k Hk).
Qed.

(** Reading and writing one tile inside the game's grid. *)
Lemma world_set_wf (world : World) (x y v : Z) :
  wf_world world -> tile_in_world x y = true ->
  exists row tile,
    world !! Z.to_nat y = Some row /\ row !! Z.to_nat x = Some tile /\
    world_get world y x = Ok tile /\
    world_set world y x v = Ok (<[Z.to_nat y := <[Z.to_nat x := v]> row]> world).
Proof.
  intros Hwf Hin. apply tile_in_world_spec in Hin as [Hx Hy].
  destruct (grid_dims_row _ _ _ _ Hwf Hy) as (row & Hrow & Hlen).
  destruct (lookup_lt_is_Some_2 row (Z.to_nat x)) as [tile Htile]; [lia|].
  exists row, tile. split; [exact Hrow|]. split; [exact Htile|]. split.
  - unfold world_get. rewrite (getitem_in_range _ _ row) by (lia || exact Hrow).
    simpl. apply getitem_in_range; [lia | exact Htile].
  - apply world_set_row; [lia | exact Hrow | lia].
Qed.

(** What replacing one tile does to the shape, the tile ids, the count of
    solid tiles and the other tiles. *)
Lemma insert_tile (world : World) (row : list Z) (x y v tile : Z) :
  wf_world world -> all_tiles (fun t => 0 <= t <= 5) world ->
  0 <= x -> 0 <= y ->
  world !! Z.to_nat y = Some row -> row !! Z.to_nat x = Some tile ->
  0 <= v <= 5 ->
  let world' := <[Z.to_nat y := <[Z.to_nat x := v]> row]> world in
  wf_world world' /\
  all_tiles (fun t => 0 <= t <= 5) world' /\
  solid_tiles world' = solid_tiles world
                       - (if is_solid tile then 1 else 0) + (if is_solid v then 1 else 0) /\
  0 <= tile <= 5 /\
  (forall x' y', (x', y') <> (x, y) -> tile_at world' x' y' = tile_at world x' y').
Proof.
  intros [Hlen Hrows] Hall Hx Hy Hrow Htile Hv world'.
  pose proof (proj1 (Forall_lookup _ _) Hrows _ _ Hrow) as Hrowlen. simpl in Hrowlen.
  pose proof (proj1 (Forall_lookup _ _) Hall _ _ Hrow) as Hrowall. simpl in Hrowall.
  split; [|split; [|split; [|split]]].
  - split.
    + unfold world'. rewrite length_insert. exact Hlen.
    + apply Forall_insert; [exact Hrows|]. rewrite length_insert. exact Hrowlen.
  - apply Forall_insert; [exact Hall|]. apply Forall_insert; [exact Hrowall | exact Hv].
  - unfold solid_tiles, world'.
    rewrite (total_insert _ _ _ _ _ Hrow), (total_insert _ _ _ _ _ Htile). lia.
  - exact (proj1 (Forall_lookup _ _) Hrowall _ _ Htile).
  - intros x' y' Hne. apply tile_at_insert_other; assumption.
Qed.

(** [mine_block] on a sound state: nothing happens, or one solid tile
    above the bottom row becomes air and one resource count grows by 1. *)
Lemma mine_block_cases (world world' : World) (camera mouse_pos : Z * Z)
    (p p' : Player.t) :
  wf_world world -> all_tiles (fun t => 0 <= t <= 5) world ->
  inventory_counts (Player.inventory p) ->
  Player.mine_block world camera mouse_pos p = Ok (world', p') ->
  (world' = world /\ p' = p) \/
  exists x y row tile key c,
    0 <= x /\ 0 <= y < WORLD_HEIGHT - 1 /\
    world !! Z.to_nat y = Some row /\ row !! Z.to_nat x = Some tile /\ tile <> 0 /\
    key ∈ resources /\ Player.inventory p !! key = Some c /\
    world' = <[Z.to_nat y := <[Z.to_nat x := 0]> row]> world /\
    p' = Player.set_inventory (<[key := c + 1]> (Player.inventory p)) p.
Proof.
  intros Hwf Hall [Hcounts _]. rewrite mine_block_unfold. cbv zeta.
  set (x := target_x camera mouse_pos). set (y := target_y camera mouse_pos).
  destruct (_ || _); [intros H; inversion H; auto|].
  destruct (tile_in_world x y) eqn:Hin; [|intros H; inversion H; auto].
  destruct (world_set_wf world x y 0 Hwf Hin) as (row & tile & Hrow & Htile & Hget & Hset).
  rewrite Hget. cbn [mbind result_bind].
  destruct (negb (tile =? 0) && (y <? WORLD_HEIGHT - 1)) eqn:Hc;
    [|intros H; inversion H; auto].
  apply andb_true_iff in Hc as [Hsolid Hrow59].
  apply negb_true_iff, Z.eqb_neq in Hsolid. apply Z.ltb_lt in Hrow59.
  apply tile_in_world_spec in Hin as [Hx Hy].
  pose proof (proj1 (Forall_lookup _ _) Hall _ _ Hrow) as Hrowall. simpl in Hrowall.
  pose proof (proj1 (Forall_lookup _ _) Hrowall _ _ Htile) as Hid. simpl in Hid.
  assert (Hkey : exists key c, key ∈ resources /\ Player.inventory p !! key = Some c /\
                               mined_resource tile = Some key).
  { assert (Ht : tile = 1 \/ tile = 2 \/ tile = 3 \/ tile = 4 \/ tile = 5) by lia.
    unfold resources in *.
    destruct Ht as [->|[->|[->|[->| ->]]]]; simpl;
      [destruct (Hcounts "dirt") as (c & Hc & _) |
       destruct (Hcounts "dirt") as (c & Hc & _) |
       destruct (Hcounts "stone") as (c & Hc & _) |
       destruct (Hcounts "ore") as (c & Hc & _) |
       destruct (Hcounts "wood") as (c & Hc & _)];
      try (repeat constructor);
      eexists _, c; (split; [|split; [exact Hc | reflexivity]]);
      repeat constructor. }
  destruct Hkey as (key & c & Hkey & Hc & Hres).
  rewrite (mine_block_inventory tile key c _ Hres Hc). cbn [mbind result_bind].
  rewrite Hset. cbn [mbind result_bind].
  intros H. inversion H; subst. right.
  exists x, y, row, tile, key, c.
  repeat (split; [first [assumption | lia | reflexivity]|]). reflexivity.
Qed.

(** [place_block] on a sound state: nothing happens, or one air tile
    becomes a solid tile and the count of the selected resource, which was
    above 0, drops by 1. *)
Lemma place_block_cases (world world' : World) (camera mouse_pos : Z * Z)
    (p p' : Player.t) :
  wf_world world ->
  Player.selected p ∈ resources ->
  Player.place_block world camera mouse_pos p = Ok (world', p') ->
  (world' = world /\ p' = p) \/
  exists x y row v c,
    0 <= x /\ 0 <= y /\
    world !! Z.to_nat y = Some row /\ row !! Z.to_nat x = Some 0 /\
    1 <= v <= 5 /\
    Player.inventory p !! Player.selected p = Some c /\ 0 < c /\
    world' = <[Z.to_nat y := <[Z.to_nat x := v]> row]> world /\
    p' = Player.set_inventory (<[Player.selected p := c - 1]> (Player.inventory p)) p.
Proof.
  intros Hwf Hsel. rewrite place_block_unfold. cbv zeta.
  set (x := target_x camera mouse_pos). set (y := target_y camera mouse_pos).
  destruct (default 0 (Player.inventory p !! Player.selected p) <=? 0) eqn:Hcount;
    [intros H; inversion H; auto|].
  apply Z.leb_gt in Hcount.
  destruct (Player.inventory p !! Player.selected p) as [c|] eqn:Hc;
    [|simpl in Hcount; lia].
  simpl in Hcount.
  destruct (tile_in_world x y) eqn:Hin; [|intros H; inversion H; auto].
  assert (Hv : exists v, 1 <= v <= 5 /\ placed_tile (Player.selected p) = Some v).
  { unfold resources in Hsel.
    repeat (apply elem_of_cons in Hsel as [->|Hsel]);
      [| | | |apply elem_of_nil in Hsel; contradiction];
      eexists; (split; [|reflexivity]); lia. }
  destruct Hv as (v & Hv & Hplaced).
  destruct (world_set_wf world x y v Hwf Hin) as (row & tile & Hrow & Htile & Hget & Hset).
  rewrite Hget. cbn [mbind result_bind].
  destruct (tile =? 0) eqn:Hair; [|intros H; inversion H; auto].
  apply Z.eqb_eq in Hair. subst tile.
  destruct (negb (Rect.colliderect _ _)); [|intros H; inversion H; auto].
  rewrite (place_block_tile _ _ _ _ _ Hplaced), Hset. cbn [mbind result_bind].
  rewrite (inventory_add_Some _ _ c) by exact Hc. cbn [mbind result_bind].
  intros H. inversion H; subst. right.
  apply tile_in_world_spec in Hin as [Hx Hy].
  exists x, y, row, v, c.
  repeat (split; [first [assumption | lia | reflexivity]|]). reflexivity.
Qed.

(** One event on a sound state. *)
Lemma handle_event_ok (st st' : Game.t) (ev : Event) :
  game_ok st -> handle_event st ev = Ok st' ->
  game_ok st' /\ material st' = material st /\
  (forall x t, t <> 0 -> tile_at (Game.world st) x (WORLD_HEIGHT - 1) = Some t ->
               tile_at (Game.world st') x (WORLD_HEIGHT - 1) = Some t).
Proof.
  intros (Hwf & Hall & Hinv & Hsel) H.
  assert (Hsame : st' = st \/
                  (Game.world st' = Game.world st /\ Game.player st' = Game.player st) ->
                  game_ok st' /\ material st' = material st /\
                  (forall x t, t <> 0 ->
                     tile_at (Game.world st) x (WORLD_HEIGHT - 1) = Some t ->
                     tile_at (Game.world st') x (WORLD_HEIGHT - 1) = Some t)).
  { intros [-> | [Hw Hp]].
    - unfold game_ok. auto.
    - unfold game_ok, material. rewrite Hw, Hp. auto. }
  destruct ev as [|button pos|]; simpl in H.
  - inversion H; subst. apply Hsame. right. auto.
  - destruct ((button =? 1) || (button =? 3)); [|inversion H; subst; auto].
    destruct (Game.camera st) as [cam|]; [|discriminate].
    apply bind_Ok in H as ([world player] & Hact & H). inversion H; subst. clear H.
    destruct (button =? 1).
    + apply mine_block_cases in Hact; try assumption.
      destruct Hact as [[-> ->] | (x & y & row & tile & key & c & Hx & Hy & Hrow
                                   & Htile & Hsolid & Hkey & Hc & -> & ->)].
      { apply Hsame. right. auto. }
      destruct (insert_tile _ _ x y 0 tile Hwf Hall Hx ltac:(lia) Hrow Htile ltac:(lia))
        as (Hwf' & Hall' & Hcount & Hid & Hother).
      destruct (proj1 Hinv key Hkey) as (c0 & Hc0 & Hpos).
      assert (c0 = c) by congruence. subst c0.
      unfold game_ok, material. simpl.
      split; [|split].
      * split; [exact Hwf'|]. split; [exact Hall'|].
        split; [apply inventory_counts_insert; [assumption.. | lia] | exact Hsel].
      * rewrite Hcount, (items_held_insert _ _ c) by assumption.
        unfold is_solid. simpl.
        apply Z.eqb_neq in Hsolid. rewrite Hsolid. simpl. lia.
      * intros x' t Ht Hat. rewrite Hother; [exact Hat|].
        intros Heq. inversion Heq. lia.
    + apply place_block_cases in Hact; try assumption.
      destruct Hact as [[-> ->] | (x & y & row & v & c & Hx & Hy & Hrow
                                   & Htile & Hv & Hc & Hpos & -> & ->)].
      { apply Hsame. right. auto. }
      destruct (insert_tile _ _ x y v 0 Hwf Hall Hx Hy Hrow Htile ltac:(lia))
        as (Hwf' & Hall' & Hcount & Hid & Hother).
      unfold game_ok, material. simpl.
      split; [|split].
      * split; [exact Hwf'|]. split; [exact Hall'|].
        split; [apply inventory_counts_insert; [assumption.. | lia] | exact Hsel].
      * rewrite Hcount, (items_held_insert _ _ c) by assumption.
        unfold is_solid. simpl.
        assert (Hne : (v =? 0) = false) by (apply Z.eqb_neq; lia).
        rewrite Hne. simpl. lia.
      * intros x' t Ht Hat. rewrite Hother; [exact Hat|].
        intros Heq. inversion Heq; subst.
        unfold tile_at in Hat.
        destruct ((0 <=? x) && (0 <=? WORLD_HEIGHT - 1)); [|discriminate].
        rewrite Hrow, Htile in Hat. congruence.
  - inversion H; subst. auto.
Qed.

Lemma handle_events_ok (evs : list Event) :
  forall st st', game_ok st -> handle_events st evs = Ok st' ->
    game_ok st' /\ material st' = material st /\
    (forall x t, t <> 0 -> tile_at (Game.world st) x (WORLD_HEIGHT - 1) = Some t ->
                 tile_at (Game.world st') x (WORLD_HEIGHT - 1) = Some t).
Proof.
  induction evs as [|ev evs IH]; intros st st' Hok H.
  - inversion H; subst. auto.
  - cbn [handle_events] in H. apply bind_Ok in H as (st1 & H1 & H).
    destruct (handle_event_ok _ _ _ Hok H1) as (Hok1 & Hm1 & Hb1).
    destruct (IH _ _ Hok1 H) as (Hok' & Hm' & Hb').
    split; [exact Hok'|]. split; [congruence|].
    intros x t Ht Hat. apply Hb'; [exact Ht|]. apply Hb1; assumption.
Qed.

(** What the rest of the frame does to the inventory and the selection. *)
Lemma handle_input_selected (keys : Keys) (p : Player.t) :
  Player.selected p ∈ resources ->
  Player.selected (Player.handle_input keys p) ∈ resources.
Proof.
  intros H. unfold Player.handle_input, resources.
  destruct (K_1 keys), (K_2 keys), (K_3 keys), (K_4 keys); simpl;
    first [exact H | repeat constructor].
Qed.

Lemma enemy_contact_selected (r : Rect.t) (p : Player.t) :
  Player.selected (enemy_contact r p) = Player.selected p.
Proof.
  unfold enemy_contact.
  destruct (Rect.colliderect _ _); [|reflexivity].
  destruct (hurt_cooldown _ =? 0); reflexivity.
Qed.

Lemma update_enemies_selected (world : World) (es : list Sprite) :
  forall player g rest player' g',
    update_enemies world es player g = Ok (rest, player', g') ->
    Player.selected player' = Player.selected player.
Proof.
  induction es as [|e es IH]; intros player g rest player' g' H.
  - inversion H. reflexivity.
  - apply update_enemies_cons in H as (e1 & g1 & rest1 & _ & H).
    apply IH in H. rewrite H. apply enemy_contact_selected.
Qed.

Lemma update_boss_bag (st : Game.t) (boss : option Sprite) (player : Player.t)
    (g : Rng) (b' : option Sprite) (d' : bool) (player' : Player.t) (g' : Rng) :
  update_boss st boss player g = Ok (b', d', player', g') ->
  Player.inventory player' = Player.inventory player /\
  Player.selected player' = Player.selected player.
Proof.
  unfold update_boss. intros H.
  destruct boss as [b|]; [|inversion H; auto].
  destruct (negb (Game.boss_defeated st)); [|inversion H; auto].
  apply bind_Ok in H as ([b1 g1] & _ & H). inversion H; subst.
  unfold boss_contact.
  destruct (Rect.colliderect _ _); [|auto].
  destruct (hurt_cooldown _ =? 0); auto.
Qed.

(** One frame on a sound state: the state stays sound, no material is
    made or lost, and the solid tiles of the bottom row stay. *)
Lemma tick_ok (inp : Input) (st st' : Game.t) :
  game_ok st -> tick inp st = Ok st' ->
  game_ok st' /\ material st' = material st /\
  (forall x t, t <> 0 -> tile_at (Game.world st) x (WORLD_HEIGHT - 1) = Some t ->
               tile_at (Game.world st') x (WORLD_HEIGHT - 1) = Some t).
Proof.
  intros Hok H.
  apply tick_outline in H
    as (st1 & p1 & es1 & timer & sy & g1 & b & sp & es2 & p2 & g2 & b' & d' & p3 & g3
        & Hev & Hup & _ & _ & Hen & Hub & ->).
  destruct (handle_events_ok _ _ _ Hok Hev) as ((Hwf & Hall & Hinv & Hsel) & Hm & Hb).
  apply update_boss_bag in Hub as [Hi3 Hs3].
  pose proof (update_enemies_inventory _ _ _ _ _ _ _ Hen) as Hi2.
  pose proof (update_enemies_selected _ _ _ _ _ _ _ Hen) as Hs2.
  apply player_update_keeps in Hup as (_ & _ & _ & _ & _ & Hi1 & Hs1).
  rewrite handle_input_inventory in Hi1.
  assert (Hinv3 : Player.inventory p3 = Player.inventory (Game.player st1)) by congruence.
  assert (Hsel3 : Player.selected p3 ∈ resources).
  { rewrite Hs3, Hs2, Hs1. apply handle_input_selected. exact Hsel. }
  unfold game_ok, material in *. simpl. rewrite Hinv3.
  split; [auto|]. split; [exact Hm | exact Hb].
Qed.

(** The state before the first frame is sound, and its bottom row is
    solid. *)
Lemma four_counts (a b c d : Z) :
  0 <= a -> 0 <= b -> 0 <= c -> 0 <= d ->
  inventory_counts (<["dirt" := a]> (<["stone" := b]> (<["ore" := c]> (<["wood" := d]> ∅)))).
Proof.
  intros Ha Hb Hc Hd. split.
  - intros key Hkey. unfold resources in Hkey.
    repeat (apply elem_of_cons in Hkey as [->|Hkey]);
      [| | | |apply elem_of_nil in Hkey; contradiction];
      eexists; (split; [reflexivity | assumption]).
  - intros key [v Hv]. unfold resources.
    repeat (apply lookup_insert_Some in Hv as [[<- _]|[_ Hv]]; [repeat constructor|]).
    rewrite lookup_empty in Hv. discriminate.
Qed.

Lemma generate_world_ids (width height : Z) (g : Rng) :
  3 <= height ->
  exists world g',
    generate_world width height g = Ok (world, g') /\
    all_tiles (fun t => 0 <= t <= 4) world.
Proof.
  intros Hheight. unfold generate_world.
  pose proof (Z.div_mod height 2 ltac:(lia)) as Hdiv.
  pose proof (Z.mod_pos_bound height 2 ltac:(lia)) as Hmod.
  destruct (fill_columns_total (Z.max 0 width) height (height / 2) (range 0 width)
              ltac:(lia)
              ltac:(intros x Hx; apply elem_of_range in Hx; lia)
              (replicate (Z.to_nat height) (replicate (Z.to_nat width) 0))
              (height / 2) g) as (world & g' & Hrun & _ & Hall).
  - split.
    + rewrite length_replicate. lia.
    + apply Forall_replicate. rewrite length_replicate. lia.
  - apply Forall_replicate, Forall_replicate. lia.
  - exists world, g'. auto.
Qed.

Lemma init_game_sound (g : Rng) :
  exists st0, init_game g = Ok st0 /\ game_ok st0 /\ bedrock (Game.world st0) /\
    (forall x, 0 <= x < WORLD_WIDTH ->
       tile_at (Game.world st0) x (WORLD_HEIGHT - 1) = Some 3 \/
       tile_at (Game.world st0) x (WORLD_HEIGHT - 1) = Some 4) /\
    items_held (Player.inventory (Game.player st0)) = 0.
Proof.
  destruct (generate_world_profile WORLD_WIDTH WORLD_HEIGHT g ltac:(vm_compute; discriminate))
    as (world & g' & hs & Hrun & Hd & Hlen & _ & Hcols).
  destruct (generate_world_ids WORLD_WIDTH WORLD_HEIGHT g ltac:(vm_compute; discriminate))
    as (world2 & g2 & Hrun2 & Hall).
  rewrite Hrun in Hrun2. inversion Hrun2; subst world2 g2. clear Hrun2.
  change (Z.max 0 WORLD_WIDTH) with WORLD_WIDTH in Hd.
  destruct (first_solid_from world _ _ 5 Hd ltac:(unfold WORLD_WIDTH; lia) 60 0
              ltac:(lia) ltac:(reflexivity)) as (found & Hfound & _).
  assert (Hrock : forall x, 0 <= x < WORLD_WIDTH ->
            tile_at world x (WORLD_HEIGHT - 1) = Some 3 \/
            tile_at world x (WORLD_HEIGHT - 1) = Some 4).
  { intros x Hx.
    destruct (lookup_lt_is_Some_2 hs (Z.to_nat x)) as [s Hs]; [lia|].
    destruct (Hcols _ _ Hs) as [Hband (_ & _ & Hdeep & _)].
    rewrite Z2Nat.id in Hdeep by lia.
    apply Hdeep. change (WORLD_HEIGHT / 2 + 4) with 34 in Hband.
    unfold WORLD_HEIGHT. lia. }
  eexists. split.
  { unfold init_game. rewrite Hrun. cbn [mbind result_bind].
    unfold range. change (WORLD_HEIGHT - 0) with (Z.of_nat 60).
    rewrite Hfound. reflexivity. }
  simpl. split; [|split; [|split; [exact Hrock | reflexivity]]].
  - split; [exact Hd|]. split; [|split].
    + eapply Forall_impl; [exact Hall|]. intros row Hrow. simpl in Hrow.
      eapply Forall_impl; [exact Hrow|]. simpl. intros t Ht. lia.
    + apply four_counts; lia.
    + simpl. unfold resources. repeat constructor.
  - intros x Hx. destruct (Hrock x Hx) as [H|H]; eexists; (split; [exact H | discriminate]).
Qed.

(** X14: the game state stays sound.  The state [run_game] sets up is
    sound for every random stream (the grid has 60 rows of 100 tiles with
    ids 0 to 5, the inventory holds a count of 0 or more for each of dirt,
    stone, ore and wood and no other key, the selected resource is one of
    the four), and every frame of every run from a sound state is sound
    again: mining, placing and the key handling cannot break it. *)
Theorem X14_state_stays_sound :
  (forall g, exists st0, init_game g = Ok st0 /\ game_ok st0) /\
  (forall inputs st0, game_ok st0 ->
     forall i st, run inputs st0 !! i = Some st -> game_ok st).
Proof.
  split.
  - intros g. destruct (init_game_sound g) as (st0 & Hinit & Hok & _). eauto.
  - intros inputs st0 Hok i st Hst.
    apply (run_invariant game_ok) with (inputs := inputs) (st := st0) (i := i);
      [|exact Hok|exact Hst].
    intros inp a a' _ Ha Ht. exact (proj1 (tick_ok _ _ _ Ha Ht)).
Qed.

(** X15: the bottom row cannot be dug out.  For every random stream the
    generated grid has stone or ore in every column of row
    WORLD_HEIGHT - 1, and in every frame of every run from there each of
    these tiles is still the tile it was at the start. *)
Theorem X15_bedrock_stays (g : Rng) (inputs : list Input) :
  exists st0, init_game g = Ok st0 /\
    forall x, 0 <= x < WORLD_WIDTH ->
      (tile_at (Game.world st0) x (WORLD_HEIGHT - 1) = Some 3 \/
       tile_at (Game.world st0) x (WORLD_HEIGHT - 1) = Some 4) /\
      forall i st, run inputs st0 !! i = Some st ->
        tile_at (Game.world st) x (WORLD_HEIGHT - 1) =
        tile_at (Game.world st0) x (WORLD_HEIGHT - 1).
Proof.
  destruct (init_game_sound g) as (st0 & Hinit & Hok & Hrock & Hkind & _).
  exists st0. split; [exact Hinit|].
  intros x Hx. split; [exact (Hkind x Hx)|].
  intros i st Hst.
  destruct (Hrock x Hx) as (t & Ht & Hsolid).
  assert (H : game_ok st /\ tile_at (Game.world st) x (WORLD_HEIGHT - 1) = Some t).
  { apply (run_invariant
             (fun st => game_ok st /\ tile_at (Game.world st) x (WORLD_HEIGHT - 1) = Some t))
      with (inputs := inputs) (st := st0) (i := i); [|auto|exact Hst].
    intros inp a a' _ [Ha Hat] Htick.
    destruct (tick_ok _ _ _ Ha Htick) as (Ha' & _ & Hkeep). auto. }
  rewrite Ht. exact (proj2 H).
Qed.

(** X16: material is neither made nor lost.  Along every run from a sound
    state the number of solid tiles of the grid plus the number of items
    in the inventory stays what it was at the start: a mined tile becomes
    one item, a placed item becomes one tile, and nothing else changes
    either. *)
Theorem X16_material_conserved (inputs : list Input) (st0 : Game.t)
    (Hok : game_ok st0) :
  forall i st, run inputs st0 !! i = Some st -> material st = material st0.
Proof.
  intros i st Hst.
  assert (H : game_ok st /\ material st = material st0).
  { apply (run_invariant (fun st => game_ok st /\ material st = material st0))
      with (inputs := inputs) (st := st0) (i := i); [|auto|exact Hst].
    intros inp a a' _ [Ha Hm] Htick.
    destruct (tick_ok _ _ _ Ha Htick) as (Ha' & Hm' & _).
    split; [exact Ha' | congruence]. }
  exact (proj2 H).
Qed.

Lemma flat_start_ok : game_ok flat_start.
Proof.
  split; [exact flat_world_wf|]. split; [|split].
  - apply Forall_app. split; apply Forall_replicate, Forall_replicate; simpl; lia.
  - apply four_counts; lia.
  - simpl. unfold resources. repeat constructor.
Qed.

Lemma X16_material_conserved_witness :
  (fun st => (solid_tiles (Game.world st),
              items_held (Player.inventory (Game.player st))))
    <$> run mine_frames flat_start = [(3000, 0); (2999, 1)] /\
  forall i st, run mine_frames flat_start !! i = Some st ->
    material st = material flat_start.
Proof.
  split; [vm_compute; reflexivity|].
  exact (X16_material_conserved mine_frames flat_start flat_start_ok).
Defined.

(* ===================================================================== *)
(** ** The camera and the event loop                                      *)
(* ===================================================================== *)

Lemma handle_events_unbound (evs : list Event) :
  forall st, Game.camera st = None ->
    (exists ev, ev ∈ evs /\ is_click ev) ->
    handle_events st evs = Raise UnboundLocalError.
Proof.
  induction evs as [|ev evs IH]; intros st Hcam (ev0 & Hin & Hclick).
  - apply elem_of_nil in Hin. contradiction.
  - cbn [handle_events].
    destruct ev as [|button pos|]; simpl.
    + apply IH; [exact Hcam|].
      apply elem_of_cons in Hin as [->|Hin]; [contradiction | eauto].
    + destruct ((button =? 1) || (button =? 3)) eqn:Hb.
      * rewrite Hcam. reflexivity.
      * simpl. apply IH; [exact Hcam|].
        apply elem_of_cons in Hin as [->|Hin]; [|eauto].
        simpl in Hclick. apply orb_false_iff in Hb as [H1 H3].
        apply Z.eqb_neq in H1, H3. lia.
    + apply IH; [exact Hcam|].
      apply elem_of_cons in Hin as [->|Hin]; [contradiction | eauto].
Qed.

Lemma mine_block_total (world : World) (camera mouse_pos : Z * Z) (p : Player.t) :
  wf_world world -> all_tiles (fun t => 0 <= t <= 5) world ->
  inventory_counts (Player.inventory p) ->
  exists r, Player.mine_block world camera mouse_pos p = Ok r.
Proof.
  intros Hwf Hall [Hcounts _]. rewrite mine_block_unfold. cbv zeta.
  set (x := target_x camera mouse_pos). set (y := target_y camera mouse_pos).
  destruct (_ || _); [eauto|].
  destruct (tile_in_world x y) eqn:Hin; [|eauto].
  destruct (world_set_wf world x y 0 Hwf Hin) as (row & tile & Hrow & Htile & Hget & Hset).
  rewrite Hget. cbn [mbind result_bind].
  destruct (negb (tile =? 0) && (y <? WORLD_HEIGHT - 1)) eqn:Hc; [|eauto].
  apply andb_true_iff in Hc as [Hsolid _].
  apply negb_true_iff, Z.eqb_neq in Hsolid.
  pose proof (proj1 (Forall_lookup _ _) Hall _ _ Hrow) as Hrowall. simpl in Hrowall.
  pose proof (proj1 (Forall_lookup _ _) Hrowall _ _ Htile) as Hid. simpl in Hid.
  assert (Ht : tile = 1 \/ tile = 2 \/ tile = 3 \/ tile = 4 \/ tile = 5) by lia.
  unfold resources in Hcounts.
  destruct Ht as [->|[->|[->|[->| ->]]]]; simpl;
    [destruct (Hcounts "dirt") as (c & Hc & _) |
     destruct (Hcounts "dirt") as (c & Hc & _) |
     destruct (Hcounts "stone") as (c & Hc & _) |
     destruct (Hcounts "ore") as (c & Hc & _) |
     destruct (Hcounts "wood") as (c & Hc & _)];
    try (repeat constructor);
    unfold Player.inventory_add; rewrite Hc; cbn [mbind result_bind];
    rewrite Hset; cbn [mbind result_bind]; eauto.
Qed.

Lemma place_block_total (world : World) (camera mouse_pos : Z * Z) (p : Player.t) :
  wf_world world ->
  exists r, Player.place_block world camera mouse_pos p = Ok r.
Proof.
  intros Hwf. rewrite place_block_unfold. cbv zeta.
  set (x := target_x camera mouse_pos). set (y := target_y camera mouse_pos).
  destruct (default 0 (Player.inventory p !! Player.selected p) <=? 0) eqn:Hcount; [eauto|].
  apply Z.leb_gt in Hcount.
  destruct (Player.inventory p !! Player.selected p) as [c|] eqn:Hc;
    [|simpl in Hcount; lia].
  destruct (tile_in_world x y) eqn:Hin; [|eauto].
  destruct (world_set_wf world x y 0 Hwf Hin) as (row & tile & Hrow & Htile & Hget & _).
  rewrite Hget. cbn [mbind result_bind].
  destruct (tile =? 0); [|eauto].
  destruct (negb (Rect.colliderect _ _)); [|eauto].
  rewrite (inventory_add_Some _ _ c) by exact Hc.
  assert (Hset : forall v, exists w, world_set world y x v = Ok w).
  { intros v. destruct (world_set_wf world x y v Hwf Hin) as (? & ? & _ & _ & _ & Hs). eauto. }
  destruct (String.eqb (Player.selected p) "dirt");
    [destruct (Hset 1) as [w ->]; cbn [mbind result_bind]; eauto|].
  destruct (String.eqb (Player.selected p) "stone");
    [destruct (Hset 3) as [w ->]; cbn [mbind result_bind]; eauto|].
  destruct (String.eqb (Player.selected p) "ore");
    [destruct (Hset 4) as [w ->]; cbn [mbind result_bind]; eauto|].
  destruct (String.eqb (Player.selected p) "wood");
    [destruct (Hset 5) as [w ->]; cbn [mbind result_bind]; eauto|].
  cbn [mbind result_bind]. eauto.
Qed.

Lemma handle_events_total (evs : list Event) :
  forall st, game_ok st -> is_Some (Game.camera st) ->
    exists st', handle_events st evs = Ok st'.
Proof.
  induction evs as [|ev evs IH]; intros st Hok Hcam; [simpl; eauto|].
  cbn [handle_events].
  assert (H1 : exists st1, handle_event st ev = Ok st1).
  { destruct Hok as (Hwf & Hall & Hinv & _).
    destruct ev as [|button pos|]; simpl; [eauto| |eauto].
    destruct ((button =? 1) || (button =? 3)); [|eauto].
    destruct Hcam as [cam ->].
    destruct (button =? 1).
    - destruct (mine_block_total (Game.world st) cam pos (Game.player st) Hwf Hall Hinv)
        as [[w p] ->]. simpl. eauto.
    - destruct (place_block_total (Game.world st) cam pos (Game.player st) Hwf)
        as [[w p] ->]. simpl. eauto. }
  destruct H1 as [st1 H1]. rewrite H1. cbn [mbind result_bind].
  apply IH.
  - exact (proj1 (handle_event_ok _ _ _ Hok H1)).
  - apply handle_event_beyond in H1. unfold beyond_events in H1.
    assert (Hc : Game.camera st1 = Game.camera st) by congruence.
    rewrite Hc. exact Hcam.
Qed.

(** X17: the camera.  It is unassigned until the first frame has updated
    the player, so a left or right click among the events of a frame that
    starts without camera ends the program with UnboundLocalError, as in
    the very first frame.  Every frame that completes leaves a camera that
    keeps the screen inside the world, [0 <= camera_x <= 2240] and
    [0 <= camera_y <= 1380], and from a sound state with a camera the
    event loop never raises. *)
Theorem X17_camera :
  (forall g, exists st0, init_game g = Ok st0 /\ Game.camera st0 = None) /\
  (forall inp st, Game.camera st = None ->
     (exists ev, ev ∈ events inp /\ is_click ev) ->
     tick inp st = Raise UnboundLocalError /\ forall inputs, run (inp :: inputs) st = []) /\
  (forall inp st st', tick inp st = Ok st' ->
     exists cx cy, Game.camera st' = Some (cx, cy) /\
       0 <= cx <= WORLD_WIDTH * TILE_SIZE - SCREEN_WIDTH /\
       0 <= cy <= WORLD_HEIGHT * TILE_SIZE - SCREEN_HEIGHT /\
       WORLD_WIDTH * TILE_SIZE - SCREEN_WIDTH = 2240 /\
       WORLD_HEIGHT * TILE_SIZE - SCREEN_HEIGHT = 1380) /\
  (forall st evs, game_ok st -> is_Some (Game.camera st) ->
     exists st', handle_events st evs = Ok st').
Proof.
  split; [|split; [|split]].
  - intros g. destruct (init_game_sound g) as (st0 & Hinit & _).
    exists st0. split; [exact Hinit|].
    unfold init_game in Hinit.
    apply bind_Ok in Hinit as ([world g1] & _ & Hinit).
    apply bind_Ok in Hinit as (found & _ & Hinit).
    inversion Hinit. reflexivity.
  - intros inp st Hcam Hclick.
    assert (Ht : tick inp st = Raise UnboundLocalError).
    { unfold tick. rewrite (handle_events_unbound _ _ Hcam Hclick). reflexivity. }
    split; [exact Ht|].
    intros inputs. cbn [run]. rewrite Ht. destruct (Game.running st); reflexivity.
  - intros inp st st' H.
    apply tick_outline in H
      as (st1 & p1 & es1 & timer & sy & g1 & b & sp & es2 & p2 & g2 & b' & d' & p3 & g3
          & _ & _ & _ & _ & _ & _ & ->).
    simpl. unfold camera_of. eexists _, _. split; [reflexivity|].
    unfold WORLD_WIDTH, WORLD_HEIGHT, TILE_SIZE, SCREEN_WIDTH, SCREEN_HEIGHT. lia.
  - intros st evs. apply handle_events_total.
Qed.

(* ===================================================================== *)
(** ** Collision resolution in every direction                            *)
(* ===================================================================== *)

(** The sign tests on a displacement exclude each other. *)
Lemma ltb_zero_neg (d : float) : (d <? 0)%float = true -> (0 <? d)%float = false.
Proof.
  rewrite !FloatAxioms.ltb_spec.
  change (FloatOps.Prim2SF 0%float) with (SpecFloat.S754_zero false).
  destruct (FloatOps.Prim2SF d) as [s|s| |s m e]; try destruct s;
    cbv [SpecFloat.SFltb SpecFloat.SFcompare]; congruence.
Qed.

Section AnyPass.

Variable world : World.
Hypothesis Hwf : wf_world world.
Variables dx dy : float.

(** A later snap overrides an earlier one. *)
Lemma snap_snap (tile_x tile_y tile_x' tile_y' : Z) (s : Sprite) :
  snap dx dy tile_x tile_y (snap dx dy tile_x' tile_y' s) = snap dx dy tile_x tile_y s.
Proof.
  unfold snap.
  destruct (0 <? dy)%float, (dy <? 0)%float, (0 <? dx)%float, (dx <? 0)%float;
    destruct s as [[x y w h] vx vy og hl cd]; reflexivity.
Qed.

Lemma resolve_corner_any (s : Sprite) (c : Z * Z) :
  resolve_corner world dx dy s c =
  Ok (if corner_hits world c then snap dx dy (fst c / TILE_SIZE) (snd c / TILE_SIZE) s
      else s).
Proof.
  destruct c as [cx cy]. unfold resolve_corner, corner_hits. simpl.
  destruct (tile_in_world (cx / TILE_SIZE) (cy / TILE_SIZE)) eqn:Hin; [|reflexivity].
  destruct (world_get_wf _ _ _ Hwf Hin) as (tile & Hget & Hat).
  rewrite Hget, Hat. simpl. destruct (is_solid tile); reflexivity.
Qed.

Lemma resolve_corners_any (cs : list (Z * Z)) :
  forall s,
    resolve_corners world dx dy s cs =
    Ok (match last (filter (fun c => corner_hits world c = true) cs) with
        | Some c => snap dx dy (fst c / TILE_SIZE) (snd c / TILE_SIZE) s
        | None => s
        end).
Proof.
  induction cs as [|c cs IH]; intros s; [reflexivity|].
  cbn [resolve_corners]. rewrite resolve_corner_any. simpl.
  rewrite IH, filter_cons.
  destruct (corner_hits world c) eqn:Hc.
  - rewrite decide_True by reflexivity. rewrite last_cons.
    destruct (last (filter _ cs)); [rewrite snap_snap|]; reflexivity.
  - rewrite decide_False by discriminate. reflexivity.
Qed.

End AnyPass.

(** *** Rectangles that fit pygame's integers *)

(** Snapping against a tile of the world keeps a rectangle that fits
    fitting: the snapped edge lies on the world's tile grid. *)
Lemma snap_fits (dx dy : float) (tile_x tile_y : Z) (s : Sprite) :
  tile_in_world tile_x tile_y = true ->
  Rect.fits (rect s) -> Rect.fits (rect (snap dx dy tile_x tile_y s)).
Proof.
  unfold tile_in_world, WORLD_WIDTH, WORLD_HEIGHT. intros Hin.
  apply andb_true_iff in Hin as [Hin Hy2]. apply andb_true_iff in Hin as [Hin Hy1].
  apply andb_true_iff in Hin as [Hx1 Hx2].
  apply Z.leb_le in Hx1, Hy1. apply Z.ltb_lt in Hx2, Hy2.
  destruct s as [[x y w h] vx vy og hl cd].
  unfold Rect.fits, snap, TILE_SIZE.
  destruct (0 <? dy)%float, (dy <? 0)%float, (0 <? dx)%float, (dx <? 0)%float;
    cbn; lia.
Qed.

Lemma snapped_fits (world : World) (dx dy : float) (s : Sprite) :
  Rect.fits (rect s) -> Rect.fits (rect (snapped world dx dy s)).
Proof.
  intros Hfits. unfold snapped, last_hit.
  destruct (last (filter _ (corners (rect s)))) as [c|] eqn:Hlast; [|exact Hfits].
  apply snap_fits; [|exact Hfits].
  apply last_Some_elem_of, list_elem_of_filter in Hlast as [Hc _].
  unfold corner_hits in Hc. apply andb_true_iff in Hc as [Hc _]. exact Hc.
Qed.

Lemma snapped_width (world : World) (dx dy : float) (s : Sprite) :
  Rect.w (rect (snapped world dx dy s)) = Rect.w (rect s).
Proof.
  unfold snapped. destruct (last_hit world (rect s)); [|reflexivity].
  apply snap_keeps.
Qed.

Lemma sunk_sprite_fits : Rect.fits (rect sunk_sprite).
Proof. fits_by_computation. Qed.

(** X18: the last solid corner wins.  On the game's grid, for a sprite
    whose rectangle fits pygame's integers, collision resolution returns
    the sprite snapped once, against the tile of the last of its four
    corners (top-left, top-right, bottom-left, bottom-right, as sampled
    before any snapping) that lies in a solid tile; snaps against earlier
    corners leave no trace, and a sprite with no corner in a solid tile is
    returned as it is.  The Enemy and the Boss then clamp the result to the
    world's width.  The snapped rectangle fits again, and so does the
    clamped one when the sprite is no wider than the world. *)
Theorem X18_last_solid_corner_wins (world : World) (s : Sprite) (dx dy : float)
    (Hwf : wf_world world) (Hfits : Rect.fits (rect s)) :
  Player._resolve_collisions world s dx dy = Ok (snapped world dx dy s) /\
  Enemy._resolve_collisions world s dx dy = Ok (keep_within_world (snapped world dx dy s)) /\
  Boss._resolve_collisions world s dx dy = Ok (keep_within_world (snapped world dx dy s)) /\
  Rect.fits (rect (snapped world dx dy s)) /\
  (Rect.w (rect s) <= WORLD_WIDTH * TILE_SIZE ->
   Rect.fits (rect (keep_within_world (snapped world dx dy s)))).
Proof.
  unfold Player._resolve_collisions, Enemy._resolve_collisions, Boss._resolve_collisions.
  rewrite (resolve_corners_any world Hwf).
  do 3 (split; [reflexivity|]). split; [apply snapped_fits; exact Hfits|].
  intros Hwide.
  apply keep_within_world_clamps; [apply snapped_fits; exact Hfits|].
  rewrite snapped_width. exact Hwide.
Qed.

Lemma X18_last_solid_corner_wins_witness :
  last_hit flat_world (rect sunk_sprite) = Some (175, 967) /\
  Rect.bottom (rect (snapped flat_world 0 5 sunk_sprite)) = 960 /\
  Rect.fits (rect sunk_sprite) /\
  Player._resolve_collisions flat_world sunk_sprite 0 5
    = Ok (snapped flat_world 0 5 sunk_sprite).
Proof.
  split; [vm_compute; reflexivity|]. split; [vm_compute; reflexivity|].
  split; [exact sunk_sprite_fits|].
  exact (proj1 (X18_last_solid_corner_wins flat_world sunk_sprite 0%float 5%float
                  flat_world_wf sunk_sprite_fits)).
Defined.

(** X19: walls and ceilings.  When some corner of the player lies in a
    solid tile, with [(tile_x, tile_y)] the tile of the last such corner:
    the horizontal pass ([dy = 0]) moving right puts the right edge on the
    tile's left edge [tile_x * TILE_SIZE], moving left puts the left edge
    on the tile's right edge [(tile_x + 1) * TILE_SIZE], and either way
    the vertical position, both velocities and the ground flag are left
    alone (the horizontal velocity is not zeroed); the vertical pass
    ([dx = 0]) moving up puts the top edge on the tile's bottom edge
    [(tile_y + 1) * TILE_SIZE] and zeroes the vertical velocity, leaving
    the horizontal position and the ground flag alone. *)
Theorem X19_walls_and_ceilings (world : World) (s : Sprite) (c : Z * Z) (d : float)
    (Hwf : wf_world world) (Hhit : last_hit world (rect s) = Some c) :
  let tile_x := fst c / TILE_SIZE in
  let tile_y := snd c / TILE_SIZE in
  ((0 <? d)%float = true ->
   exists s', Player._resolve_collisions world s d 0 = Ok s' /\
     Rect.right (rect s') = tile_x * TILE_SIZE /\
     Rect.y (rect s') = Rect.y (rect s) /\
     vel_x s' = vel_x s /\ vel_y s' = vel_y s /\ on_ground s' = on_ground s) /\
  ((d <? 0)%float = true ->
   exists s', Player._resolve_collisions world s d 0 = Ok s' /\
     Rect.left (rect s') = (tile_x + 1) * TILE_SIZE /\
     Rect.y (rect s') = Rect.y (rect s) /\
     vel_x s' = vel_x s /\ vel_y s' = vel_y s /\ on_ground s' = on_ground s) /\
  ((d <? 0)%float = true ->
   exists s', Player._resolve_collisions world s 0 d = Ok s' /\
     Rect.top (rect s') = (tile_y + 1) * TILE_SIZE /\
     Rect.x (rect s') = Rect.x (rect s) /\
     vel_y s' = 0%float /\ vel_x s' = vel_x s /\ on_ground s' = on_ground s).
Proof.
  intros tile_x tile_y.
  unfold Player._resolve_collisions.
  rewrite !(resolve_corners_any world Hwf).
  unfold last_hit in Hhit. rewrite Hhit. fold tile_x tile_y.
  split; [|split]; intros Hd; eexists; (split; [reflexivity|]); unfold snap.
  - rewrite Hd. change (0 <? 0)%float with false. change (0 <? 0)%float with false.
    simpl. unfold Rect.right, Rect.set_right, Rect.set_x. simpl.
    repeat split; lia.
  - rewrite (ltb_zero_neg _ Hd), Hd. change (0 <? 0)%float with false.
    simpl. repeat split.
  - rewrite (ltb_zero_neg _ Hd), Hd. change (0 <? 0)%float with false.
    simpl. repeat split.
Qed.

Lemma X19_walls_and_ceilings_witness :
  last_hit flat_world (rect sprite_in_wall) = Some (171, 1007) /\
  exists s', Player._resolve_collisions flat_world sprite_in_wall 4 0 = Ok s' /\
    Rect.right (rect s') = 171 / TILE_SIZE * TILE_SIZE /\
    Rect.y (rect s') = Rect.y (rect sprite_in_wall) /\
    vel_x s' = vel_x sprite_in_wall /\ vel_y s' = vel_y sprite_in_wall /\
    on_ground s' = on_ground sprite_in_wall.
Proof.
  split; [vm_compute; reflexivity|].
  apply (proj1 (X19_walls_and_ceilings flat_world sprite_in_wall (171, 1007) 4%float
                  flat_world_wf ltac:(vm_compute; reflexivity))).
  reflexivity.
Defined.

(** *** Enemies and the boss stay inside the world's width *)

Lemma keep_within_world_bounds (s : Sprite) :
  Rect.w (rect s) <= WORLD_WIDTH * TILE_SIZE ->
  0 <= Rect.left (rect (keep_within_world s)) /\
  Rect.right (rect (keep_within_world s)) <= WORLD_WIDTH * TILE_SIZE /\
  Rect.w (rect (keep_within_world s)) = Rect.w (rect s).
Proof.
  intros Hw. unfold keep_within_world.
  destruct (Rect.left (rect s) <? 0) eqn:Hl;
    [apply Z.ltb_lt in Hl | apply Z.ltb_ge in Hl];
    match goal with |- context [if ?b then _ else _] => destruct b eqn:Hr end;
    [apply Z.ltb_lt in Hr | apply Z.ltb_ge in Hr |
     apply Z.ltb_lt in Hr | apply Z.ltb_ge in Hr];
    simpl in *;
    unfold Rect.left, Rect.right, Rect.set_left, Rect.set_right, Rect.set_x in *;
    simpl in *; lia.
Qed.

(** A move with the clamping resolver ends inside the world's width. *)
Lemma move_and_collide_clamped (world : World) (s s' : Sprite) :
  Rect.w (rect s) <= WORLD_WIDTH * TILE_SIZE ->
  move_and_collide Enemy._resolve_collisions world s = Ok s' ->
  0 <= Rect.left (rect s') /\
  Rect.right (rect s') <= WORLD_WIDTH * TILE_SIZE /\
  Rect.w (rect s') = Rect.w (rect s) /\
  health s' = health s.
Proof.
  intros Hw H. unfold move_and_collide in H.
  apply bind_Ok in H as (s1 & H1 & H). apply bind_Ok in H as (s2 & H2 & H).
  inversion H; subst. clear H.
  unfold move_horizontal, Enemy._resolve_collisions in H1.
  apply bind_Ok in H1 as (ix & _ & H1). apply bind_Ok in H1 as (s1' & H1 & H1').
  inversion H1'; subst. clear H1'.
  apply resolve_corners_keeps in H1 as (Hh1 & _ & _ & Hw1 & _). simpl in Hh1, Hw1.
  unfold move_vertical, Enemy._resolve_collisions in H2.
  apply bind_Ok in H2 as (iy & _ & H2). apply bind_Ok in H2 as (s2' & H2 & H2').
  inversion H2'; subst. clear H2'.
  apply resolve_corners_keeps in H2 as (Hh2 & _ & _ & Hw2 & _). simpl in Hh2, Hw2.
  assert (Hw1' : Rect.w (rect (keep_within_world s1')) = Rect.w (rect s)).
  { unfold keep_within_world.
    destruct (Rect.left (rect s1') <? 0);
      match goal with |- context [if ?b then _ else _] => destruct b end;
      simpl; exact Hw1. }
  assert (Hw2' : Rect.w (rect s2') <= WORLD_WIDTH * TILE_SIZE) by lia.
  destruct (keep_within_world_bounds s2' Hw2') as (Hl & Hr & Hwk).
  assert (Hrect : rect (cool_down (keep_within_world s2')) = rect (keep_within_world s2'))
    by (unfold cool_down; destruct (0 <? _); reflexivity).
  assert (Hhealth : health (cool_down (keep_within_world s2')) = health s).
  { rewrite keep_within_world_health in Hh2.
    unfold cool_down. destruct (0 <? _); simpl;
      rewrite keep_within_world_health; congruence. }
  rewrite Hrect. repeat split; try assumption. lia.
Qed.

(** Collision resolution keeps a rectangle that fits fitting. *)
Lemma resolve_corners_fits (world : World) (dx dy : float) (cs : list (Z * Z)) :
  forall s s', Rect.fits (rect s) -> resolve_corners world dx dy s cs = Ok s' ->
    Rect.fits (rect s').
Proof.
  induction cs as [|[cx cy] cs IH]; intros s s' Hfits H; simpl in H.
  - injection H as <-. exact Hfits.
  - apply bind_Ok in H as (s1 & H1 & H). apply (IH s1); [|exact H].
    unfold resolve_corner in H1.
    destruct (tile_in_world (cx / TILE_SIZE) (cy / TILE_SIZE)) eqn:Hin;
      [|injection H1 as <-; exact Hfits].
    apply bind_Ok in H1 as (tile & _ & H1).
    destruct (is_solid tile); injection H1 as <-;
      [apply snap_fits; assumption | exact Hfits].
Qed.

(** The horizontal pass ([dy = 0]) leaves the vertical position and the
    vertical velocity alone. *)
Lemma snap_level (dx : float) (tile_x tile_y : Z) (s : Sprite) :
  vel_y (snap dx 0 tile_x tile_y s) = vel_y s /\
  Rect.y (rect (snap dx 0 tile_x tile_y s)) = Rect.y (rect s).
Proof.
  unfold snap. change (0 <? 0)%float with false. cbn iota.
  destruct (0 <? dx)%float, (dx <? 0)%float; simpl; auto.
Qed.

Lemma resolve_corners_level (world : World) (dx : float) (cs : list (Z * Z)) :
  forall s s', resolve_corners world dx 0 s cs = Ok s' ->
    vel_y s' = vel_y s /\ Rect.y (rect s') = Rect.y (rect s).
Proof.
  induction cs as [|[cx cy] cs IH]; intros s s' H; simpl in H.
  - injection H as <-. auto.
  - apply bind_Ok in H as (s1 & H1 & H). apply IH in H as [Hv Hy].
    rewrite Hv, Hy. clear Hv Hy.
    unfold resolve_corner in H1.
    destruct (tile_in_world (cx / TILE_SIZE) (cy / TILE_SIZE));
      [|injection H1 as <-; auto].
    apply bind_Ok in H1 as (tile & _ & H1).
    destruct (is_solid tile); injection H1 as <-; [apply snap_level | auto].
Qed.

Lemma keep_within_world_vel_y (s : Sprite) : vel_y (keep_within_world s) = vel_y s.
Proof.
  unfold keep_within_world.
  destruct (Rect.left (rect s) <? 0);
    match goal with |- context [if ?b then _ else _] => destruct b end; reflexivity.
Qed.

(** A move with the clamping resolver keeps the rectangle fitting, when the
    two displacements do. *)
Lemma move_and_collide_fits (world : World) (s s' : Sprite) :
  Rect.fits (rect s) -> step_fits s ->
  Rect.w (rect s) <= WORLD_WIDTH * TILE_SIZE ->
  move_and_collide Enemy._resolve_collisions world s = Ok s' ->
  Rect.fits (rect s').
Proof.
  intros Hfits [Hsx Hsy] Hw H. unfold move_and_collide in H.
  apply bind_Ok in H as (s1 & H1 & H). apply bind_Ok in H as (s2 & H2 & H).
  injection H as <-.
  unfold move_horizontal, Enemy._resolve_collisions in H1.
  apply bind_Ok in H1 as (ix & Hix & H1). apply bind_Ok in H1 as (s1' & H1 & H1').
  injection H1' as <-.
  cbn [vel_x set_vel_y rect] in Hix. specialize (Hsx ix Hix).
  pose proof (resolve_corners_keeps _ _ _ _ _ _ H1) as (_ & _ & _ & Hw1 & _).
  pose proof (resolve_corners_level _ _ _ _ _ H1) as (Hv1 & Hy1).
  apply resolve_corners_fits in H1;
    [|destruct Hfits as (Hx & Hy & Hww & Hh); unfold Rect.fits; simpl; lia].
  simpl in Hw1, Hv1, Hy1.
  assert (Hk1 : Rect.fits (rect (keep_within_world s1'))).
  { apply keep_within_world_clamps; [exact H1 | lia]. }
  assert (Hkw1 : Rect.w (rect (keep_within_world s1')) = Rect.w (rect s)).
  { rewrite (proj2 (proj2 (keep_within_world_bounds s1' ltac:(lia)))). exact Hw1. }
  unfold move_vertical, Enemy._resolve_collisions in H2.
  apply bind_Ok in H2 as (iy & Hiy & H2). apply bind_Ok in H2 as (s2' & H2 & H2').
  injection H2' as <-.
  rewrite keep_within_world_vel_y, Hv1 in Hiy. specialize (Hsy iy Hiy).
  pose proof (resolve_corners_keeps _ _ _ _ _ _ H2) as (_ & _ & _ & Hw2 & _).
  apply resolve_corners_fits in H2.
  - assert (Hrect : rect (cool_down (keep_within_world s2')) = rect (keep_within_world s2'))
      by (unfold cool_down; destruct (0 <? _); reflexivity).
    rewrite Hrect. apply keep_within_world_clamps; [exact H2|].
    simpl in Hw2. lia.
  - destruct Hk1 as (Hx & Hy & Hww & Hh). unfold Rect.fits, displace_vertical.
    simpl. rewrite keep_within_world_y, Hy1. lia.
Qed.

Lemma chase_keeps (player : Player.t) (s : Sprite) (g : Rng) :
  (rect (fst (Enemy.chase player s g)) = rect s /\
   health (fst (Enemy.chase player s g)) = health s) /\
  (rect (fst (Boss.chase player s g)) = rect s /\
   health (fst (Boss.chase player s g)) = health s).
Proof.
  unfold Enemy.chase, Boss.chase.
  split;
    destruct (Rect.centerx _ <? Rect.centerx _);
    match goal with |- context [if ?c then _ else _] => destruct c end;
    try (destruct (random_random g) as [u g1];
         match goal with |- context [if ?c then _ else _] => destruct c end);
    auto.
Qed.

(** X20: enemies and the boss cannot leave the world sideways.  Whatever
    the grid, for a body and a player whose rectangles fit pygame's
    integers and a body whose two displacements of the frame keep it so, a
    body no wider than the world ends its [update] with its rectangle
    inside the world's width, [0 <= left] and
    [right <= WORLD_WIDTH * TILE_SIZE], its width and its health unchanged
    and its rectangle fitting again; this holds for [Enemy.update] and for
    [Boss.update]. *)
Theorem X20_enemy_and_boss_stay_in_world (world : World) (player : Player.t)
    (s s' : Sprite) (g g' : Rng)
    (Hfits : Rect.fits (rect s))
    (Hplayer : Rect.fits (rect (Player.body player)))
    (Hw : Rect.w (rect s) <= WORLD_WIDTH * TILE_SIZE)
    (Hup : (step_fits (fst (Enemy.chase player s g)) /\
            Enemy.update world player s g = Ok (s', g')) \/
           (step_fits (fst (Boss.chase player s g)) /\
            Boss.update world player s g = Ok (s', g'))) :
  0 <= Rect.left (rect s') /\
  Rect.right (rect s') <= WORLD_WIDTH * TILE_SIZE /\
  Rect.w (rect s') = Rect.w (rect s) /\
  health s' = health s /\
  Rect.fits (rect s').
Proof.
  destruct (chase_keeps player s g) as [[Her Heh] [Hbr Hbh]].
  destruct Hup as [[Hstep H] | [Hstep H]].
  - unfold Enemy.update in H.
    destruct (Enemy.chase player s g) as [s0 g0] eqn:Hchase. simpl in *.
    apply bind_Ok in H as (s1 & H1 & H).
    assert (s1 = s') by congruence. subst s1. clear H.
    pose proof (move_and_collide_fits _ _ _ ltac:(rewrite Her; exact Hfits) Hstep
                  ltac:(rewrite Her; exact Hw) H1) as Hf.
    apply move_and_collide_clamped in H1; [|rewrite Her; exact Hw].
    rewrite Her, Heh in H1. destruct H1 as (? & ? & ? & ?). auto.
  - unfold Boss.update in H.
    destruct (Boss.chase player s g) as [s0 g0] eqn:Hchase. simpl in *.
    apply bind_Ok in H as (s1 & H1 & H).
    assert (s1 = s') by congruence. subst s1. clear H.
    change (move_and_collide Boss._resolve_collisions world s0)
      with (move_and_collide Enemy._resolve_collisions world s0) in H1.
    pose proof (move_and_collide_fits _ _ _ ltac:(rewrite Hbr; exact Hfits) Hstep
                  ltac:(rewrite Hbr; exact Hw) H1) as Hf.
    apply move_and_collide_clamped in H1; [|rewrite Hbr; exact Hw].
    rewrite Hbr, Hbh in H1. destruct H1 as (? & ? & ? & ?). auto.
Qed.

Lemma X20_enemy_and_boss_stay_in_world_witness :
  Rect.left (rect enemy_at_column_0) = -16 /\
  exists s' g',
    Enemy.update flat_world (standing_player 0 0) enemy_at_column_0 rng_twos = Ok (s', g') /\
    0 <= Rect.left (rect s') /\
    Rect.right (rect s') <= WORLD_WIDTH * TILE_SIZE /\
    Rect.w (rect s') = Rect.w (rect enemy_at_column_0) /\
    health s' = health enemy_at_column_0 /\
    Rect.fits (rect s').
Proof.
  split; [reflexivity|].
  destruct (Enemy.update flat_world (standing_player 0 0) enemy_at_column_0 rng_twos)
    as [[s' g']|e] eqn:Hup.
  - exists s', g'. split; [reflexivity|].
    apply (X20_enemy_and_boss_stay_in_world flat_world (standing_player 0 0)
             enemy_at_column_0 s' rng_twos g').
    + exact enemy_at_column_0_fits.
    + fits_by_computation.
    + vm_compute. discriminate.
    + left. split; [|exact Hup].
      split;
        (intros i Hi; vm_compute in Hi; injection Hi as <-;
         vm_compute; split; [discriminate | reflexivity]).
  - vm_compute in Hup. discriminate.
Defined.

(** *** Knockback *)

Lemma mine_block_knocked (world : World) (camera mouse_pos : Z * Z) (p : Player.t)
    (v : float) :
  Player.mine_block world camera mouse_pos (with_player_vel_x v p) =
  ('(world', p') ← Player.mine_block world camera mouse_pos p;
   Ok (world', with_player_vel_x v p')).
Proof.
  unfold Player.mine_block. destruct mouse_pos as [mx my]. simpl.
  repeat match goal with
         | |- context [if ?c then _ else _] => destruct c; simpl; try reflexivity
         | |- context [world_get ?w ?y ?x] => destruct (world_get w y x); simpl; try reflexivity
         | |- context [world_set ?w ?y ?x ?t] => destruct (world_set w y x t); simpl; try reflexivity
         | |- context [Player.inventory_add ?k ?n ?i] =>
             destruct (Player.inventory_add k n i); simpl; try reflexivity
         end.
Qed.

Lemma place_block_knocked (world : World) (camera mouse_pos : Z * Z) (p : Player.t)
    (v : float) :
  Player.place_block world camera mouse_pos (with_player_vel_x v p) =
  ('(world', p') ← Player.place_block world camera mouse_pos p;
   Ok (world', with_player_vel_x v p')).
Proof.
  unfold Player.place_block. destruct mouse_pos as [mx my]. simpl.
  repeat match goal with
         | |- context [if ?c then _ else _] => destruct c; simpl; try reflexivity
         | |- context [world_get ?w ?y ?x] => destruct (world_get w y x); simpl; try reflexivity
         | |- context [world_set ?w ?y ?x ?t] => destruct (world_set w y x t); simpl; try reflexivity
         | |- context [Player.inventory_add ?k ?n ?i] =>
             destruct (Player.inventory_add k n i); simpl; try reflexivity
         end.
Qed.

Lemma handle_event_knocked (st : Game.t) (ev : Event) (v : float) :
  handle_event (knocked v st) ev = (st' ← handle_event st ev; Ok (knocked v st')).
Proof.
  destruct ev as [|button pos|]; simpl; try reflexivity.
  destruct ((button =? 1) || (button =? 3)); [|reflexivity].
  destruct (Game.camera st) as [cam|]; [|reflexivity].
  destruct (button =? 1).
  - rewrite mine_block_knocked.
    destruct (Player.mine_block _ _ _ _) as [[w p]|e]; reflexivity.
  - rewrite place_block_knocked.
    destruct (Player.place_block _ _ _ _) as [[w p]|e]; reflexivity.
Qed.

Lemma handle_events_knocked (evs : list Event) (v : float) :
  forall st,
    handle_events (knocked v st) evs = (st' ← handle_events st evs; Ok (knocked v st')).
Proof.
  induction evs as [|ev evs IH]; intros st; [reflexivity|].
  cbn [handle_events]. rewrite handle_event_knocked.
  destruct (handle_event st ev) as [st1|e]; [|reflexivity].
  cbn [mbind result_bind]. apply IH.
Qed.

Lemma handle_input_knocked (keys : Keys) (p : Player.t) (v : float) :
  Player.handle_input keys (with_player_vel_x v p) = Player.handle_input keys p.
Proof. reflexivity. Qed.

(** X21: knockback has no effect on the next frame.  The horizontal
    velocity that a hit adds to or takes from the player ([vel_x += 2],
    [vel_x -= 4], ...) is overwritten by the key handling before anything
    reads it: a frame started from a state with any other horizontal
    velocity of the player gives exactly the same outcome, and so does
    every run. *)
Theorem X21_knockback_is_discarded (v : float) :
  (forall inp st, tick inp (knocked v st) = tick inp st) /\
  (forall inputs st, run inputs (knocked v st) = run inputs st).
Proof.
  assert (Htick : forall inp st, tick inp (knocked v st) = tick inp st).
  { intros inp st. unfold tick. rewrite handle_events_knocked.
    destruct (handle_events st (events inp)) as [st1|e]; reflexivity. }
  split; [exact Htick|].
  intros inputs st. destruct inputs as [|inp inputs]; [reflexivity|].
  cbn [run]. rewrite Htick. reflexivity.
Qed.

(* ===================================================================== *)
(** ** Drawing the world                                                  *)
(* ===================================================================== *)

Lemma tile_image_air : tile_image 0 = None.
Proof. reflexivity. Qed.

(** One row of the tile window. *)
Lemma draw_world_row_spec (world : World) (camera : Z * Z) (y : Z) (xs : list Z) :
  wf_world world -> 0 <= y < WORLD_HEIGHT ->
  exists blits,
    draw_world_row world camera y xs = Ok blits /\
    forall img d,
      mkBlit img d ∈ blits <->
      exists x tile,
        x ∈ xs /\ 0 <= x < WORLD_WIDTH /\
        tile_at world x y = Some tile /\ tile_image tile = Some img /\
        d = (x * TILE_SIZE - fst camera, y * TILE_SIZE - snd camera).
Proof.
  intros Hwf Hy. induction xs as [|x xs IH].
  - exists []. split; [reflexivity|]. intros img d. split.
    + intros H. apply elem_of_nil in H. contradiction.
    + intros (x & tile & H & _). apply elem_of_nil in H. contradiction.
  - destruct IH as (rest & Hrest & Hspec). cbn [draw_world_row].
    destruct ((0 <=? x) && (x <? WORLD_WIDTH)) eqn:Hx.
    + apply andb_true_iff in Hx as [Hx0 Hx1].
      apply Z.leb_le in Hx0. apply Z.ltb_lt in Hx1.
      assert (Hin : tile_in_world x y = true) by (apply tile_in_world_spec; lia).
      destruct (world_get_wf _ _ _ Hwf Hin) as (tile & Hget & Hat).
      rewrite Hget, Hrest. cbn [mbind result_bind].
      eexists. split; [reflexivity|].
      assert (Hlist :
        (if negb (tile =? 0)
         then match tile_image tile with
              | Some img =>
                  mkBlit img (x * TILE_SIZE - fst camera, y * TILE_SIZE - snd camera) :: rest
              | None => rest
              end
         else rest) =
        match tile_image tile with
        | Some img =>
            mkBlit img (x * TILE_SIZE - fst camera, y * TILE_SIZE - snd camera) :: rest
        | None => rest
        end).
      { destruct (tile =? 0) eqn:Hz; [|reflexivity].
        apply Z.eqb_eq in Hz. subst tile. reflexivity. }
      rewrite Hlist. clear Hlist.
      intros img d. split.
      * intros Hb.
        destruct (tile_image tile) as [img0|] eqn:Himg.
        -- apply elem_of_cons in Hb as [Hb | Hb].
           ++ inversion Hb; subst. exists x, tile.
              split; [apply elem_of_cons; left; reflexivity|]. auto.
           ++ apply Hspec in Hb as (x' & tile' & Hx' & H').
              exists x', tile'. split; [apply elem_of_cons; right; exact Hx' | exact H'].
        -- apply Hspec in Hb as (x' & tile' & Hx' & H').
           exists x', tile'. split; [apply elem_of_cons; right; exact Hx' | exact H'].
      * intros (x' & tile' & Hx' & Hr' & Hat' & Himg' & Hd).
        apply elem_of_cons in Hx' as [-> | Hx'].
        -- rewrite Hat in Hat'. inversion Hat'; subst tile'. rewrite Himg'.
           apply elem_of_cons. left. rewrite Hd. reflexivity.
        -- assert (Hb : mkBlit img d ∈ rest) by (apply Hspec; eauto 8).
           destruct (tile_image tile); [apply elem_of_cons; right|]; exact Hb.
    + exists rest. split; [exact Hrest|].
      intros img d. rewrite Hspec. split.
      * intros (x' & tile' & Hx' & H'). exists x', tile'.
        split; [apply elem_of_cons; right; exact Hx' | exact H'].
      * intros (x' & tile' & Hx' & Hr' & H').
        apply elem_of_cons in Hx' as [-> | Hx']; [|eauto 8].
        apply andb_false_iff in Hx as [Hx | Hx];
          [apply Z.leb_gt in Hx | apply Z.ltb_ge in Hx]; lia.
Qed.

(** The rows of the tile window. *)
Lemma draw_world_rows_spec (world : World) (camera : Z * Z) (ys xs : list Z) :
  wf_world world ->
  exists blits,
    draw_world_rows world camera ys xs = Ok blits /\
    forall img d,
      mkBlit img d ∈ blits <->
      exists x y tile,
        x ∈ xs /\ y ∈ ys /\ tile_in_world x y = true /\
        tile_at world x y = Some tile /\ tile_image tile = Some img /\
        d = (x * TILE_SIZE - fst camera, y * TILE_SIZE - snd camera).
Proof.
  intros Hwf. induction ys as [|y ys IH].
  - exists []. split; [reflexivity|]. intros img d. split.
    + intros H. apply elem_of_nil in H. contradiction.
    + intros (x & y & tile & _ & H & _). apply elem_of_nil in H. contradiction.
  - destruct IH as (rest & Hrest & Hspec). cbn [draw_world_rows].
    destruct ((0 <=? y) && (y <? WORLD_HEIGHT)) eqn:Hy.
    + apply andb_true_iff in Hy as [Hy0 Hy1].
      apply Z.leb_le in Hy0. apply Z.ltb_lt in Hy1.
      destruct (draw_world_row_spec world camera y xs Hwf ltac:(lia))
        as (row & Hrow & Hrspec).
      rewrite Hrow, Hrest. cbn [mbind result_bind].
      eexists. split; [reflexivity|].
      intros img d. rewrite elem_of_app, Hrspec, Hspec. split.
      * intros [(x & tile & Hx & Hr & Hat & Himg & Hd)
               | (x & y' & tile & Hx & Hy' & H')].
        -- exists x, y, tile. split; [exact Hx|].
           split; [apply elem_of_cons; left; reflexivity|].
           split; [apply tile_in_world_spec; lia | auto].
        -- exists x, y', tile. split; [exact Hx|].
           split; [apply elem_of_cons; right; exact Hy' | exact H'].
      * intros (x & y' & tile & Hx & Hy' & Hin & Hat & Himg & Hd).
        apply elem_of_cons in Hy' as [-> | Hy'].
        -- left. exists x, tile. apply tile_in_world_spec in Hin. 
           split; [exact Hx|]. split; [lia|]. auto.
        -- right. exists x, y', tile. auto 8.
    + exists rest. split; [exact Hrest|].
      intros img d. rewrite Hspec. split.
      * intros (x & y' & tile & Hx & Hy' & H'). exists x, y', tile.
        split; [exact Hx|]. split; [apply elem_of_cons; right; exact Hy' | exact H'].
      * intros (x & y' & tile & Hx & Hy' & Hin & H').
        apply elem_of_cons in Hy' as [-> | Hy']; [|eauto 10].
        apply tile_in_world_spec in Hin.
        apply andb_false_iff in Hy as [Hy | Hy];
          [apply Z.leb_gt in Hy | apply Z.ltb_ge in Hy]; lia.
Qed.

(** X22: what [draw_world] draws.  On the game's grid it never raises,
    whatever the camera.  It blits exactly the tiles with an image (ids 1
    to 5) that lie inside the world and inside the window of 32 x 18 tiles
    that starts at the camera's tile, each at its pixel position minus the
    camera.  Every such tile that overlaps the 960 x 540 screen is inside
    the window, so it is drawn. *)
Theorem X22_draw_world (world : World) (camera : Z * Z) (Hwf : wf_world world) :
  exists blits,
    draw_world world camera = Ok blits /\
    (forall img d,
       mkBlit img d ∈ blits <->
       exists x y tile,
         fst camera / TILE_SIZE <= x < fst camera / TILE_SIZE + 32 /\
         snd camera / TILE_SIZE <= y < snd camera / TILE_SIZE + 18 /\
         tile_in_world x y = true /\
         tile_at world x y = Some tile /\ tile_image tile = Some img /\
         d = (x * TILE_SIZE - fst camera, y * TILE_SIZE - snd camera)) /\
    (forall x y tile img,
       tile_in_world x y = true ->
       tile_at world x y = Some tile -> tile_image tile = Some img ->
       x * TILE_SIZE < fst camera + SCREEN_WIDTH -> fst camera < (x + 1) * TILE_SIZE ->
       y * TILE_SIZE < snd camera + SCREEN_HEIGHT -> snd camera < (y + 1) * TILE_SIZE ->
       mkBlit img (x * TILE_SIZE - fst camera, y * TILE_SIZE - snd camera) ∈ blits).
Proof.
  unfold draw_world. cbv zeta.
  change (SCREEN_WIDTH / TILE_SIZE + 2) with 32.
  change (SCREEN_HEIGHT / TILE_SIZE + 2) with 18.
  destruct (draw_world_rows_spec world camera
              (range (snd camera / TILE_SIZE) (snd camera / TILE_SIZE + 18))
              (range (fst camera / TILE_SIZE) (fst camera / TILE_SIZE + 32)) Hwf)
    as (blits & Hrun & Hspec).
  exists blits. split; [exact Hrun|].
  assert (Hchar : forall img d,
            mkBlit img d ∈ blits <->
            exists x y tile,
              fst camera / TILE_SIZE <= x < fst camera / TILE_SIZE + 32 /\
              snd camera / TILE_SIZE <= y < snd camera / TILE_SIZE + 18 /\
              tile_in_world x y = true /\
              tile_at world x y = Some tile /\ tile_image tile = Some img /\
              d = (x * TILE_SIZE - fst camera, y * TILE_SIZE - snd camera)).
  { intros img d. rewrite Hspec. split.
    - intros (x & y & tile & Hx & Hy & H'). exists x, y, tile.
      apply elem_of_range in Hx, Hy. auto.
    - intros (x & y & tile & Hx & Hy & H'). exists x, y, tile.
      split; [apply elem_of_range; exact Hx|].
      split; [apply elem_of_range; exact Hy | exact H']. }
  split; [exact Hchar|].
  intros x y tile img Hin Hat Himg Hx1 Hx2 Hy1 Hy2.
  apply Hchar. exists x, y, tile.
  unfold TILE_SIZE, SCREEN_WIDTH, SCREEN_HEIGHT in *.
  pose proof (Z.div_mod (fst camera) 32 ltac:(lia)) as Hdx.
  pose proof (Z.mod_pos_bound (fst camera) 32 ltac:(lia)) as Hmx.
  pose proof (Z.div_mod (snd camera) 32 ltac:(lia)) as Hdy.
  pose proof (Z.mod_pos_bound (snd camera) 32 ltac:(lia)) as Hmy.
  split; [lia|]. split; [lia|]. auto.
Qed.

Lemma X22_draw_world_witness :
  match draw_world flat_world (0, 666) with
  | Ok blits => length blits
  | Raise _ => 0%nat
  end = 256%nat /\
  exists blits,
    draw_world flat_world (0, 666) = Ok blits /\
    (forall img d,
       mkBlit img d ∈ blits <->
       exists x y tile,
         fst (0, 666) / TILE_SIZE <= x < fst (0, 666) / TILE_SIZE + 32 /\
         snd (0, 666) / TILE_SIZE <= y < snd (0, 666) / TILE_SIZE + 18 /\
         tile_in_world x y = true /\
         tile_at flat_world x y = Some tile /\ tile_image tile = Some img /\
         d = (x * TILE_SIZE - fst (0, 666), y * TILE_SIZE - snd (0, 666))) /\
    (forall x y tile img,
       tile_in_world x y = true ->
       tile_at flat_world x y = Some tile -> tile_image tile = Some img ->
       x * TILE_SIZE < fst (0, 666) + SCREEN_WIDTH -> fst (0, 666) < (x + 1) * TILE_SIZE ->
       y * TILE_SIZE < snd (0, 666) + SCREEN_HEIGHT -> snd (0, 666) < (y + 1) * TILE_SIZE ->
       mkBlit img (x * TILE_SIZE - fst (0, 666), y * TILE_SIZE - snd (0, 666)) ∈ blits).
Proof.
  split; [vm_compute; reflexivity|].
  exact (X22_draw_world flat_world (0, 666) flat_world_wf).
Defined.

(* ===================================================================== *)
(** ** Standing still                                                     *)
(* ===================================================================== *)

Lemma handle_input_still (keys : Keys) (p : Player.t) :
  no_move_keys keys ->
  no_jump_keys keys \/ on_ground (Player.body p) = false ->
  Player.body (Player.handle_input keys p) = set_vel_x 0%float (Player.body p).
Proof.
  intros (Ha & Hl & Hd & Hr) Hjump. unfold Player.handle_input.
  rewrite Ha, Hl, Hd, Hr. simpl.
  assert (Hno : (K_w keys || K_UP keys || K_SPACE keys) && on_ground (Player.body p) = false).
  { destruct Hjump as [(Hw & Hu & Hs) | Hg].
    - rewrite Hw, Hu, Hs. reflexivity.
    - rewrite Hg. apply andb_false_r. }
  rewrite Hno.
  destruct (K_1 keys), (K_2 keys), (K_3 keys), (K_4 keys); reflexivity.
Qed.

Lemma player_resolve_snapped (world : World) (s : Sprite) (dx dy : float) :
  wf_world world ->
  Player._resolve_collisions world s dx dy = Ok (snapped world dx dy s).
Proof.
  intros Hwf. unfold Player._resolve_collisions.
  rewrite (resolve_corners_any world Hwf). reflexivity.
Qed.

Lemma snapped_clear (world : World) (dx dy : float) (s : Sprite) :
  last_hit world (rect s) = None -> snapped world dx dy s = s.
Proof. intros H. unfold snapped. rewrite H. reflexivity. Qed.

Lemma snapped_hit (world : World) (dx dy : float) (s : Sprite) (c : Z * Z) :
  last_hit world (rect s) = Some c ->
  snapped world dx dy s = snap dx dy (fst c / TILE_SIZE) (snd c / TILE_SIZE) s.
Proof. intros H. unfold snapped. rewrite H. reflexivity. Qed.

Lemma snapped_still (world : World) (s : Sprite) : snapped world 0 0 s = s.
Proof. unfold snapped. destruct (last_hit world (rect s)); reflexivity. Qed.

Ltac sprite_fields :=
  unfold displace_vertical, set_vel_x, set_vel_y, set_rect, set_on_ground,
    Rect.set_x, Rect.set_y;
  cbn [vel_x vel_y rect on_ground health hurt_cooldown Rect.x Rect.y Rect.w Rect.h].

(** The first frame at rest: gravity gives a fall of less than one pixel,
    nothing is hit, and the ground flag is left cleared. *)
Lemma rest_first_frame (world : World) (tile_y : Z) (s : Sprite) :
  wf_world world -> rests_on world tile_y s ->
  move_and_collide Player._resolve_collisions world (set_vel_x 0%float s) =
  Ok (cool_down (mkSprite (rect s) 0%float 0.6%float false (health s) (hurt_cooldown s))).
Proof.
  intros Hwf (Hvy & Hbot & Hclear & _).
  destruct s as [[x y w h] vx vy og hl cd].
  cbn [rect vel_y] in Hvy, Hclear. subst vy.
  unfold move_and_collide, move_horizontal. sprite_fields.
  change (0 + GRAVITY)%float with 0.6%float.
  change (int_of_float 0%float) with (Ok 0 : result Z). cbn [mbind result_bind].
  rewrite player_resolve_snapped by exact Hwf. cbn [mbind result_bind].
  rewrite snapped_still, Z.add_0_r.
  unfold move_vertical. sprite_fields.
  change (int_of_float 0.6%float) with (Ok 0 : result Z). cbn [mbind result_bind].
  rewrite player_resolve_snapped by exact Hwf. sprite_fields.
  rewrite Z.add_0_r.
  rewrite snapped_clear by exact Hclear. reflexivity.
Qed.

(** The second frame: the fall is one pixel, the body lands and is put
    back where it was, with the ground flag set. *)
Lemma rest_second_frame (world : World) (tile_y : Z) (s : Sprite) (g : bool) (cd : Z) :
  wf_world world -> rests_on world tile_y s ->
  move_and_collide Player._resolve_collisions world
    (set_vel_x 0%float (mkSprite (rect s) 0%float 0.6%float g (health s) cd)) =
  Ok (cool_down (mkSprite (rect s) 0%float 0%float true (health s) cd)).
Proof.
  intros Hwf (Hvy & Hbot & _ & c & Hbelow & Hc).
  destruct s as [[x y w h] vx vy og hl cd0].
  unfold displace_vertical, set_on_ground, set_rect, Rect.set_y in Hbelow.
  cbn [rect vel_y Rect.x Rect.y Rect.w Rect.h] in Hvy, Hbelow, Hbot.
  subst vy.
  unfold move_and_collide, move_horizontal. sprite_fields.
  change (0.6 + GRAVITY)%float with 1.2%float.
  change (int_of_float 0%float) with (Ok 0 : result Z). cbn [mbind result_bind].
  rewrite player_resolve_snapped by exact Hwf. cbn [mbind result_bind].
  rewrite snapped_still, Z.add_0_r.
  unfold move_vertical. sprite_fields.
  change (int_of_float 1.2%float) with (Ok 1 : result Z). cbn [mbind result_bind].
  rewrite player_resolve_snapped by exact Hwf. sprite_fields.
  rewrite (snapped_hit _ _ _ _ c) by exact Hbelow.
  rewrite Hc. unfold snap.
  change (0 <? 1.2)%float with true. change (0 <? 0)%float with false.
  unfold Rect.set_bottom. sprite_fields.
  unfold Rect.bottom in Hbot. cbn [Rect.y Rect.h] in Hbot.
  replace (tile_y * TILE_SIZE - h) with y by lia. reflexivity.
Qed.

Lemma player_update_body (world : World) (p : Player.t) (s' : Sprite) :
  move_and_collide Player._resolve_collisions world (Player.body p) = Ok s' ->
  Player.update world p = Ok (Player.set_body s' p).
Proof. intros H. unfold Player.update. rewrite H. reflexivity. Qed.

(** X23: a player at rest is on the ground only every second frame.  For
    a player resting on a tile, with no movement key held: a frame without
    jump key leaves the rectangle where it is but ends with
    [on_ground = False] and [vel_y = 0.6] (the fall of 0.6 pixel truncates
    to 0, so nothing is hit); the next frame, whatever jump keys are held,
    falls one pixel, lands, and ends with the rectangle where it was,
    [vel_y = 0] and [on_ground = True], at rest again.  A jump key held
    in that second frame is ignored. *)
Theorem X23_ground_flag_flickers (world : World) (tile_y : Z) (p : Player.t)
    (keys1 keys2 : Keys)
    (Hwf : wf_world world)
    (Hrest : rests_on world tile_y (Player.body p))
    (Hkeys1 : no_move_keys keys1 /\ no_jump_keys keys1)
    (Hkeys2 : no_move_keys keys2) :
  exists p1 p2,
    Player.update world (Player.handle_input keys1 p) = Ok p1 /\
    rect (Player.body p1) = rect (Player.body p) /\
    vel_y (Player.body p1) = 0.6%float /\
    on_ground (Player.body p1) = false /\
    Player.update world (Player.handle_input keys2 p1) = Ok p2 /\
    rect (Player.body p2) = rect (Player.body p) /\
    vel_y (Player.body p2) = 0%float /\
    on_ground (Player.body p2) = true /\
    rests_on world tile_y (Player.body p2).
Proof.
  destruct Hkeys1 as [Hmove1 Hjump1].
  set (s := Player.body p) in *.
  set (s1 := cool_down (mkSprite (rect s) 0%float 0.6%float false (health s)
                          (hurt_cooldown s))).
  assert (Hs1 : exists cd, s1 = mkSprite (rect s) 0%float 0.6%float false (health s) cd).
  { unfold s1, cool_down. destruct (0 <? _); eexists; reflexivity. }
  destruct Hs1 as [cd Hs1].
  set (p1 := Player.set_body s1 (Player.handle_input keys1 p)).
  set (s2 := cool_down (mkSprite (rect s) 0%float 0%float true (health s) cd)).
  assert (Hs2 : exists cd', s2 = mkSprite (rect s) 0%float 0%float true (health s) cd').
  { unfold s2, cool_down. destruct (0 <? _); eexists; reflexivity. }
  destruct Hs2 as [cd' Hs2].
  exists p1, (Player.set_body s2 (Player.handle_input keys2 p1)).
  assert (Hfirst : Player.update world (Player.handle_input keys1 p) = Ok p1).
  { apply player_update_body.
    rewrite handle_input_still by (auto || exact Hmove1).
    exact (rest_first_frame world tile_y s Hwf Hrest). }
  assert (Hsecond : Player.update world (Player.handle_input keys2 p1)
                    = Ok (Player.set_body s2 (Player.handle_input keys2 p1))).
  { apply player_update_body.
    rewrite handle_input_still;
      [|exact Hkeys2 | right; unfold p1; simpl; rewrite Hs1; reflexivity].
    unfold p1. cbn [Player.body Player.set_body]. rewrite Hs1.
    exact (rest_second_frame world tile_y s false cd Hwf Hrest). }
  assert (Hb1 : Player.body p1 = s1) by reflexivity.
  assert (Hb2 : Player.body (Player.set_body s2 (Player.handle_input keys2 p1)) = s2)
    by reflexivity.
  rewrite Hb1, Hb2.
  split; [exact Hfirst|].
  split; [rewrite Hs1; reflexivity|]. split; [rewrite Hs1; reflexivity|].
  split; [rewrite Hs1; reflexivity|].
  split; [exact Hsecond|].
  split; [rewrite Hs2; reflexivity|]. split; [rewrite Hs2; reflexivity|].
  split; [rewrite Hs2; reflexivity|].
  destruct Hrest as (_ & Hbot & Hclear & c & Hbelow & Hc).
  rewrite Hs2.
  split; [reflexivity|]. split; [exact Hbot|]. split; [exact Hclear|].
  exists c. split; [exact Hbelow | exact Hc].
Qed.

Lemma standing_player_rests : rests_on flat_world 30 (Player.body (standing_player 0 0)).
Proof.
  split; [reflexivity|]. split; [reflexivity|]. split; [vm_compute; reflexivity|].
  exists (175, 960). split; vm_compute; reflexivity.
Qed.

Lemma X23_ground_flag_flickers_witness :
  exists p1 p2,
    Player.update flat_world (Player.handle_input idle_keys (standing_player 0 0)) = Ok p1 /\
    rect (Player.body p1) = rect (Player.body (standing_player 0 0)) /\
    vel_y (Player.body p1) = 0.6%float /\
    on_ground (Player.body p1) = false /\
    Player.update flat_world (Player.handle_input jump_keys p1) = Ok p2 /\
    rect (Player.body p2) = rect (Player.body (standing_player 0 0)) /\
    vel_y (Player.body p2) = 0%float /\
    on_ground (Player.body p2) = true /\
    rests_on flat_world 30 (Player.body p2).
Proof.
  apply (X23_ground_flag_flickers flat_world 30 (standing_player 0 0) idle_keys jump_keys
           flat_world_wf standing_player_rests).
  - split; repeat split; reflexivity.
  - repeat split; reflexivity.
Defined.

(* ===================================================================== *)
(** ** The sky                                                            *)
(* ===================================================================== *)

(** X24: the sky colour over the day.  For every value the clock takes
    the colour is computed without exception and is a valid colour between
    the half-way blend (60, 90, 162) and the day colour (100, 150, 255);
    the night colour (20, 30, 70) itself never shows, at time 0 the sky is
    at the half-way blend, and it is exactly the day colour at
    DAY_LENGTH / 2 and at no other time. *)
Theorem X24_sky_color (time_of_day : Z) (Htod : 0 <= time_of_day < DAY_LENGTH) :
  exists r g b,
    sky_color time_of_day = Ok (r, g, b) /\
    60 <= r <= 100 /\ 90 <= g <= 150 /\ 162 <= b <= 255 /\
    ((r, g, b) = (100, 150, 255) <-> time_of_day = DAY_LENGTH / 2) /\
    sky_color 0 = Ok (60, 90, 162).
Proof.
  assert (Hall : forallb (fun t => match sky_color t with
                    | Ok (r, g, b) =>
                        (60 <=? r) && (r <=? 100) && (90 <=? g) && (g <=? 150)
                        && (162 <=? b) && (b <=? 255)
                        && Bool.eqb ((r =? 100) && (g =? 150) && (b =? 255))
                                    (t =? DAY_LENGTH / 2)
                    | Raise _ => false
                    end) (range 0 DAY_LENGTH) = true)
    by (vm_compute; reflexivity).
  rewrite forallb_forall in Hall.
  assert (Hin : In time_of_day (range 0 DAY_LENGTH))
    by (apply list_elem_of_In; unfold range; apply elem_of_seqZ; lia).
  apply Hall in Hin.
  destruct (sky_color time_of_day) as [[[r g] b]|e]; [|discriminate].
  exists r, g, b. split; [reflexivity|].
  repeat (apply andb_true_iff in Hin as [Hin ?]).
  repeat match goal with
         | H : (_ <=? _) = true |- _ => apply Z.leb_le in H
         end.
  split; [lia|]. split; [lia|]. split; [lia|]. split; [|vm_compute; reflexivity].
  match goal with H : Bool.eqb _ _ = true |- _ => apply Bool.eqb_prop in H; rename H into Hnoon end.
  split.
  - intros Heq. inversion Heq; subst. simpl in Hnoon.
    symmetry in Hnoon. apply Z.eqb_eq in Hnoon. exact Hnoon.
  - intros Heq. apply Z.eqb_eq in Heq. rewrite Heq in Hnoon.
    apply andb_true_iff in Hnoon as [Hnoon Hb]. apply andb_true_iff in Hnoon as [Hr Hg].
    apply Z.eqb_eq in Hr, Hg, Hb. congruence.
Qed.

Lemma X24_sky_color_witness :
  exists r g b,
    sky_color 300 = Ok (r, g, b) /\
    60 <= r <= 100 /\ 90 <= g <= 150 /\ 162 <= b <= 255 /\
    ((r, g, b) = (100, 150, 255) <-> 300 = DAY_LENGTH / 2) /\
    sky_color 0 = Ok (60, 90, 162).
Proof.
  apply X24_sky_color. unfold DAY_LENGTH. lia.
Defined.

(* ===================================================================== *)
(** ** Moving freely                                                      *)
(* ===================================================================== *)

(** X25: movement when nothing is in the way.  For a player whose
    rectangle fits pygame's integers before the frame and after the two
    displacements: if no corner of the player lies in a solid tile after
    the horizontal step, nor after the vertical step, then [Player.update]
    moves the rectangle by exactly [int(vel_x)] horizontally and
    [int(vel_y + GRAVITY)] vertically (velocities truncated toward zero),
    adds GRAVITY to the vertical velocity, leaves the horizontal velocity
    and the size alone and ends with [on_ground = False], its rectangle
    fitting again. *)
Theorem X25_free_movement (world : World) (p : Player.t) (ix iy : Z)
    (Hwf : wf_world world)
    (Hfits : Rect.fits (rect (Player.body p)))
    (Hix : int_of_float (vel_x (Player.body p)) = Ok ix)
    (Hiy : int_of_float (vel_y (Player.body p) + GRAVITY)%float = Ok iy)
    (Hfree_x : last_hit world
                 (Rect.set_x (Rect.x (rect (Player.body p)) + ix) (rect (Player.body p)))
               = None)
    (Hfree_y : last_hit world
                 (Rect.set_y (Rect.y (rect (Player.body p)) + iy)
                    (Rect.set_x (Rect.x (rect (Player.body p)) + ix)
                       (rect (Player.body p))))
               = None)
    (Hmoved : Rect.fits
                (Rect.mk (Rect.x (rect (Player.body p)) + ix)
                   (Rect.y (rect (Player.body p)) + iy)
                   (Rect.w (rect (Player.body p))) (Rect.h (rect (Player.body p))))) :
  exists p',
    Player.update world p = Ok p' /\
    rect (Player.body p') =
      Rect.mk (Rect.x (rect (Player.body p)) + ix) (Rect.y (rect (Player.body p)) + iy)
        (Rect.w (rect (Player.body p))) (Rect.h (rect (Player.body p))) /\
    vel_x (Player.body p') = vel_x (Player.body p) /\
    vel_y (Player.body p') = (vel_y (Player.body p) + GRAVITY)%float /\
    on_ground (Player.body p') = false /\
    Rect.fits (rect (Player.body p')).
Proof.
  destruct p as [[[x y w h] vx vy og hl cd] inv sel].
  cbn [Player.body rect vel_x vel_y Rect.x Rect.y Rect.w Rect.h] in *.
  unfold Rect.set_x, Rect.set_y in Hfree_x, Hfree_y.
  cbn [Rect.x Rect.y Rect.w Rect.h] in Hfree_x, Hfree_y.
  eexists. split.
  - apply player_update_body. cbn [Player.body].
    unfold move_and_collide, move_horizontal. sprite_fields.
    rewrite Hix. cbn [mbind result_bind].
    rewrite player_resolve_snapped by exact Hwf. cbn [mbind result_bind].
    rewrite snapped_clear by exact Hfree_x.
    unfold move_vertical. sprite_fields.
    rewrite Hiy. cbn [mbind result_bind].
    rewrite player_resolve_snapped by exact Hwf. sprite_fields.
    rewrite snapped_clear by exact Hfree_y. reflexivity.
  - cbn [Player.body Player.set_body]. unfold cool_down.
    destruct (0 <? _); simpl; auto.
Qed.

Lemma X25_free_movement_witness :
  Rect.fits (rect (Player.body falling_player)) /\
  exists p',
    Player.update air_world falling_player = Ok p' /\
    rect (Player.body p') =
      Rect.mk (Rect.x (rect (Player.body falling_player)) + 0)
        (Rect.y (rect (Player.body falling_player)) + 5)
        (Rect.w (rect (Player.body falling_player)))
        (Rect.h (rect (Player.body falling_player))) /\
    vel_x (Player.body p') = vel_x (Player.body falling_player) /\
    vel_y (Player.body p') = (vel_y (Player.body falling_player) + GRAVITY)%float /\
    on_ground (Player.body p') = false /\
    Rect.fits (rect (Player.body p')).
Proof.
  split; [fits_by_computation|].
  apply (X25_free_movement air_world falling_player 0 5 air_world_wf);
    first [vm_compute; reflexivity | fits_by_computation].
Defined.

(** *** Jumping *)

Lemma flight_shift (n : nat) :
  forall dy v, flight n dy v = (fun '(a, b) => (dy + a, b)) <$> flight n 0 v.
Proof.
  induction n as [|n IH]; intros dy v; simpl; [reflexivity|].
  destruct (int_of_float (v + GRAVITY)%float) as [iy|e]; [|reflexivity].
  rewrite fmap_cons. f_equal.
  rewrite (IH (dy + iy)), (IH (0 + iy)), <- list_fmap_compose.
  apply list_fmap_ext. intros i [a b] _. simpl. f_equal. lia.
Qed.

Lemma flight_prefix (n : nat) :
  forall m dy v, (n <= m)%nat -> length (flight m dy v) = m ->
    flight n dy v = take n (flight m dy v).
Proof.
  induction n as [|n IH]; intros m dy v Hnm Hlen; [reflexivity|].
  destruct m as [|m]; [lia|]. simpl in *.
  destruct (int_of_float (v + GRAVITY)%float) as [iy|e]; [|discriminate].
  simpl in *. f_equal. apply IH; lia.
Qed.

Lemma handle_input_jump (keys : Keys) (p : Player.t) :
  no_move_keys keys ->
  K_w keys || K_UP keys || K_SPACE keys = true ->
  on_ground (Player.body p) = true ->
  Player.body (Player.handle_input keys p) =
  mkSprite (rect (Player.body p)) 0%float (float_of_int (- PLAYER_JUMP)) false
    (health (Player.body p)) (hurt_cooldown (Player.body p)).
Proof.
  intros (Ha & Hl & Hd & Hr) Hjump Hg. unfold Player.handle_input.
  rewrite Ha, Hl, Hd, Hr. simpl. rewrite Hjump, Hg. simpl.
  destruct (K_1 keys), (K_2 keys), (K_3 keys), (K_4 keys); reflexivity.
Qed.

(** One frame in the air with no horizontal velocity and nothing hit. *)
Lemma flight_frame (world : World) (p : Player.t) (k : Keys) (r : Rect.t) (v : float)
    (hl cd iy : Z) :
  wf_world world ->
  Player.body (Player.handle_input k p) = mkSprite r 0%float v false hl cd ->
  int_of_float (v + GRAVITY)%float = Ok iy ->
  last_hit world (Rect.set_y (Rect.y r + iy) r) = None ->
  exists p' cd',
    Player.update world (Player.handle_input k p) = Ok p' /\
    Player.body p' = mkSprite (Rect.set_y (Rect.y r + iy) r) 0%float (v + GRAVITY)%float
                       false hl cd'.
Proof.
  intros Hwf Hbody Hiy Hfree.
  assert (Hmove : move_and_collide Player._resolve_collisions world
                    (Player.body (Player.handle_input k p)) =
                  Ok (cool_down (mkSprite (Rect.set_y (Rect.y r + iy) r) 0%float
                                   (v + GRAVITY)%float false hl cd))).
  { rewrite Hbody. destruct r as [x y w h].
    unfold Rect.set_y in Hfree. cbn [Rect.x Rect.y Rect.w Rect.h] in Hfree.
    unfold move_and_collide, move_horizontal. sprite_fields.
    change (int_of_float 0%float) with (Ok 0 : result Z). cbn [mbind result_bind].
    rewrite player_resolve_snapped by exact Hwf. cbn [mbind result_bind].
    rewrite snapped_still, Z.add_0_r.
    unfold move_vertical. sprite_fields.
    rewrite Hiy. cbn [mbind result_bind].
    rewrite player_resolve_snapped by exact Hwf. sprite_fields.
    rewrite snapped_clear by exact Hfree. reflexivity. }
  apply player_update_body in Hmove.
  eexists. 
  exists (hurt_cooldown (cool_down (mkSprite (Rect.set_y (Rect.y r + iy) r) 0%float
                                      (v + GRAVITY)%float false hl cd))).
  split; [exact Hmove|].
  cbn [Player.body Player.set_body]. unfold cool_down.
  destruct (0 <? _); reflexivity.
Qed.

(** Frames in the air, nothing hit: the body follows [flight]. *)
Lemma flight_frames (world : World) (ks : list Keys) :
  wf_world world ->
  forall (p : Player.t) (k : Keys) (r : Rect.t) (v : float) (hl cd : Z),
    Player.body (Player.handle_input k p) = mkSprite r 0%float v false hl cd ->
    Forall no_move_keys ks ->
    length (flight (S (length ks)) (Rect.y r) v) = S (length ks) ->
    (forall i y' v', flight (S (length ks)) (Rect.y r) v !! i = Some (y', v') ->
       last_hit world (Rect.set_y y' r) = None) ->
    exists p' y' v',
      player_frames world (k :: ks) p = Ok p' /\
      last (flight (S (length ks)) (Rect.y r) v) = Some (y', v') /\
      rect (Player.body p') = Rect.set_y y' r /\
      vel_y (Player.body p') = v' /\
      on_ground (Player.body p') = false /\
      health (Player.body p') = hl.
Proof.
  intros Hwf. induction ks as [|k2 ks IH]; intros p k r v hl cd Hbody Hmove Hlen Hfree.
  - cbn [length flight] in *.
    destruct (int_of_float (v + GRAVITY)%float) as [iy|e] eqn:Hiy; [|discriminate].
    pose proof (Hfree 0%nat _ _ eq_refl) as Hfree0.
    destruct (flight_frame world p k r v hl cd iy Hwf Hbody Hiy Hfree0)
      as (p' & cd' & Hup & Hb').
    exists p', (Rect.y r + iy), (v + GRAVITY)%float.
    cbn [player_frames]. rewrite Hup. cbn [mbind result_bind].
    rewrite Hb'. repeat split.
  - cbn [length] in *. 
    remember (S (length ks)) as n eqn:Hn.
    cbn [flight] in Hlen, Hfree |- *.
    destruct (int_of_float (v + GRAVITY)%float) as [iy|e] eqn:Hiy; [|discriminate].
    pose proof (Hfree 0%nat _ _ eq_refl) as Hfree0.
    destruct (flight_frame world p k r v hl cd iy Hwf Hbody Hiy Hfree0)
      as (p1 & cd1 & Hup & Hb1).
    apply Forall_cons in Hmove as [Hk2 Hmove].
    assert (Hbody2 : Player.body (Player.handle_input k2 p1) =
                     mkSprite (Rect.set_y (Rect.y r + iy) r) 0%float (v + GRAVITY)%float
                       false hl cd1).
    { rewrite handle_input_still; [|exact Hk2 | right; rewrite Hb1; reflexivity].
      rewrite Hb1. reflexivity. }
    subst n.
    destruct (IH p1 k2 (Rect.set_y (Rect.y r + iy) r) (v + GRAVITY)%float hl cd1
                Hbody2 Hmove) as (p' & y' & v' & Hrun & Hlast & Hrect & Hvel & Hair & Hhl).
    + cbn [length] in Hlen. destruct r as [x y w h]. cbn [Rect.y Rect.set_y] in *.
      injection Hlen as Hlen. exact Hlen.
    + intros i y' v' Hi. destruct r as [x y w h]. cbn [Rect.y Rect.set_y] in *.
      exact (Hfree (S i) y' v' Hi).
    + exists p', y', v'.
      split; [cbn [player_frames] in Hrun |- *; rewrite Hup; cbn [mbind result_bind];
              exact Hrun|].
      destruct r as [x y w h]. cbn [Rect.y Rect.set_y Rect.x Rect.w Rect.h] in *.
      split; [|auto].
      rewrite last_cons, Hlast. reflexivity.
Qed.

(** X26: the arc of a jump.  A player on the ground with a jump key held
    in one frame and no movement key held in this and the following
    frames, less than 40 frames in all, whose corners stay clear of solid
    tiles at the heights of the arc, rises and falls along a fixed list of
    offsets: 11 pixels in the first frame, 21 after the second, ..., at most
    106 pixels (3 tiles and 10 pixels), reached after 18 frames.  The
    ground flag stays cleared, so jump keys held during the arc do
    nothing; health is unchanged. *)
Theorem X26_jump_arc (world : World) (p : Player.t) (k : Keys) (ks : list Keys)
    (Hwf : wf_world world)
    (Hground : on_ground (Player.body p) = true)
    (Hjump : K_w k || K_UP k || K_SPACE k = true)
    (Hmove : Forall no_move_keys (k :: ks))
    (Hlen : (length ks < 39)%nat)
    (Hfree : forall i dy, (i <= length ks)%nat -> jump_heights !! i = Some dy ->
       last_hit world (Rect.set_y (Rect.y (rect (Player.body p)) + dy)
                         (rect (Player.body p))) = None) :
  exists p' dy,
    player_frames world (k :: ks) p = Ok p' /\
    jump_heights !! length ks = Some dy /\
    rect (Player.body p') =
      Rect.set_y (Rect.y (rect (Player.body p)) + dy) (rect (Player.body p)) /\
    on_ground (Player.body p') = false /\
    health (Player.body p') = health (Player.body p) /\
    -106 <= dy /\
    (length ks = 17%nat -> dy = -106) /\
    take 18 jump_heights =
      [-11; -21; -31; -40; -49; -57; -64; -71; -77; -83; -88; -92; -96; -99; -102;
       -104; -105; -106].
Proof.
  apply Forall_cons in Hmove as [Hk Hmove].
  pose proof (handle_input_jump k p Hk Hjump Hground) as Hbody.
  set (r := rect (Player.body p)) in *.
  set (v := float_of_int (- PLAYER_JUMP)) in *.
  set (F := flight 39 0 v).
  assert (HF : length F = 39%nat) by (vm_compute; reflexivity).
  assert (Hflight : flight (S (length ks)) (Rect.y r) v =
                    (fun '(a, b) => (Rect.y r + a, b)) <$> take (S (length ks)) F).
  { rewrite flight_shift. f_equal. apply flight_prefix; [lia | exact HF]. }
  assert (Hlow : Forall (fun a => -106 <= a) jump_heights)
    by (vm_compute; repeat constructor; discriminate).
  destruct (flight_frames world ks Hwf p k r v _ _ Hbody Hmove)
    as (p' & y' & v' & Hrun & Hlast & Hrect & _ & Hair & Hhl).
  - rewrite Hflight, length_fmap, length_take, HF. lia.
  - intros i y' v' Hi. rewrite Hflight, list_lookup_fmap in Hi.
    destruct (take (S (length ks)) F !! i) as [[a b]|] eqn:Ha; [|discriminate].
    simpl in Hi. inversion Hi; subst.
    assert (Hlt : (i < S (length ks))%nat).
    { apply lookup_lt_Some in Ha. rewrite length_take in Ha. lia. }
    rewrite lookup_take_lt in Ha by exact Hlt.
    apply (Hfree i a); [lia|].
    unfold jump_heights. fold v. fold F. rewrite list_lookup_fmap, Ha. reflexivity.
  - rewrite Hflight, last_lookup, length_fmap, length_take, HF in Hlast.
    replace (Init.Nat.pred (S (length ks) `min` 39)) with (length ks) in Hlast by lia.
    rewrite list_lookup_fmap in Hlast.
    destruct (take (S (length ks)) F !! length ks) as [[a b]|] eqn:Ha; [|discriminate].
    simpl in Hlast. inversion Hlast; subst.
    rewrite lookup_take_lt in Ha by lia.
    assert (Hjh : jump_heights !! length ks = Some a).
    { unfold jump_heights. fold v. fold F. rewrite list_lookup_fmap, Ha. reflexivity. }
    exists p', a.
    split; [exact Hrun|]. split; [exact Hjh|]. split; [exact Hrect|].
    split; [exact Hair|]. split; [exact Hhl|].
    split; [exact (proj1 (Forall_lookup _ _) Hlow _ _ Hjh)|].
    split; [|vm_compute; reflexivity].
    intros H17. rewrite H17 in Hjh. vm_compute in Hjh. congruence.
Qed.

Lemma X26_jump_arc_witness :
  exists p' dy,
    player_frames flat_world (jump_keys :: replicate 17 idle_keys) (standing_player 0 0)
      = Ok p' /\
    jump_heights !! length (replicate 17 idle_keys) = Some dy /\
    rect (Player.body p') =
      Rect.set_y (Rect.y (rect (Player.body (standing_player 0 0))) + dy)
        (rect (Player.body (standing_player 0 0))) /\
    on_ground (Player.body p') = false /\
    health (Player.body p') = health (Player.body (standing_player 0 0)) /\
    -106 <= dy /\
    (length (replicate 17 idle_keys) = 17%nat -> dy = -106) /\
    take 18 jump_heights =
      [-11; -21; -31; -40; -49; -57; -64; -71; -77; -83; -88; -92; -96; -99; -102;
       -104; -105; -106].
Proof.
  apply (X26_jump_arc flat_world (standing_player 0 0) jump_keys (replicate 17 idle_keys)
           flat_world_wf).
  - reflexivity.
  - reflexivity.
  - apply Forall_cons. split; [repeat split; reflexivity|].
    apply Forall_replicate. repeat split; reflexivity.
  - simpl. lia.
  - intros i dy Hi Hdy. simpl in Hi.
    do 18 (destruct i as [|i];
           [vm_compute in Hdy; inversion Hdy; subst; vm_compute; reflexivity|]).
    lia.
Defined.
